(** * Shortest-path engine and route metrics of the multi-campus OSPF simulator

    A shallow embedding of [dijkstra.py] and [metrics.py], and of the routing
    tables of [ospf_simulator.py] and the route finder of [path.py].

    Modelling conventions.
    - A Python [dict] that the code iterates over (the graph, a neighbour
      mapping, the topology, the results of [calculate_all_paths], the metrics)
      is an insertion-ordered association list with distinct keys, [dict V].
    - The dictionaries [distances] and [previous] are only read and written by
      key; they are finite maps ([gmap]).  The set [visited] is a [gset].
    - Node identifiers are strings.  Link costs are Python integers, [Z]
      (every topology of the repository uses integer costs); a distance is a
      cost or [float('infinity')].
    - [heapq] is modelled by its contract: [heappush] adds an entry,
      [heappop] removes a least entry for the order on tuples.
    - An exception is an explicit outcome [Raise]; the two [while] loops run on
      fuel and [OutOfFuel] is the outcome of a run that was cut short.  The
      fuel is a bound on the iterations of the loop, and a run on the source's
      own outputs never exhausts it ([main_loop_fuel], [walk_back_chain]).
    - A Python [float] is a binary64 float of the kernel ([PrimFloat]); a
      bandwidth or a distance is an [int] or a [float], [number].  The
      dictionary of the attributes of an arc is a list of typed items.
    - The methods of the class are functions of the fields of the instance.
      They are also given as transformers of these fields ([method]), where
      every read of [self.graph] and [self.routers] is a step on the instance
      and [__init__] is the one method that assigns a field; the functions are
      what these methods compute ([calculate_all_paths_method_run]).
    - Printing ([verbose]) is not modelled; the unused parameter [end] of
      [find_shortest_path] is dropped. *)

From Stdlib Require Import ZArith Lia Bool.
From Stdlib Require Import Floats.PrimFloat Floats.SpecFloat Floats.FloatOps.
From stdpp Require Import base tactics option list gmap strings.

Local Open Scope string_scope.
Local Open Scope list_scope.
Local Open Scope Z_scope.

(* ===================================================================== *)
(** ** Outcomes of a call *)

Inductive exn : Type :=
| KeyError (k : string)
| IndexError
| ZeroDivisionError
| OverflowError.

Inductive result (A : Type) : Type :=
| Ok (a : A)
| Raise (e : exn)
| OutOfFuel.

Arguments Ok {A} a.
Arguments Raise {A} e.
Arguments OutOfFuel {A}.

Definition result_bind {A B} (f : A → result B) (r : result A) : result B :=
  match r with
  | Ok a => f a
  | Raise e => Raise e
  | OutOfFuel => OutOfFuel
  end.

#[export] Instance result_mbind : MBind result := @result_bind.
#[export] Instance result_mret : MRet result := @Ok.

(** A [for] loop whose body may raise. *)
Fixpoint for_each {A S} (body : S → A → result S) (s : S) (l : list A) : result S :=
  match l with
  | [] => Ok s
  | x :: l' => s' ← body s x; for_each body s' l'
  end.

(* ===================================================================== *)
(** ** Insertion-ordered dictionaries *)

Definition dict (V : Type) : Type := list (string * V).

Fixpoint dict_get {V} (d : dict V) (k : string) : option V :=
  match d with
  | [] => None
  | (k', v) :: d' => if String.eqb k' k then Some v else dict_get d' k
  end.

(** [d[k] = v]: an existing key keeps its position, a new key goes last. *)
Fixpoint dict_set {V} (d : dict V) (k : string) (v : V) : dict V :=
  match d with
  | [] => [(k, v)]
  | (k', v') :: d' =>
      if String.eqb k' k then (k', v) :: d' else (k', v') :: dict_set d' k v
  end.

Definition dict_keys {V} (d : dict V) : list string := map fst d.

Definition dict_mem {V} (d : dict V) (k : string) : bool :=
  match dict_get d k with Some _ => true | None => false end.

(** [d[k]], which raises [KeyError] on a missing key. *)
Definition dict_item {V} (d : dict V) (k : string) : result V :=
  match dict_get d k with
  | Some v => Ok v
  | None => Raise (KeyError k)
  end.

Fixpoint distinct (l : list string) : bool :=
  match l with
  | [] => true
  | x :: l' => negb (existsb (String.eqb x) l') && distinct l'
  end.

(** The keys of a dictionary are pairwise distinct. *)
Definition dict_wf {V} (d : dict V) : bool := distinct (dict_keys d).

(* ===================================================================== *)
(** ** Graphs *)

Definition Graph : Type := dict (dict Z).

(** [graph_wf g]: [g] and each of its neighbour mappings are dictionaries. *)
Definition graph_wf (g : Graph) : bool :=
  dict_wf g && forallb (λ e : string * dict Z, dict_wf (snd e)) g.

(** Every neighbour is itself a key of the graph. *)
Definition neighbor_closed (g : Graph) : bool :=
  forallb (λ e : string * dict Z,
             forallb (λ a : string * Z, dict_mem g (fst a)) (snd e)) g.

Definition nonneg_weights (g : Graph) : bool :=
  forallb (λ e : string * dict Z,
             forallb (λ a : string * Z, 0 <=? snd a) (snd e)) g.

(** [arc g u v w]: the graph has the directed arc [u → v] of weight [w]. *)
Definition arc (g : Graph) (u v : string) (w : Z) : Prop :=
  ∃ nbrs, dict_get g u = Some nbrs ∧ dict_get nbrs v = Some w.

(** [walk g s v c]: some path from [s] to [v] has total weight [c]. *)
Inductive walk (g : Graph) (s : string) : string → Z → Prop :=
| walk_here : walk g s s 0
| walk_step u v w c : walk g s u c → arc g u v w → walk g s v (c + w).

Definition reachable (g : Graph) (s v : string) : Prop := ∃ c, walk g s v c.

(** [c] is the true shortest-path cost from [s] to [v]. *)
Definition shortest (g : Graph) (s v : string) (c : Z) : Prop :=
  walk g s v c ∧ ∀ c', walk g s v c' → c ≤ c'.

(** The weight of a path given as a node sequence, summed hop by hop. *)
Fixpoint path_cost (g : Graph) (p : list string) : option Z :=
  match p with
  | [] => Some 0
  | a :: p' =>
      match p' with
      | [] => Some 0
      | b :: _ =>
          match dict_get g a with
          | None => None
          | Some nbrs =>
              match dict_get nbrs b, path_cost g p' with
              | Some w, Some c => Some (w + c)
              | _, _ => None
              end
          end
      end
  end.

(* ===================================================================== *)
(** ** dijkstra.py *)

(** A distance: a cost, or [float('infinity')]. *)
Inductive dist : Type :=
| Finite (c : Z)
| Infinity.

(** [x < d] for an integer [x]. *)
Definition lt_dist (x : Z) (d : dist) : bool :=
  match d with
  | Finite c => x <? c
  | Infinity => true
  end.

#[export] Instance dist_eq_dec : EqDecision dist.
Proof. solve_decision. Defined.

(** *** The priority queue *)

Abbreviation entry := (Z * string)%type (only parsing).

(** [a < b] on tuples [(distance, router)]: lexicographic. *)
Definition entry_ltb (a b : entry) : bool :=
  (fst a <? fst b) || ((fst a =? fst b) && String.ltb (snd a) (snd b)).

Definition heappush (q : list entry) (e : entry) : list entry := q ++ [e].

(** A least entry of [e :: q] and the other entries. *)
Fixpoint pop_min (e : entry) (q : list entry) : entry * list entry :=
  match q with
  | [] => (e, [])
  | e' :: q' =>
      if entry_ltb e' e
      then let '(m, r) := pop_min e' q' in (m, e :: r)
      else let '(m, r) := pop_min e q' in (m, e' :: r)
  end.

Definition heappop (q : list entry) : option (entry * list entry) :=
  match q with
  | [] => None
  | e :: q' => Some (pop_min e q')
  end.

(** *** The class *)

Record DijkstraAlgorithm : Type := {
  graph : Graph;
  routers : list string
}.

(** [__init__] *)
Definition init (g : Graph) : DijkstraAlgorithm :=
  {| graph := g; routers := dict_keys g |}.

(** The local variables of [find_shortest_path]. *)
Record state : Type := {
  distances : gmap string dist;
  previous : gmap string (option string);
  priority_queue : list entry;
  visited : gset string
}.

(** [{router: x for router in routers}] *)
Definition dict_comprehension {V} (x : V) (rs : list string) : gmap string V :=
  foldl (λ m r, <[r := x]> m) ∅ rs.

(** Steps 1 and 2: the state before the main loop. *)
Definition initial_state (self : DijkstraAlgorithm) (start : string) : state :=
  {| distances := <[start := Finite 0]> (dict_comprehension Infinity (routers self));
     previous := dict_comprehension None (routers self);
     priority_queue := [(0, start)];
     visited := ∅ |}.

(** The body of [for neighbor, cost in self.graph[current_router].items()]. *)
Definition relax (current_distance : Z) (current_router : string)
    (st : state) (item : string * Z) : result state :=
  let '(neighbor, cost) := item in
  if decide (neighbor ∈ visited st) then Ok st
  else
    let new_distance := current_distance + cost in
    match distances st !! neighbor with
    | None => Raise (KeyError neighbor)
    | Some d =>
        if lt_dist new_distance d then
          Ok {| distances := <[neighbor := Finite new_distance]> (distances st);
                previous := <[neighbor := Some current_router]> (previous st);
                priority_queue :=
                  heappush (priority_queue st) (new_distance, neighbor);
                visited := visited st |}
        else Ok st
    end.

(** The body of the main loop, after [heappop] returned [popped] and left
    [rest] in the queue. *)
Definition loop_body (self : DijkstraAlgorithm) (popped : entry)
    (rest : list entry) (st : state) : result state :=
  let '(current_distance, current_router) := popped in
  if decide (current_router ∈ visited st) then
    Ok {| distances := distances st; previous := previous st;
          priority_queue := rest; visited := visited st |}
  else
    let st1 := {| distances := distances st; previous := previous st;
                  priority_queue := rest;
                  visited := {[current_router]} ∪ visited st |} in
    match dict_get (graph self) current_router with
    | Some nbrs => for_each (relax current_distance current_router) st1 nbrs
    | None => Ok st1
    end.

(** [while priority_queue: ...] *)
Fixpoint main_loop (fuel : nat) (self : DijkstraAlgorithm) (st : state)
    : result state :=
  match heappop (priority_queue st) with
  | None => Ok st
  | Some (popped, rest) =>
      match fuel with
      | O => OutOfFuel
      | S fuel' =>
          st' ← loop_body self popped rest st;
          main_loop fuel' self st'
      end
  end.

(** Every iteration pops one entry, and entries are pushed only while a
    router is visited for the first time, one per neighbour at most: the
    loop runs at most once per arc, plus one. *)
Definition loop_bound (g : Graph) : nat :=
  S (foldr (λ (e : string * dict Z) n, (length (snd e) + n)%nat) O g).

Definition find_shortest_path (self : DijkstraAlgorithm) (start : string)
    : result (gmap string dist * gmap string (option string)) :=
  st ← main_loop (loop_bound (graph self)) self (initial_state self start);
  Ok (distances st, previous st).

(** [while current is not None: path.insert(0, current); ...] *)
Fixpoint walk_back (fuel : nat) (previous : gmap string (option string))
    (current : option string) (path : list string) : result (list string) :=
  match current with
  | None => Ok path
  | Some c =>
      match fuel with
      | O => OutOfFuel
      | S fuel' =>
          match previous !! c with
          | None => Raise (KeyError c)
          | Some nxt => walk_back fuel' previous nxt (c :: path)
          end
      end
  end.

(** A chain of predecessors that never repeats a key has at most
    [size previous] nodes. *)
Definition reconstruct_path (previous : gmap string (option string))
    (start end_ : string) : result (option (list string)) :=
  path ← walk_back (S (size previous)) previous (Some end_) [];
  match path with
  | [] => Raise IndexError
  | first :: _ => if String.eqb first start then Ok (Some path) else Ok None
  end.

(** One entry of the result of [calculate_all_paths]. *)
Record routes : Type := {
  r_distances : gmap string dist;
  r_previous : gmap string (option string);
  r_paths : dict (option (list string))
}.

Definition calculate_all_paths (self : DijkstraAlgorithm) : result (dict routes) :=
  for_each
    (λ all_results router,
       '(distances, previous) ← find_shortest_path self router;
       paths ← for_each
                 (λ paths dest,
                    if String.eqb dest router then Ok paths
                    else
                      path ← reconstruct_path previous router dest;
                      Ok (dict_set paths dest path))
                 [] (routers self);
       Ok (dict_set all_results router
             {| r_distances := distances; r_previous := previous;
                r_paths := paths |}))
    [] (routers self).

(** The topology of [test_dijkstra]. *)
Definition test_graph : Graph :=
  [ ("A", [("B", 4); ("C", 2)]);
    ("B", [("A", 4); ("C", 1); ("D", 5)]);
    ("C", [("A", 2); ("B", 1); ("D", 8)]);
    ("D", [("B", 5); ("C", 8)]) ].

(* ===================================================================== *)
(** ** Python numbers *)

(** An [int] or a [float] (binary64). *)
Inductive number : Type :=
| PyInt (z : Z)
| PyFloat (f : float).

(** The least magnitude of an integer that rounds beyond the largest float:
    [2^1024 - 2^970]. *)
Definition float_overflow : Z := 2 ^ 1024 - 2 ^ 970.

(** [float(z)]: the nearest float, ties to even, or [OverflowError]. *)
Definition int_to_float (z : Z) : result float :=
  if Z.abs z <? float_overflow
  then Ok (SF2Prim (binary_normalize prec emax z 0 false))
  else Raise OverflowError.

(** The conversion of an operand of mixed arithmetic. *)
Definition to_float (x : number) : result float :=
  match x with
  | PyInt z => int_to_float z
  | PyFloat f => Ok f
  end.

(** [x * y], [x / y] and [x - y] for a float [y]. *)
Definition mul_float (x : number) (y : float) : result float :=
  a ← to_float x; Ok (a * y)%float.

Definition div_float (x : number) (y : float) : result float :=
  a ← to_float x;
  if (y =? 0)%float then Raise ZeroDivisionError else Ok (a / y)%float.

Definition sub_float (x : number) (y : float) : result float :=
  a ← to_float x; Ok (a - y)%float.

(** [z < s m 2^e], exactly. *)
Definition Z_ltb_finite (z : Z) (s : bool) (m : positive) (e : Z) : bool :=
  let v := if s then Z.neg m else Z.pos m in
  if 0 <=? e then z <? v * 2 ^ e else z * 2 ^ (- e) <? v.

Definition finite_ltb_Z (s : bool) (m : positive) (e : Z) (z : Z) : bool :=
  let v := if s then Z.neg m else Z.pos m in
  if 0 <=? e then v * 2 ^ e <? z else v <? z * 2 ^ (- e).

(** [x < y]; an integer and a float are compared exactly. *)
Definition number_ltb (x y : number) : bool :=
  match x, y with
  | PyInt a, PyInt b => a <? b
  | PyFloat a, PyFloat b => (a <? b)%float
  | PyInt a, PyFloat b =>
      match Prim2SF b with
      | S754_nan => false
      | S754_infinity s => negb s
      | S754_zero _ => a <? 0
      | S754_finite s m e => Z_ltb_finite a s m e
      end
  | PyFloat a, PyInt b =>
      match Prim2SF a with
      | S754_nan => false
      | S754_infinity s => s
      | S754_zero _ => 0 <? b
      | S754_finite s m e => finite_ltb_Z s m e b
      end
  end.

(** [min(first, *rest)]: the first of the least items. *)
Fixpoint py_min (current : number) (rest : list number) : number :=
  match rest with
  | [] => current
  | item :: rest' =>
      py_min (if number_ltb item current then item else current) rest'
  end.

(** The integer nearest to [n / d] for [0 < d], ties to even. *)
Definition div_half_even (n d : Z) : Z :=
  let q := n / d in
  match 2 * (n mod d) ?= d with
  | Lt => q
  | Gt => q + 1
  | Eq => if Z.even q then q else q + 1
  end.

(** [round(x, ndigits)] for a float [x] and [0 <= ndigits]: the digits of [x]
    correctly rounded to [ndigits] places, ties to even, read back as the
    nearest float.  Zeros, infinities and NaN round to themselves. *)
Definition py_round (x : float) (ndigits : Z) : float :=
  match Prim2SF x with
  | S754_finite s m e =>
      let scale := 10 ^ ndigits in
      let n :=
        if 0 <=? e then Z.pos m * 2 ^ e * scale
        else div_half_even (Z.pos m * scale) (2 ^ (- e)) in
      match n with
      | Z.pos p =>
          SF2Prim (SFdiv prec emax (S754_finite s p 0)
                     (S754_finite false (Z.to_pos scale) 0))
      | _ => if s then neg_zero else zero
      end
  | _ => x
  end.

(* ===================================================================== *)
(** ** metrics.py *)

Definition DEFAULT_PACKET_SIZE_BYTES : Z := 1500.
Definition SPEED_OF_LIGHT_FIBER : float := 2e8.
(** [0.01] *)
Definition DEFAULT_PACKET_LOSS : float := 0x1.47ae147ae147bp-7.
(** [0.8] *)
Definition DEFAULT_UTILIZATION : float := 0x1.999999999999ap-1.

Definition propagation_delay_ms (distance_km : number) : result float :=
  distance_m ← mul_float distance_km 1000;
  delay_s ← div_float (PyFloat distance_m) SPEED_OF_LIGHT_FIBER;
  Ok (delay_s * 1000)%float.

Definition transmission_delay_ms (packet_size_bytes : Z) (bandwidth_mbps : number)
    : result float :=
  let packet_bits := packet_size_bytes * 8 in
  bw_bps ← mul_float bandwidth_mbps 1e6;
  delay_s ← div_float (PyInt packet_bits) bw_bps;
  Ok (delay_s * 1000)%float.

Definition effective_throughput_mbps (path_bandwidths_mbps : list number)
    (packet_loss utilization : float) : result float :=
  match path_bandwidths_mbps with
  | [] => Ok 0%float
  | first :: rest =>
      let min_bw := py_min first rest in
      loss ← sub_float (PyInt 1) packet_loss;
      x ← mul_float min_bw loss;
      Ok (py_round (x * utilization) 2)
  end.

(** The attributes of an arc: a dictionary with the keys ['cost'],
    ['distance_km'] and ['bandwidth_mbps'], each of which may be missing. *)
Inductive attr : Type :=
| cost (c : Z)
| distance_km (x : number)
| bandwidth_mbps (x : number).

Definition attrs : Type := list attr.

(** [attrs.get('cost', default)] and the like. *)
Fixpoint get_cost (a : attrs) (default : Z) : Z :=
  match a with
  | [] => default
  | cost c :: _ => c
  | _ :: a' => get_cost a' default
  end.

Fixpoint get_distance_km (a : attrs) (default : number) : number :=
  match a with
  | [] => default
  | distance_km x :: _ => x
  | _ :: a' => get_distance_km a' default
  end.

Fixpoint get_bandwidth_mbps (a : attrs) (default : number) : number :=
  match a with
  | [] => default
  | bandwidth_mbps x :: _ => x
  | _ :: a' => get_bandwidth_mbps a' default
  end.

Definition Topology : Type := dict (dict attrs).

(** [topology.get(a, {}).get(b)] *)
Definition get_arc (topology : Topology) (a b : string) : option attrs :=
  match dict_get topology a with
  | Some neighs => dict_get neighs b
  | None => None
  end.

(** The truth value of [None] or of a dictionary. *)
Definition truthy (o : option attrs) : bool :=
  match o with
  | Some (_ :: _) => true
  | _ => false
  end.

Definition default_attrs : attrs :=
  [cost 64; distance_km (PyInt 50); bandwidth_mbps (PyInt 1000)].

(** The attributes that the loop over the hops of a path uses for the hop
    from [a] to [b]. *)
Definition hop_attrs (topology : Topology) (a b : string) : attrs :=
  match get_arc topology a b with
  | Some forward => forward
  | None =>
      let found :=
        if truthy (get_arc topology a b) then get_arc topology a b
        else get_arc topology b a in
      match found with
      | Some (x :: l) => x :: l
      | _ => default_attrs
      end
  end.

(** The graph of the costs, built arc by arc. *)
Definition weights_graph (topology : Topology) : Graph :=
  foldl (λ (wg : Graph) (e : string * dict attrs),
           dict_set wg (fst e)
             (foldl (λ (inner : dict Z) (a : string * attrs),
                       dict_set inner (fst a) (get_cost (snd a) 64))
                [] (snd e)))
    [] topology.

Record Delay : Type := {
  propagation_ms : float;
  transmission_ms : float;
  processing_ms : float;
  queuing_ms : float;
  total_delay_ms : float
}.

Record RouteMetrics : Type := {
  path_list : list string;
  path_str : string;
  hops : Z;
  ospf_cost : Z;
  delay : Delay;
  throughput_mbps : float;
  path_bandwidths_mbps : list number
}.

(** The accumulators of the loop over the hops. *)
Record hop_state : Type := {
  link_costs : list Z;
  prop_ms : float;
  trans_ms : float;
  path_bandwidths : list number
}.

(** The body of [for i in range(len(path)-1)], for [a = path[i]] and
    [b = path[i+1]]. *)
Definition hop_body (topology : Topology) (packet_size_bytes : Z)
    (acc : hop_state) (ab : string * string) : result hop_state :=
  let at_ := hop_attrs topology (fst ab) (snd ab) in
  let d_km := get_distance_km at_ (PyInt 50) in
  let bw_mbps := get_bandwidth_mbps at_ (PyInt 1000) in
  p ← propagation_delay_ms d_km;
  t ← transmission_delay_ms packet_size_bytes bw_mbps;
  Ok {| link_costs := link_costs acc ++ [get_cost at_ 64];
        prop_ms := (prop_ms acc + p)%float;
        trans_ms := (trans_ms acc + t)%float;
        path_bandwidths := path_bandwidths acc ++ [bw_mbps] |}.

(** The pairs [(path[i], path[i+1])]. *)
Definition consecutive (path : list string) : list (string * string) :=
  zip path (tail path).

(** The metrics of one path. *)
Definition path_metrics (topology : Topology) (packet_size_bytes : Z)
    (path : list string) : result RouteMetrics :=
  acc ← for_each (hop_body topology packet_size_bytes)
         {| link_costs := []; prop_ms := 0; trans_ms := 0; path_bandwidths := [] |}
         (consecutive path);
  let hops := Z.max (Z.of_nat (length path) - 1) 0 in
  processing ← mul_float (PyInt hops) 1;
  queuing ← mul_float (PyInt hops) 2;
  let total :=
    py_round (prop_ms acc + trans_ms acc + processing + queuing)%float 4 in
  python_throughput ←
    effective_throughput_mbps (path_bandwidths acc)
      DEFAULT_PACKET_LOSS DEFAULT_UTILIZATION;
  Ok {| path_list := path;
        path_str := String.concat " -> " path;
        hops := hops;
        ospf_cost := foldl Z.add 0 (link_costs acc);
        delay := {| propagation_ms := py_round (prop_ms acc) 4;
                    transmission_ms := py_round (trans_ms acc) 4;
                    processing_ms := py_round processing 4;
                    queuing_ms := py_round queuing 4;
                    total_delay_ms := total |};
        throughput_mbps := python_throughput;
        path_bandwidths_mbps := path_bandwidths acc |}.

(** The body of [for dst in topology.keys()], on the row [metrics[src]]. *)
Definition pair_body (topology : Topology) (all_routes : dict routes)
    (packet_size_bytes : Z) (src : string) (row : dict RouteMetrics)
    (dst : string) : result (dict RouteMetrics) :=
  if String.eqb src dst then Ok row
  else
    r ← dict_item all_routes src;
    match dict_get (r_paths r) dst with
    | Some (Some (first :: rest)) =>
        m ← path_metrics topology packet_size_bytes (first :: rest);
        Ok (dict_set row dst m)
    | _ => Ok row
    end.

Definition calculate_network_metrics (topology : Topology) (packet_size_bytes : Z)
    : result (dict (dict RouteMetrics)) :=
  let ospf := init (weights_graph topology) in
  all_routes ← calculate_all_paths ospf;
  for_each
    (λ metrics src,
       row ← for_each (pair_body topology all_routes packet_size_bytes src)
               [] (dict_keys topology);
       Ok (dict_set metrics src row))
    [] (dict_keys topology).

(** [1.544] *)
Definition T1_MBPS : float := 0x1.8b4395810624ep+0.

Definition convert_simple_to_full (simple_topology : Graph) : Topology :=
  foldl (λ (full : Topology) (e : string * dict Z),
           dict_set full (fst e)
             (foldl (λ (inner : dict attrs) (a : string * Z),
                       dict_set inner (fst a)
                         [cost (snd a); distance_km (PyInt 50);
                          bandwidth_mbps (PyFloat T1_MBPS)])
                [] (snd e)))
    [] simple_topology.

(* ===================================================================== *)
(** ** The instance as state *)

(** A method of the class runs on the fields of the instance and leaves the
    fields that the instance has after the call, whether it returns or
    raises. *)
Definition method (A : Type) : Type :=
  DijkstraAlgorithm → result A * DijkstraAlgorithm.

Definition method_ret {A} (a : A) : method A := λ self, (Ok a, self).

Definition method_bind {A B} (k : A → method B) (m : method A) : method B :=
  λ self,
    match m self with
    | (Ok a, self') => k a self'
    | (Raise e, self') => (Raise e, self')
    | (OutOfFuel, self') => (OutOfFuel, self')
    end.

#[export] Instance method_mret : MRet method := @method_ret.
#[export] Instance method_mbind : MBind method := @method_bind.

(** [self.graph] and [self.routers], read. *)
Definition get_graph : method Graph := λ self, (Ok (graph self), self).
Definition get_routers : method (list string) := λ self, (Ok (routers self), self).

(** [self.graph = g] and [self.routers = rs]. *)
Definition set_graph (g : Graph) : method unit :=
  λ self, (Ok tt, {| graph := g; routers := routers self |}).
Definition set_routers (rs : list string) : method unit :=
  λ self, (Ok tt, {| graph := graph self; routers := rs |}).

(** A statement on the local variables. *)
Definition local {A} (r : result A) : method A := λ self, (r, self).

(** A [for] loop whose body is run on the instance. *)
Fixpoint method_for_each {A S} (body : S → A → method S) (s : S) (l : list A)
    : method S :=
  match l with
  | [] => mret s
  | x :: l' => s' ← body s x; method_for_each body s' l'
  end.

(** [__init__], the one method that assigns the fields. *)
Definition init_method (g : Graph) : method unit :=
  _ ← set_graph g; set_routers (dict_keys g).

(** The body of the main loop: [current_router in self.graph] and
    [self.graph[current_router].items()] read the instance. *)
Definition loop_body_method (popped : entry) (rest : list entry) (st : state)
    : method state :=
  let '(current_distance, current_router) := popped in
  if decide (current_router ∈ visited st) then
    mret {| distances := distances st; previous := previous st;
            priority_queue := rest; visited := visited st |}
  else
    let st1 := {| distances := distances st; previous := previous st;
                  priority_queue := rest;
                  visited := {[current_router]} ∪ visited st |} in
    g ← get_graph;
    if dict_mem g current_router then
      g' ← get_graph;
      nbrs ← local (dict_item g' current_router);
      local (for_each (relax current_distance current_router) st1 nbrs)
    else mret st1.

Fixpoint main_loop_method (fuel : nat) (st : state) : method state :=
  match heappop (priority_queue st) with
  | None => mret st
  | Some (popped, rest) =>
      match fuel with
      | O => local OutOfFuel
      | S fuel' =>
          st' ← loop_body_method popped rest st;
          main_loop_method fuel' st'
      end
  end.

(** [find_shortest_path]: the two dictionary comprehensions read
    [self.routers]; the bound of the loop is that of [find_shortest_path]. *)
Definition find_shortest_path_method (start : string)
    : method (gmap string dist * gmap string (option string)) :=
  rs ← get_routers;
  let d0 := <[start := Finite 0]> (dict_comprehension Infinity rs) in
  rs' ← get_routers;
  let p0 := dict_comprehension None rs' in
  g ← get_graph;
  st ← main_loop_method (loop_bound g)
         {| distances := d0; previous := p0;
            priority_queue := [(0, start)]; visited := ∅ |};
  mret (distances st, previous st).

(** [reconstruct_path] has no access to [self]. *)
Definition reconstruct_path_method (previous : gmap string (option string))
    (start end_ : string) : method (option (list string)) :=
  local (reconstruct_path previous start end_).

(** [calculate_all_paths]: both loops are over [self.routers], and the body
    calls [self.find_shortest_path] and [self.reconstruct_path]. *)
Definition calculate_all_paths_method : method (dict routes) :=
  rs ← get_routers;
  method_for_each
    (λ all_results router,
       dp ← find_shortest_path_method router;
       rs' ← get_routers;
       paths ← method_for_each
                 (λ paths dest,
                    if String.eqb dest router then mret paths
                    else
                      path ← reconstruct_path_method (snd dp) router dest;
                      mret (dict_set paths dest path))
                 [] rs';
       mret (dict_set all_results router
               {| r_distances := fst dp; r_previous := snd dp;
                  r_paths := paths |}))
    [] rs.

(* ===================================================================== *)
(** ** ospf_simulator.py *)

Definition NETWORK_TOPOLOGY : Graph :=
  [ ("R0", [("R6", 64)]);
    ("R1", [("R7", 64)]);
    ("R2", [("R8", 64)]);
    ("R3", [("R9", 64)]);
    ("R4", [("R10", 64)]);
    ("R5", [("R11", 64)]);
    ("R6", [("R0", 64); ("R7", 64)]);
    ("R7", [("R6", 64); ("R8", 64); ("R9", 64); ("R1", 64)]);
    ("R8", [("R7", 64); ("R9", 64); ("R2", 64)]);
    ("R9", [("R8", 64); ("R10", 64); ("R3", 64); ("R7", 64)]);
    ("R10", [("R9", 64); ("R11", 64); ("R4", 64)]);
    ("R11", [("R10", 64); ("R5", 64)]) ].

(** A line of a routing table: the destination, the cost or infinity, the
    next hop or ["N/A"], and the path or ["No path"] or ["Unreachable"]. *)
Record table_row : Type := {
  row_dest : string;
  row_cost : dist;
  row_next_hop : string;
  row_path : string
}.

(** [distances[dest]] on the distances of a result. *)
Definition distances_item (distances : gmap string dist) (dest : string)
    : result dist :=
  match distances !! dest with
  | Some c => Ok c
  | None => Raise (KeyError dest)
  end.

(** The line that [generate_routing_tables] prints for a destination. *)
Definition routing_row (distances : gmap string dist)
    (paths : dict (option (list string))) (dest : string) : result table_row :=
  cost ← distances_item distances dest;
  path ← dict_item paths dest;
  let '(next_hop, path_str) :=
    match path with
    | Some (first :: second :: rest) =>
        (second, String.concat " → " (first :: second :: rest))
    | _ => ("N/A", "No path")
    end in
  Ok {| row_dest := dest;
        row_cost := cost;
        row_next_hop := next_hop;
        row_path := match cost with
                    | Finite _ => path_str
                    | Infinity => "Unreachable"
                    end |}.

(** The body of [for dest in NETWORK_TOPOLOGY.keys()], on the lines of the
    table of [router]. *)
Definition row_body (r : routes) (router : string) (rows : list table_row)
    (dest : string) : result (list table_row) :=
  if String.eqb dest router then Ok rows
  else
    row ← routing_row (r_distances r) (r_paths r) dest;
    Ok (rows ++ [row]).

(** The body of [for router in NETWORK_TOPOLOGY.keys()], on the tables
    printed so far. *)
Definition table_body (topology : Graph) (all_routes : dict routes)
    (tables : list (string * list table_row)) (router : string)
    : result (list (string * list table_row)) :=
  r ← dict_item all_routes router;
  rows ← for_each (row_body r router) [] (dict_keys topology);
  Ok (tables ++ [(router, rows)]).

(** [generate_routing_tables], with the topology of the module as a
    parameter: the tables that it prints, router by router, and the routes
    that it returns. *)
Definition generate_routing_tables_in (topology : Graph)
    : result (list (string * list table_row) * dict routes) :=
  let ospf := init topology in
  all_routes ← calculate_all_paths ospf;
  tables ← for_each (table_body topology all_routes) [] (dict_keys topology);
  Ok (tables, all_routes).

Definition generate_routing_tables
    : result (list (string * list table_row) * dict routes) :=
  generate_routing_tables_in NETWORK_TOPOLOGY.

(* ===================================================================== *)
(** ** path.py *)

Definition PC_TO_ROUTER : dict string :=
  [ ("PC0", "R0"); ("PC1", "R0"); ("PC2", "R0");
    ("PC3", "R1"); ("PC4", "R1"); ("PC5", "R1");
    ("PC6", "R2"); ("PC7", "R2"); ("PC8", "R2");
    ("PC9", "R3"); ("PC10", "R3"); ("PC11", "R3");
    ("PC12", "R4"); ("PC13", "R4"); ("PC14", "R4");
    ("PC15", "R5"); ("PC16", "R5"); ("PC17", "R5") ].

Definition DISTANCE_KM_PER_HOP : Z := 50.
Definition BANDWIDTH_MBPS : float := T1_MBPS.
Definition PACKET_SIZE_BYTES : Z := 1500.

(** [x * k] and [f * k] for an integer [k]. *)
Definition mul_int (x : number) (k : Z) : result number :=
  match x with
  | PyInt z => Ok (PyInt (z * k))
  | PyFloat f => b ← int_to_float k; Ok (PyFloat (f * b)%float)
  end.

Definition float_mul_int (f : float) (k : Z) : result float :=
  b ← int_to_float k; Ok (f * b)%float.

Definition calculate_propagation_delay (distance_km : number) : result float :=
  distance_m ← mul_int distance_km 1000;
  delay_s ← div_float distance_m SPEED_OF_LIGHT_FIBER;
  float_mul_int delay_s 1000.

Definition calculate_transmission_delay (packet_size_bytes : Z)
    (bandwidth_mbps : number) : result float :=
  let packet_bits := packet_size_bytes * 8 in
  bandwidth_bps ← mul_float bandwidth_mbps 1e6;
  delay_s ← div_float (PyInt packet_bits) bandwidth_bps;
  float_mul_int delay_s 1000.

Definition calculate_total_delay (hops : Z) : result float :=
  prop_delay ← calculate_propagation_delay (PyInt (DISTANCE_KM_PER_HOP * hops));
  per_hop ← calculate_transmission_delay PACKET_SIZE_BYTES (PyFloat BANDWIDTH_MBPS);
  trans_delay ← float_mul_int per_hop hops;
  proc_delay ← mul_float (PyInt hops) 1;
  queue_delay ← mul_float (PyInt hops) 2;
  Ok (py_round (prop_delay + trans_delay + proc_delay + queue_delay)%float 3).

(** What [find_pc_to_pc_path] prints when it has found a route. *)
Record route_info : Type := {
  ri_src_pc : string;
  ri_dst_pc : string;
  ri_src_router : string;
  ri_dst_router : string;
  ri_path : list string;
  ri_hops : Z;
  ri_cost : dist;
  ri_delay : float
}.

(** [find_pc_to_pc_path] returns a message, or prints a route and returns
    [None]. *)
Inductive pc_answer : Type :=
| Message (text : string)
| Printed (info : route_info).

(** [find_pc_to_pc_path], for the assignment of the PCs and the topology of
    the modules. *)
Definition find_pc_to_pc_path_in (pc_to_router : dict string) (topology : Graph)
    (src_pc dst_pc : string) : result pc_answer :=
  if negb (dict_mem pc_to_router src_pc) || negb (dict_mem pc_to_router dst_pc)
  then
    Ok (Message (" Invalid PC name(s). Valid PCs: "
                 +:+ String.concat ", " (dict_keys pc_to_router)))
  else
    src_router ← dict_item pc_to_router src_pc;
    dst_router ← dict_item pc_to_router dst_pc;
    if String.eqb src_router dst_router then
      Ok (Message (src_pc +:+ " and " +:+ dst_pc +:+ " are in the same network ("
                   +:+ src_router +:+ "). No routing needed."))
    else
      let ospf := init topology in
      all_routes ← calculate_all_paths ospf;
      r ← dict_item all_routes src_router;
      let path :=
        match dict_get (r_paths r) dst_router with
        | Some stored => stored
        | None => Some []
        end in
      let cost :=
        match r_distances r !! dst_router with
        | Some c => c
        | None => Infinity
        end in
      match path with
      | Some (first :: rest) =>
          let hops := Z.of_nat (length (first :: rest)) - 1 in
          delay ← calculate_total_delay hops;
          Ok (Printed {| ri_src_pc := src_pc; ri_dst_pc := dst_pc;
                         ri_src_router := src_router;
                         ri_dst_router := dst_router;
                         ri_path := first :: rest; ri_hops := hops;
                         ri_cost := cost; ri_delay := delay |})
      | _ =>
          Ok (Message (" No route found between " +:+ src_router +:+ " and "
                       +:+ dst_router))
      end.

Definition find_pc_to_pc_path (src_pc dst_pc : string) : result pc_answer :=
  find_pc_to_pc_path_in PC_TO_ROUTER NETWORK_TOPOLOGY src_pc dst_pc.

(* ===================================================================== *)
(** ** Vocabulary of the statements and of the proofs *)

(** [chain prev start v p]: following the predecessors from [v] visits the
    nodes of [p], last to first, and ends on [start]. *)
Inductive chain (prev : gmap string (option string)) (start : string)
    : string → list string → Prop :=
| chain_start : chain prev start start [start]
| chain_step v u p :
    prev !! v = Some (Some u) → chain prev start u p →
    chain prev start v (p ++ [v]).

(** The router being expanded, its distance, and the neighbours that the
    [for] loop has still to examine. *)
Definition pending : Type := option (string * Z * dict Z).

(** The invariant of the main loop of [find_shortest_path] on the graph [g]
    from [start]; [pend] is the expansion in progress, if any. *)
Record Inv (g : Graph) (start : string) (pend : pending) (st : state) : Prop := {
  i_start : distances st !! start = Some (Finite 0);
  i_dom : ∀ v, is_Some (dict_get g v) → is_Some (distances st !! v);
  i_dom' : ∀ v, is_Some (distances st !! v) → is_Some (dict_get g v) ∨ v = start;
  i_pdom : ∀ v, is_Some (previous st !! v) ↔ is_Some (dict_get g v);
  i_pstart : ∀ u, previous st !! start ≠ Some (Some u);
  i_fin_start : ∀ v c,
    distances st !! v = Some (Finite c) → v = start ∨ start ∈ visited st;
  i_vis_fin : ∀ v, v ∈ visited st → ∃ c, distances st !! v = Some (Finite c);
  i_fin_q : ∀ v c,
    distances st !! v = Some (Finite c) →
    v ∈ visited st ∨ (c, v) ∈ priority_queue st;
  i_q : ∀ k v,
    (k, v) ∈ priority_queue st →
    ∃ c, distances st !! v = Some (Finite c) ∧ c ≤ k;
  i_sound : ∀ v c, distances st !! v = Some (Finite c) → walk g start v c;
  i_closed : ∀ u nbrs v w,
    u ∈ visited st → dict_get g u = Some nbrs → (v, w) ∈ nbrs →
    (∃ c, distances st !! v = Some (Finite c)) ∨
    (∃ k todo, pend = Some (u, k, todo) ∧ (v, w) ∈ todo);
  i_pend : ∀ u k todo,
    pend = Some (u, k, todo) →
    u ∈ visited st ∧ distances st !! u = Some (Finite k) ∧
    ∃ nbrs, dict_get g u = Some nbrs ∧ todo ⊆ nbrs;
  i_prev : ∀ v u,
    previous st !! v = Some (Some u) →
    u ∈ visited st ∧
    ∃ w cu, arc g u v w ∧ distances st !! u = Some (Finite cu) ∧
            distances st !! v = Some (Finite (cu + w));
  i_prev_inf : ∀ v,
    distances st !! v = Some Infinity → previous st !! v = Some None;
  i_prev_fin : ∀ v c,
    distances st !! v = Some (Finite c) → v ≠ start →
    ∃ u, previous st !! v = Some (Some u);
  i_chain : ∀ v,
    v ∈ visited st →
    ∃ p, chain (previous st) start v p ∧ NoDup p ∧ ∀ x, x ∈ p → x ∈ visited st;
  i_opt : nonneg_weights g = true → ∀ v c c',
    v ∈ visited st → distances st !! v = Some (Finite c) →
    walk g start v c' → c ≤ c';
  i_relaxed : nonneg_weights g = true → ∀ u nbrs v w cu,
    u ∈ visited st → dict_get g u = Some nbrs → (v, w) ∈ nbrs →
    distances st !! u = Some (Finite cu) →
    (∃ c, distances st !! v = Some (Finite c) ∧ c ≤ cu + w) ∨
    (∃ k todo, pend = Some (u, k, todo) ∧ (v, w) ∈ todo)
}.

(** The arcs that leave a router not yet visited. *)
Definition unvisited_arcs (g : Graph) (vis : gset string) : nat :=
  foldr (λ (e : string * dict Z) n,
           if decide (fst e ∈ vis) then n else (length (snd e) + n)%nat) O g.

(** The work that is left: the entries to pop, and those still to push. *)
Definition work_left (g : Graph) (st : state) : nat :=
  (length (priority_queue st) + unvisited_arcs g (visited st))%nat.

(** The routes from one router, as the body of the outer loop computes them. *)
Definition routes_from (self : DijkstraAlgorithm) (router : string) : result routes :=
  '(distances, previous) ← find_shortest_path self router;
  paths ← for_each
            (λ paths dest,
               if String.eqb dest router then Ok paths
               else
                 path ← reconstruct_path previous router dest;
                 Ok (dict_set paths dest path))
            [] (routers self);
  Ok {| r_distances := distances; r_previous := previous; r_paths := paths |}.

(** The entry that the body of the inner loop sets for a destination, if it
    sets one. *)
Definition pair_entry (topology : Topology) (all_routes : dict routes)
    (packet_size_bytes : Z) (src dst : string) : result (option RouteMetrics) :=
  if String.eqb src dst then Ok None
  else
    r ← dict_item all_routes src;
    match dict_get (r_paths r) dst with
    | Some (Some (first :: rest)) =>
        m ← path_metrics topology packet_size_bytes (first :: rest);
        Ok (Some m)
    | _ => Ok None
    end.

(** A topology with a router that no link reaches. *)
Definition island_topology : Topology :=
  convert_simple_to_full [("A", [("B", 1)]); ("B", [("A", 1)]); ("C", [])].

(** The attributes that the code reads from a dictionary of attributes. *)
Definition resolved (a : attrs) : Z * number * number :=
  (get_cost a 64, get_distance_km a (PyInt 50), get_bandwidth_mbps a (PyInt 1000)).

(** Modelled from the spec: [topology[a][b]] is present, with the attributes
    [at_]; it is an entry of the topology. *)
Definition present (topology : Topology) (a b : string) (at_ : attrs) : Prop :=
  ∃ nbrs, (a, nbrs) ∈ topology ∧ (b, at_) ∈ nbrs.

Definition absent (topology : Topology) (a b : string) : Prop :=
  ∀ at_, ¬ present topology a b at_.

(** Modelled from the spec: the fallback chain selects the attributes of the
    forward arc if it is present, otherwise those of the reverse arc if it is
    present, otherwise the fixed default attributes. *)
Inductive chain_selects (topology : Topology) (a b : string) : attrs → Prop :=
| select_forward at_ :
    present topology a b at_ → chain_selects topology a b at_
| select_reverse at_ :
    absent topology a b → present topology b a at_ →
    chain_selects topology a b at_
| select_default :
    absent topology a b → absent topology b a →
    chain_selects topology a b
      [cost 64; distance_km (PyInt 50); bandwidth_mbps (PyInt 1000)].

(** Modelled from the spec: the cost, the distance and the bandwidth that a
    dictionary of attributes gives: the value of each key that it has, and
    64, 50 and 1000 for a key that it misses. *)
Definition resolves (at_ : attrs) (r : Z * number * number) : Prop :=
  (∀ x, cost x ∈ at_ → fst (fst r) = x) ∧
  ((∀ x, cost x ∉ at_) → fst (fst r) = 64) ∧
  (∀ x, distance_km x ∈ at_ → snd (fst r) = x) ∧
  ((∀ x, distance_km x ∉ at_) → snd (fst r) = PyInt 50) ∧
  (∀ x, bandwidth_mbps x ∈ at_ → snd r = x) ∧
  ((∀ x, bandwidth_mbps x ∉ at_) → snd r = PyInt 1000).

(** The dictionaries of attributes are dictionaries: no key twice. *)
Definition attr_name (x : attr) : string :=
  match x with
  | cost _ => "cost"
  | distance_km _ => "distance_km"
  | bandwidth_mbps _ => "bandwidth_mbps"
  end.

Definition attrs_wf (at_ : attrs) : bool := distinct (map attr_name at_).

Definition attributes_wf (topology : Topology) : bool :=
  forallb (λ e : string * dict attrs,
             forallb (λ a : string * attrs, attrs_wf (snd a)) (snd e)) topology.

(** The accumulators before the first hop. *)
Definition no_hops : hop_state :=
  {| link_costs := []; prop_ms := 0; trans_ms := 0; path_bandwidths := [] |}.

(** A topology with one arc, from A to B, and a topology with two arcs of
    different attributes between A and B. *)
Definition one_way_topology : Topology :=
  [ ("A", [("B", [cost 5; distance_km (PyInt 7); bandwidth_mbps (PyInt 9)])]);
    ("B", []);
    ("C", []) ].

Definition asymmetric_topology : Topology :=
  [ ("A", [("B", [cost 5; distance_km (PyInt 7); bandwidth_mbps (PyInt 9)])]);
    ("B", [("A", [cost 6; distance_km (PyInt 8); bandwidth_mbps (PyInt 10)])]) ].

(** One step of the loop over the hops, from the resolved attributes. *)
Definition hop_step (r : Z * number * number) (packet_size_bytes : Z)
    (acc : hop_state) : result hop_state :=
  let '(c, d_km, bw_mbps) := r in
  p ← propagation_delay_ms d_km;
  t ← transmission_delay_ms packet_size_bytes bw_mbps;
  Ok {| link_costs := link_costs acc ++ [c];
        prop_ms := (prop_ms acc + p)%float;
        trans_ms := (trans_ms acc + t)%float;
        path_bandwidths := path_bandwidths acc ++ [bw_mbps] |}.

(** A number that [float] converts. *)
Definition in_float_range (x : number) : bool :=
  match x with
  | PyInt z => Z.abs z <? float_overflow
  | PyFloat _ => true
  end.

(** The distance and the cost of the stored path for a pair, in a result of
    [calculate_all_paths]. *)
Definition distance_in (all_results : dict routes) (src dst : string) : option dist :=
  r ← dict_get all_results src; r_distances r !! dst.

Definition path_cost_in (g : Graph) (all_results : dict routes) (src dst : string)
    : option Z :=
  r ← dict_get all_results src;
  path ← dict_get (r_paths r) dst;
  p ← path;
  path_cost g p.

(** Two calls in a row on one instance: the second call runs on the instance
    that the first call leaves. *)
Definition call_twice : method (dict routes * dict routes) :=
  first ← calculate_all_paths_method;
  second ← calculate_all_paths_method;
  mret (first, second).

(** Every arc has a reverse arc of the same weight. *)
Definition symmetric (g : Graph) : bool :=
  forallb (λ e : string * dict Z,
             forallb (λ a : string * Z,
                        match dict_get g (fst a) with
                        | Some back =>
                            match dict_get back (fst e) with
                            | Some w => w =? snd a
                            | None => false
                            end
                        | None => false
                        end) (snd e)) g.

(** Every weight is a multiple of [k]. *)
Definition weights_multiple_of (k : Z) (g : Graph) : bool :=
  forallb (λ e : string * dict Z,
             forallb (λ a : string * Z, snd a mod k =? 0) (snd e)) g.

(** The topology and each of its neighbour mappings are dictionaries. *)
Definition topology_wf (topology : Topology) : bool :=
  dict_wf topology && forallb (λ e : string * dict attrs, dict_wf (snd e)) topology.

(** The bandwidths that are zero: [0], [0.0] and [-0.0]. *)
Definition zero_bandwidths : list number :=
  [PyInt 0; PyFloat 0; PyFloat (-0)].

(** A run from [a] returns, with the distance [c] for [b]; a run from [a]
    returns, and a path to [b] is reconstructed. *)
Definition distance_is (g : Graph) (a b : string) (c : Z) : bool :=
  match find_shortest_path (init g) a with
  | Ok dp =>
      match fst dp !! b with
      | Some (Finite c') => c' =? c
      | _ => false
      end
  | _ => false
  end.

Definition path_found (g : Graph) (a b : string) : bool :=
  match find_shortest_path (init g) a with
  | Ok dp =>
      match reconstruct_path (snd dp) a b with
      | Ok (Some _) => true
      | _ => false
      end
  | _ => false
  end.

(** Every PC is attached to a router of the topology. *)
Definition attached (pc_to_router : dict string) (g : Graph) : bool :=
  forallb (λ e : string * string, dict_mem g (snd e)) pc_to_router.

(* ===================================================================== *)
(** * Properties *)

(** ** Outcomes and loops *)

Lemma bind_Ok {A B} (f : A → result B) (r : result A) (b : B) :
  (r ≫= f) = Ok b → ∃ a, r = Ok a ∧ f a = Ok b.
Proof. destruct r; simpl; intros; eauto; discriminate. Qed.

(** ** Dictionaries *)

Lemma dict_get_elem {V} (d : dict V) k v : dict_get d k = Some v → (k, v) ∈ d.
Proof.
  induction d as [|[k' v'] d IH]; simpl; [done|].
  destruct (String.eqb_spec k' k) as [->|Hne].
  - intros [= ->]. left.
  - intros H. right. auto.
Qed.

Lemma dict_get_is_Some {V} (d : dict V) k :
  is_Some (dict_get d k) ↔ k ∈ dict_keys d.
Proof.
  unfold dict_keys. induction d as [|[k' v'] d IH]; simpl.
  - split; [intros [? [=]] | intros H; inversion H].
  - destruct (String.eqb_spec k' k) as [->|Hne].
    + split; [left | eauto].
    + rewrite IH. split; [by right|]. intros H.
      apply elem_of_cons in H as [->|H]; [done|auto].
Qed.

Lemma dict_mem_true {V} (d : dict V) k :
  dict_mem d k = true ↔ is_Some (dict_get d k).
Proof.
  unfold dict_mem. destruct (dict_get d k); split; intros H; eauto.
  - discriminate.
  - by destruct H.
Qed.

Lemma distinct_NoDup l : distinct l = true ↔ NoDup l.
Proof.
  induction l as [|x l IH]; simpl.
  - split; [constructor | done].
  - rewrite andb_true_iff, negb_true_iff, IH, NoDup_cons.
    assert (existsb (String.eqb x) l = false ↔ x ∉ l) as ->; [|done].
    rewrite <- not_true_iff_false, existsb_exists.
    split.
    + intros H Hx. apply H. exists x. split; [by apply list_elem_of_In|].
      apply String.eqb_refl.
    + intros H (y & Hy & Heq). apply String.eqb_eq in Heq as <-.
      by apply H, list_elem_of_In.
Qed.

Lemma dict_elem_get {V} (d : dict V) k v :
  dict_wf d = true → (k, v) ∈ d → dict_get d k = Some v.
Proof.
  unfold dict_wf, dict_keys. rewrite distinct_NoDup.
  induction d as [|[k' v'] d IH]; simpl; intros Hnd Hin.
  - inversion Hin.
  - apply NoDup_cons in Hnd as [Hk' Hnd].
    apply elem_of_cons in Hin as [[= -> ->]|Hin].
    + by rewrite String.eqb_refl.
    + destruct (String.eqb_spec k' k) as [->|Hne]; [|auto].
      exfalso. apply Hk'. apply list_elem_of_fmap. by exists (k, v).
Qed.

(** ** Graphs *)

Section graph_facts.
Context (g : Graph).

Lemma arc_elem u nbrs v w :
  graph_wf g = true → dict_get g u = Some nbrs → (v, w) ∈ nbrs → arc g u v w.
Proof.
  unfold graph_wf. rewrite andb_true_iff, forallb_forall. intros [_ Hwf] Hu Hin.
  exists nbrs. split; [done|]. apply dict_elem_get; [|done].
  apply (Hwf (u, nbrs)). by apply list_elem_of_In, dict_get_elem.
Qed.

Lemma arc_nonneg u v w : nonneg_weights g = true → arc g u v w → 0 ≤ w.
Proof.
  unfold nonneg_weights. rewrite forallb_forall. intros H (nbrs & Hu & Hv).
  apply dict_get_elem, list_elem_of_In in Hu, Hv.
  specialize (H _ Hu). simpl in H. rewrite forallb_forall in H.
  specialize (H _ Hv). simpl in H. lia.
Qed.

Lemma closed_elem u nbrs v w :
  neighbor_closed g = true → dict_get g u = Some nbrs → (v, w) ∈ nbrs →
  is_Some (dict_get g v).
Proof.
  unfold neighbor_closed. rewrite forallb_forall. intros H Hu Hv.
  apply dict_get_elem, list_elem_of_In in Hu. apply list_elem_of_In in Hv.
  specialize (H _ Hu). simpl in H. rewrite forallb_forall in H.
  specialize (H _ Hv). simpl in H. by apply dict_mem_true.
Qed.

End graph_facts.

(** ** The priority queue *)

Lemma pop_min_perm e q m r : pop_min e q = (m, r) → e :: q ≡ₚ m :: r.
Proof.
  revert e m r. induction q as [|e' q IH]; intros e m r; simpl.
  - by intros [= <- <-].
  - destruct (entry_ltb e' e).
    + destruct (pop_min e' q) as [m' r'] eqn:E. intros [= <- <-].
      rewrite (IH _ _ _ E). apply Permutation_swap.
    + destruct (pop_min e q) as [m' r'] eqn:E. intros [= <- <-].
      etrans; [apply Permutation_swap|].
      rewrite (IH _ _ _ E). apply Permutation_swap.
Qed.

Lemma pop_min_least e q m r :
  pop_min e q = (m, r) → ∀ x, x ∈ e :: q → fst m ≤ fst x.
Proof.
  revert e m r. induction q as [|e' q IH]; intros e m r; simpl.
  - intros [= <- <-] x Hx. apply list_elem_of_singleton in Hx as ->. lia.
  - assert (∀ a b : entry, entry_ltb a b = true → fst a ≤ fst b) as Hlt.
    { intros a b. unfold entry_ltb. rewrite orb_true_iff, andb_true_iff. lia. }
    assert (∀ a b : entry, entry_ltb a b = false → fst b ≤ fst a) as Hge.
    { intros a b. unfold entry_ltb. rewrite orb_false_iff. lia. }
    destruct (entry_ltb e' e) eqn:Hc.
    + destruct (pop_min e' q) as [m' r'] eqn:E. intros [= <- <-] x Hx.
      pose proof (IH _ _ _ E) as Hm. apply Hlt in Hc.
      apply elem_of_cons in Hx as [->|Hx]; [|by apply Hm].
      specialize (Hm e' ltac:(left)). lia.
    + destruct (pop_min e q) as [m' r'] eqn:E. intros [= <- <-] x Hx.
      pose proof (IH _ _ _ E) as Hm. apply Hge in Hc.
      apply elem_of_cons in Hx as [->|Hx]; [by apply Hm; left|].
      apply elem_of_cons in Hx as [->|Hx]; [|by apply Hm; right].
      specialize (Hm e ltac:(left)). lia.
Qed.

Lemma heappop_perm q m r : heappop q = Some (m, r) → q ≡ₚ m :: r.
Proof. destruct q; simpl; [done|]. intros [= H]. by apply pop_min_perm. Qed.

Lemma heappop_least q m r x : heappop q = Some (m, r) → x ∈ q → fst m ≤ fst x.
Proof. destruct q; simpl; [done|]. intros [= H]. by apply (pop_min_least _ _ _ _ H). Qed.

Lemma heappop_None q : heappop q = None ↔ q = [].
Proof. by destruct q. Qed.

(** ** The invariant of the main loop *)

Lemma chain_frozen prev prev' start v p :
  chain prev start v p → (∀ x, x ∈ p → prev' !! x = prev !! x) →
  chain prev' start v p.
Proof.
  induction 1 as [|v u p Hv _ IH]; intros Heq; [constructor|].
  apply chain_step with u.
  - rewrite Heq; [done|]. apply elem_of_app. right. left.
  - apply IH. intros x Hx. apply Heq, elem_of_app. by left.
Qed.

Lemma chain_last prev start v p : chain prev start v p → ∃ p', p = p' ++ [v].
Proof. destruct 1; [by exists []|eauto]. Qed.

Lemma chain_first prev start v p : chain prev start v p → ∃ p', p = start :: p'.
Proof.
  induction 1 as [|v u p _ _ [p' ->]]; [by exists []|]. by exists (p' ++ [v]).
Qed.

Section invariant.
Context (g : Graph) (start : string).
Hypothesis Hwf : graph_wf g = true.

Lemma Inv_start_visited pend st u : Inv g start pend st → u ∈ visited st → start ∈ visited st.
Proof.
  intros HI Hu. destruct (i_vis_fin _ _ _ _ HI _ Hu) as [c Hc].
  destruct (i_fin_start _ _ _ _ HI _ _ Hc) as [->|]; done.
Qed.

(** Nothing is left to examine: the expansion is over. *)
Lemma Inv_done u k st : Inv g start (Some (u, k, [])) st → Inv g start None st.
Proof.
  intros HI. destruct HI. constructor; try done.
  - intros u' nbrs v w Hu' Hn Hv.
    destruct (i_closed0 u' nbrs v w Hu' Hn Hv) as [?|(k' & todo & [= <- <- <-] & Hin)];
      [by left|]. inversion Hin.
  - intros Hnn u' nbrs v w cu Hu' Hn Hv Hcu.
    destruct (i_relaxed0 Hnn u' nbrs v w cu Hu' Hn Hv Hcu)
      as [?|(k' & todo & [= <- <- <-] & Hin)]; [by left|]. inversion Hin.
Qed.
(** The neighbour at the head of the list needs no update. *)
Lemma Inv_skip u k v w todo st :
  Inv g start (Some (u, k, (v, w) :: todo)) st →
  (∃ c, distances st !! v = Some (Finite c)) →
  (nonneg_weights g = true → ∃ c, distances st !! v = Some (Finite c) ∧ c ≤ k + w) →
  Inv g start (Some (u, k, todo)) st.
Proof.
  intros HI Hfin Hle.
  destruct (i_pend _ _ _ _ HI u k _ eq_refl) as (Hu & Hdu & nbrs & Hnbrs & Hsub).
  destruct HI. constructor; try done.
  - intros u' nbrs' v' w' Hu' Hn Hv'.
    destruct (i_closed0 u' nbrs' v' w' Hu' Hn Hv')
      as [?|(k' & todo' & [= <- <- <-] & Hin)]; [by left|].
    apply elem_of_cons in Hin as [[= -> ->]|Hin]; [by left|]. right. eauto.
  - intros u' k' todo' [= <- <- <-]. split_and!; [done..|].
    exists nbrs. split; [done|]. intros x Hx. apply Hsub. by right.
  - intros Hnn u' nbrs' v' w' cu Hu' Hn Hv' Hcu.
    destruct (i_relaxed0 Hnn u' nbrs' v' w' cu Hu' Hn Hv' Hcu)
      as [?|(k' & todo' & [= <- <- <-] & Hin)]; [by left|].
    apply elem_of_cons in Hin as [[= -> ->]|Hin]; [|right; eauto].
    left. assert (cu = k) as -> by congruence. auto.
Qed.

Lemma relax_Inv u k v w todo st st' :
  Inv g start (Some (u, k, (v, w) :: todo)) st →
  relax k u st (v, w) = Ok st' →
  Inv g start (Some (u, k, todo)) st'.
Proof.
  intros HI.
  destruct (i_pend _ _ _ _ HI u k _ eq_refl) as (Hu & Hdu & nbrs & Hnbrs & Hsub).
  assert (Hvn : (v, w) ∈ nbrs) by (apply Hsub; left).
  assert (Harc : arc g u v w) by (eapply arc_elem; eauto).
  assert (Hwu : walk g start u k) by (eapply i_sound; eauto).
  assert (Hwv : walk g start v (k + w)) by (econstructor; eauto).
  assert (Hsv : start ∈ visited st) by (eapply Inv_start_visited; eauto).
  unfold relax. destruct (decide (v ∈ visited st)) as [Hv|Hv].
  { intros [= <-]. destruct (i_vis_fin _ _ _ _ HI _ Hv) as [c Hc].
    apply (Inv_skip u k v w); [done|eauto|]. intros Hnn. exists c. split; [done|].
    eapply i_opt; eauto. }
  destruct (distances st !! v) as [dv|] eqn:Hdv; [|done].
  destruct (lt_dist (k + w) dv) eqn:Hlt.
  2:{ intros [= <-]. destruct dv as [c|]; [|done]. simpl in Hlt.
      apply (Inv_skip u k v w); [done|eauto|]. intros _. exists c. split; [done|lia]. }
  intros [= <-].
  assert (v ≠ start) as Hvs by (intros ->; done).
  assert (u ≠ v) as Huv by (intros ->; done).
  assert (is_Some (dict_get g v)) as Hvkey.
  { destruct (i_dom' _ _ _ _ HI v) as [?|?]; [by eexists|done..]. }
  destruct HI. constructor; simpl.
  - by rewrite lookup_insert_ne.
  - intros x Hx. rewrite lookup_insert_is_Some'. auto.
  - intros x. rewrite lookup_insert_is_Some'. intros [<-|?]; auto.
  - intros x. rewrite lookup_insert_is_Some'. split; [intros [<-|?]|]; [done| |].
    + by apply i_pdom0.
    + intros ?. right. by apply i_pdom0.
  - intros u'. by rewrite lookup_insert_ne.
  - auto.
  - intros x Hx. rewrite lookup_insert_ne; [auto|]. by intros ->.
  - intros x c. rewrite lookup_insert_Some. intros [[<- [= <-]]|[Hne Hx]].
    + right. apply elem_of_app. right. left.
    + destruct (i_fin_q0 x c Hx) as [?|?]; [by left|]. right.
      apply elem_of_app. by left.
  - intros k' x Hin. apply elem_of_app in Hin as [Hin|Hin].
    + destruct (i_q0 k' x Hin) as (c & Hc & Hle).
      destruct (decide (v = x)) as [<-|Hne].
      * rewrite lookup_insert_eq. eexists. split; [done|].
        rewrite Hdv in Hc. injection Hc as ->. simpl in Hlt. lia.
      * rewrite lookup_insert_ne by done. eauto.
    + apply list_elem_of_singleton in Hin as [= -> ->].
      rewrite lookup_insert_eq. eexists. split; [done|lia].
  - intros x c. rewrite lookup_insert_Some. intros [[<- [= <-]]|[Hne Hx]]; auto.
  - intros u' nbrs' v' w' Hu' Hn Hv'.
    destruct (i_closed0 u' nbrs' v' w' Hu' Hn Hv')
      as [[c Hc]|(k' & todo' & [= <- <- <-] & Hin)].
    + left. destruct (decide (v = v')) as [<-|Hne].
      * rewrite lookup_insert_eq. eauto.
      * rewrite lookup_insert_ne by done. eauto.
    + apply elem_of_cons in Hin as [[= -> ->]|Hin]; [|right; eauto].
      left. rewrite lookup_insert_eq. eauto.
  - intros u' k' todo' [= <- <- <-]. split_and!; [done|by rewrite lookup_insert_ne|].
    exists nbrs. split; [done|]. intros x Hx. apply Hsub. by right.
  - intros x u'. rewrite lookup_insert_Some. intros [[<- [= <-]]|[Hne Hx]].
    + split; [done|]. exists w, k. split; [done|].
      rewrite lookup_insert_ne by done. by rewrite lookup_insert_eq.
    + destruct (i_prev0 x u' Hx) as (Hu' & w' & cu & Ha & Hcu & Hcx).
      split; [done|]. exists w', cu. split; [done|].
      rewrite !lookup_insert_ne; [done..|]. by intros ->.
  - intros x. rewrite lookup_insert_Some. intros [[_ [=]]|[Hne Hx]].
    rewrite lookup_insert_ne by done. auto.
  - intros x c. rewrite lookup_insert_Some. intros [[<- _]|[Hne Hx]] Hxs.
    + rewrite lookup_insert_eq. eauto.
    + rewrite lookup_insert_ne by done. eauto.
  - intros x Hx. destruct (i_chain0 x Hx) as (p & Hp & Hnd & Hpv).
    exists p. split_and!; [|done..]. eapply chain_frozen; [done|].
    intros y Hy. rewrite lookup_insert_ne; [done|]. intros ->. auto.
  - intros Hnn x c c' Hx. rewrite lookup_insert_ne; [eauto|]. by intros ->.
  - intros Hnn u' nbrs' v' w' cu Hu' Hn Hv'.
    rewrite lookup_insert_ne by (by intros ->). intros Hcu.
    destruct (i_relaxed0 Hnn u' nbrs' v' w' cu Hu' Hn Hv' Hcu)
      as [(c & Hc & Hle)|(k' & todo' & [= <- <- <-] & Hin)].
    + left. destruct (decide (v = v')) as [<-|Hne].
      * rewrite lookup_insert_eq. eexists. split; [done|].
        rewrite Hdv in Hc. injection Hc as ->. simpl in Hlt. lia.
      * rewrite lookup_insert_ne by done. eauto.
    + apply elem_of_cons in Hin as [[= -> ->]|Hin]; [|right; eauto].
      left. rewrite lookup_insert_eq. eexists. split; [done|].
      assert (cu = k) as -> by congruence. lia.
Qed.
Lemma relax_all_Inv u k todo st st' :
  Inv g start (Some (u, k, todo)) st →
  for_each (relax k u) st todo = Ok st' →
  Inv g start None st'.
Proof.
  revert st. induction todo as [|[v w] todo IH]; intros st HI; simpl.
  - intros [= <-]. by eapply Inv_done.
  - intros H. apply bind_Ok in H as (st1 & H1 & H2).
    eapply IH; [|done]. by eapply relax_Inv.
Qed.

(** Every path from [start] either ends on a visited router or crosses an
    unvisited one whose recorded distance is no more than the path's cost. *)
Lemma frontier st x c' :
  nonneg_weights g = true → Inv g start None st → walk g start x c' →
  x ∈ visited st ∨
  ∃ y cy, (y ∉ visited st) ∧ distances st !! y = Some (Finite cy) ∧ cy ≤ c'.
Proof.
  intros Hnn HI. induction 1 as [|u v w c Hw IH Harc].
  - destruct (decide (start ∈ visited st)); [by left|]. right.
    exists start, 0. split_and!; [done|by apply (i_start _ _ _ _ HI)|lia].
  - pose proof (arc_nonneg _ _ _ _ Hnn Harc) as Hw0.
    destruct IH as [Hu|(y & cy & Hy & Hdy & Hle)].
    2:{ right. exists y, cy. split_and!; [done..|lia]. }
    destruct (decide (v ∈ visited st)) as [|Hv]; [by left|]. right.
    destruct (i_vis_fin _ _ _ _ HI _ Hu) as [cu Hcu].
    pose proof (i_opt _ _ _ _ HI Hnn _ _ _ Hu Hcu Hw) as Hopt.
    destruct Harc as (nbrs & Hn & Hvw). apply dict_get_elem in Hvw.
    destruct (i_relaxed _ _ _ _ HI Hnn _ _ _ _ _ Hu Hn Hvw Hcu)
      as [(cv & Hcv & Hle)|(? & ? & [=] & _)].
    exists v, cv. split_and!; [done..|lia].
Qed.

(** A router is popped for the first time. *)
Lemma visit_Inv k u rest st :
  Inv g start None st → heappop (priority_queue st) = Some ((k, u), rest) →
  u ∉ visited st →
  Inv g start (match dict_get g u with
       | Some nbrs => Some (u, k, nbrs)
       | None => None
       end)
      {| distances := distances st; previous := previous st;
         priority_queue := rest; visited := {[u]} ∪ visited st |}.
Proof.
  intros HI Hpop Hu.
  pose proof (heappop_perm _ _ _ Hpop) as Hperm.
  assert (∀ e, e ∈ priority_queue st ↔ e = (k, u) ∨ e ∈ rest) as Hq.
  { intros e. rewrite Hperm. apply elem_of_cons. }
  assert (distances st !! u = Some (Finite k)) as Hdu.
  { destruct (i_q _ _ _ _ HI k u) as (c & Hc & Hle); [apply Hq; by left|].
    destruct (i_fin_q _ _ _ _ HI _ _ Hc) as [?|Hin]; [done|].
    pose proof (heappop_least _ _ _ _ Hpop Hin) as Hle'. simpl in Hle'.
    rewrite Hc. do 2 f_equal. lia. }
  destruct HI. constructor; simpl; try done.
  - intros v c Hv. destruct (i_fin_start0 v c Hv); [by left|]. right. set_solver.
  - intros v Hv. apply elem_of_union in Hv as [Hv|Hv]; [|auto].
    apply elem_of_singleton in Hv as ->. eauto.
  - intros v c Hv. destruct (i_fin_q0 v c Hv) as [?|Hin]; [left; set_solver|].
    apply Hq in Hin as [[= -> ->]|?]; [left; set_solver|by right].
  - intros k' v Hin. apply i_q0, Hq. by right.
  - intros u' nbrs v w Hu' Hn Hv.
    apply elem_of_union in Hu' as [Hu'|Hu'].
    + apply elem_of_singleton in Hu' as ->. right. rewrite Hn. eauto.
    + destruct (i_closed0 u' nbrs v w Hu' Hn Hv) as [?|(? & ? & [=] & _)]. by left.
  - intros u' k' todo. destruct (dict_get g u) as [nbrs|] eqn:Hn; [|done].
    intros [= <- <- <-]. split_and!; [set_solver|done|]. by exists nbrs.
  - intros v u' Hv. destruct (i_prev0 v u' Hv) as [? ?]. split; [set_solver|done].
  - intros v Hv. apply elem_of_union in Hv as [Hv|Hv].
    + apply elem_of_singleton in Hv as ->.
      destruct (decide (u = start)) as [->|Hne].
      * exists [start]. split_and!; [constructor|apply NoDup_singleton|].
        intros x Hx. apply list_elem_of_singleton in Hx as ->. set_solver.
      * destruct (i_prev_fin0 u k Hdu Hne) as [u0 Hu0].
        destruct (i_prev0 u u0 Hu0) as [Hv0 _].
        destruct (i_chain0 u0 Hv0) as (p & Hp & Hnd & Hpv).
        exists (p ++ [u]). split_and!.
        -- by apply chain_step with u0.
        -- apply NoDup_app. split_and!; [done| |apply NoDup_singleton].
           intros x Hx Hxu. apply list_elem_of_singleton in Hxu as ->. auto.
        -- intros x Hx. apply elem_of_app in Hx as [Hx|Hx]; [set_solver|].
           apply list_elem_of_singleton in Hx as ->. set_solver.
    + destruct (i_chain0 v Hv) as (p & Hp & Hnd & Hpv).
      exists p. split_and!; [done..|]. set_solver.
  - intros Hnn v c c' Hv Hc Hw. apply elem_of_union in Hv as [Hv|Hv]; [|eauto].
    apply elem_of_singleton in Hv as ->.
    assert (c = k) as -> by congruence.
    assert (HI : Inv g start None st) by (constructor; done).
    destruct (frontier st u c' Hnn HI Hw) as [?|(y & cy & Hy & Hdy & Hle)]; [done|].
    destruct (i_fin_q0 y cy Hdy) as [?|Hin]; [done|].
    pose proof (heappop_least _ _ _ _ Hpop Hin) as Hle'. simpl in Hle'. lia.
  - intros Hnn u' nbrs v w cu Hu' Hn Hv Hcu.
    apply elem_of_union in Hu' as [Hu'|Hu'].
    + apply elem_of_singleton in Hu' as ->. right. rewrite Hn. eauto.
    + destruct (i_relaxed0 Hnn u' nbrs v w cu Hu' Hn Hv Hcu) as [?|(? & ? & [=] & _)].
      by left.
Qed.

(** An entry of a router that was visited already is dropped. *)
Lemma stale_Inv k u rest st :
  Inv g start None st → heappop (priority_queue st) = Some ((k, u), rest) →
  u ∈ visited st →
  Inv g start None {| distances := distances st; previous := previous st;
              priority_queue := rest; visited := visited st |}.
Proof.
  intros HI Hpop Hu.
  pose proof (heappop_perm _ _ _ Hpop) as Hperm.
  assert (∀ e, e ∈ priority_queue st ↔ e = (k, u) ∨ e ∈ rest) as Hq.
  { intros e. rewrite Hperm. apply elem_of_cons. }
  destruct HI. constructor; simpl; try done.
  - intros v c Hv. destruct (i_fin_q0 v c Hv) as [?|Hin]; [by left|].
    apply Hq in Hin as [[= -> ->]|?]; [by left|by right].
  - intros k' v Hin. apply i_q0, Hq. by right.
Qed.

Lemma loop_body_Inv popped rest st st' :
  Inv g start None st → heappop (priority_queue st) = Some (popped, rest) →
  loop_body (init g) popped rest st = Ok st' →
  Inv g start None st'.
Proof.
  intros HI Hpop. destruct popped as [k u]. unfold loop_body.
  destruct (decide (u ∈ visited st)) as [Hu|Hu].
  { intros [= <-]. by eapply stale_Inv. }
  pose proof (visit_Inv k u rest st HI Hpop Hu) as HI1. simpl.
  destruct (dict_get g u) as [nbrs|].
  - by apply relax_all_Inv.
  - by intros [= <-].
Qed.

Lemma main_loop_Inv fuel st st' :
  Inv g start None st → main_loop fuel (init g) st = Ok st' →
  Inv g start None st' ∧ priority_queue st' = [].
Proof.
  revert st. induction fuel as [|fuel IH]; intros st HI; simpl.
  - destruct (heappop (priority_queue st)) as [[popped rest]|] eqn:Hpop; [done|].
    intros [= <-]. split; [done|]. by apply heappop_None.
  - destruct (heappop (priority_queue st)) as [[popped rest]|] eqn:Hpop.
    + intros H. apply bind_Ok in H as (st1 & H1 & H2).
      apply (IH st1); [|done]. by eapply loop_body_Inv.
    + intros [= <-]. split; [done|]. by apply heappop_None.
Qed.
End invariant.

(** ** Termination of the main loop *)

Lemma unvisited_arcs_mono g (vis vis' : gset string) :
  vis ⊆ vis' → (unvisited_arcs g vis' ≤ unvisited_arcs g vis)%nat.
Proof.
  intros Hsub. induction g as [|[u nbrs] g IH]; simpl; [lia|].
  destruct (decide (u ∈ vis')), (decide (u ∈ vis)); try lia.
  exfalso. auto.
Qed.

Lemma unvisited_arcs_visit g (vis : gset string) u nbrs :
  dict_get g u = Some nbrs → u ∉ vis →
  (unvisited_arcs g ({[u]} ∪ vis) + length nbrs ≤ unvisited_arcs g vis)%nat.
Proof.
  intros Hu Hvis. induction g as [|[u' nbrs'] g IH]; simpl in *; [done|].
  destruct (String.eqb_spec u' u) as [->|Hne].
  - injection Hu as ->.
    rewrite decide_True by set_solver. rewrite decide_False by done.
    pose proof (unvisited_arcs_mono g vis ({[u]} ∪ vis) ltac:(set_solver)). lia.
  - specialize (IH Hu).
    destruct (decide (u' ∈ vis)).
    + rewrite decide_True by set_solver. done.
    + rewrite decide_False by set_solver. lia.
Qed.

Lemma unvisited_arcs_empty g : S (unvisited_arcs g ∅) = loop_bound g.
Proof.
  unfold loop_bound. f_equal.
Qed.

Lemma relax_shape k u st item st' :
  relax k u st item = Ok st' →
  visited st' = visited st ∧
  (length (priority_queue st') ≤ S (length (priority_queue st)))%nat.
Proof.
  unfold relax, heappush. destruct item as [v w].
  destruct (decide _); [intros [= <-]; split; [done|lia]|].
  destruct (distances st !! v); [|done].
  destruct (lt_dist _ _); intros [= <-]; simpl; split; try done; try lia.
  rewrite length_app. simpl. lia.
Qed.

Lemma relax_all_shape k u st todo st' :
  for_each (relax k u) st todo = Ok st' →
  visited st' = visited st ∧
  (length (priority_queue st') ≤ length (priority_queue st) + length todo)%nat.
Proof.
  revert st. induction todo as [|item todo IH]; intros st; simpl.
  - intros [= <-]. split; [done|lia].
  - intros H. apply bind_Ok in H as (st1 & H1 & H2).
    apply relax_shape in H1 as [Hv1 Hq1]. apply IH in H2 as [Hv2 Hq2].
    split; [congruence|lia].
Qed.

Lemma loop_body_work g popped rest st st' :
  heappop (priority_queue st) = Some (popped, rest) →
  loop_body (init g) popped rest st = Ok st' →
  (work_left g st' < work_left g st)%nat.
Proof.
  intros Hpop. apply heappop_perm, Permutation_length in Hpop. simpl in Hpop.
  unfold work_left, loop_body in *. destruct popped as [k u].
  destruct (decide (u ∈ visited st)) as [Hu|Hu].
  { intros [= <-]. simpl. lia. }
  simpl. destruct (dict_get g u) as [nbrs|] eqn:Hn.
  - intros H. apply relax_all_shape in H as [Hv Hq]. simpl in Hv, Hq. rewrite Hv.
    pose proof (unvisited_arcs_visit g (visited st) u nbrs Hn Hu). lia.
  - intros [= <-]. simpl.
    pose proof (unvisited_arcs_mono g (visited st) ({[u]} ∪ visited st)
                  ltac:(set_solver)). lia.
Qed.

Lemma relax_outcome k u st item :
  (∃ st', relax k u st item = Ok st') ∨
  relax k u st item = Raise (KeyError (fst item)).
Proof.
  unfold relax. destruct item as [v w]. destruct (decide _); [eauto|].
  destruct (distances st !! v); [|by right]. destruct (lt_dist _ _); eauto.
Qed.

Lemma relax_all_outcome k u st todo :
  (∃ st', for_each (relax k u) st todo = Ok st') ∨
  (∃ x, for_each (relax k u) st todo = Raise (KeyError x)).
Proof.
  revert st. induction todo as [|item todo IH]; intros st; cbn [for_each]; [eauto|].
  destruct (relax_outcome k u st item) as [[st1 ->]| ->]; simpl; eauto.
Qed.

Lemma loop_body_outcome g popped rest st :
  (∃ st', loop_body (init g) popped rest st = Ok st') ∨
  (∃ x, loop_body (init g) popped rest st = Raise (KeyError x)).
Proof.
  unfold loop_body. destruct popped as [k u]. destruct (decide _); [eauto|].
  cbn [graph init]. destruct (dict_get g u); [|eauto]. apply relax_all_outcome.
Qed.

(** With [work_left] units of fuel the loop is never cut short. *)
Lemma main_loop_fuel g fuel st :
  (work_left g st ≤ fuel)%nat → main_loop fuel (init g) st ≠ OutOfFuel.
Proof.
  revert st. induction fuel as [|fuel IH]; intros st Hle; cbn [main_loop].
  - destruct (heappop (priority_queue st)) as [[popped rest]|] eqn:Hpop; [|done].
    apply heappop_perm, Permutation_length in Hpop. unfold work_left in *.
    simpl in Hpop. lia.
  - destruct (heappop (priority_queue st)) as [[popped rest]|] eqn:Hpop; [|done].
    destruct (loop_body_outcome g popped rest st) as [[st1 Hbody]|[x Hbody]];
      rewrite Hbody; simpl; [|done].
    apply IH. apply loop_body_work in Hbody; [lia|done].
Qed.

(** The only exception of the main loop is a missing key of [distances]. *)
Lemma main_loop_raise g fuel st e :
  main_loop fuel (init g) st = Raise e → ∃ k, e = KeyError k.
Proof.
  revert st. induction fuel as [|fuel IH]; intros st; cbn [main_loop].
  - by destruct (heappop (priority_queue st)) as [[popped rest]|].
  - destruct (heappop (priority_queue st)) as [[popped rest]|]; [|done].
    destruct (loop_body_outcome g popped rest st) as [[st1 Hbody]|[x Hbody]];
      rewrite Hbody; simpl; [apply IH|].
    intros [= <-]. eauto.
Qed.

(** ** The state before and after the main loop *)

Lemma dict_comprehension_lookup {V} (x : V) (rs : list string) (k : string) :
  dict_comprehension x rs !! k = if decide (k ∈ rs) then Some x else None.
Proof.
  unfold dict_comprehension.
  assert (∀ m : gmap string V,
            foldl (λ m r, <[r := x]> m) m rs !! k
            = if decide (k ∈ rs) then Some x else m !! k) as H.
  { induction rs as [|r rs IH]; intros m; cbn [foldl].
    - by rewrite decide_False by apply not_elem_of_nil.
    - rewrite IH. destruct (decide (k ∈ rs)) as [Hin|Hin].
      + rewrite decide_True; [done|by right].
      + destruct (decide (r = k)) as [->|Hne].
        * rewrite lookup_insert_eq, decide_True; [done|left].
        * rewrite lookup_insert_ne, decide_False; [done| |done].
          intros [->|?]%elem_of_cons; done. }
  by rewrite H, lookup_empty.
Qed.

Section results.
Context (g : Graph) (start : string).
Hypothesis Hwf : graph_wf g = true.

Lemma initial_Inv : Inv g start None (initial_state (init g) start).
Proof.
  assert (∀ {V} (x : V) v,
            is_Some (dict_comprehension x (dict_keys g) !! v)
            ↔ is_Some (dict_get g v)) as Hkeys.
  { intros V x v. rewrite dict_comprehension_lookup, dict_get_is_Some.
    destruct (decide _); [split; eauto|split; [by intros [? ?]|done]]. }
  assert (∀ v c,
            <[start := Finite 0]> (dict_comprehension Infinity (dict_keys g)) !! v
            = Some (Finite c) → v = start ∧ c = 0) as Hfin.
  { intros v c. rewrite lookup_insert_Some.
    intros [[<- [= <-]]|[_ Hv]]; [done|].
    rewrite dict_comprehension_lookup in Hv. by destruct (decide _). }
  constructor; simpl.
  - apply lookup_insert_eq.
  - intros v Hv. rewrite lookup_insert_is_Some'. right. by apply Hkeys.
  - intros v. rewrite lookup_insert_is_Some'. intros [<-|Hv]; [by right|].
    left. by apply Hkeys in Hv.
  - intros v. apply Hkeys.
  - intros u. rewrite dict_comprehension_lookup. by destruct (decide _).
  - intros v c Hv. apply Hfin in Hv as [-> _]. by left.
  - intros v Hv. by apply not_elem_of_empty in Hv.
  - intros v c Hv. apply Hfin in Hv as [-> ->]. right. left.
  - intros k v Hin. apply list_elem_of_singleton in Hin as [= -> ->].
    rewrite lookup_insert_eq. eexists. split; [done|lia].
  - intros v c Hv. apply Hfin in Hv as [-> ->]. constructor.
  - intros u nbrs v w Hu. by apply not_elem_of_empty in Hu.
  - done.
  - intros v u. rewrite dict_comprehension_lookup. by destruct (decide _).
  - intros v. rewrite lookup_insert_Some. intros [[_ [=]]|[_ Hv]].
    rewrite dict_comprehension_lookup in Hv. rewrite dict_comprehension_lookup.
    by destruct (decide _).
  - intros v c Hv Hne. by apply Hfin in Hv as [-> _].
  - intros v Hv. by apply not_elem_of_empty in Hv.
  - intros _ v c c' Hv. by apply not_elem_of_empty in Hv.
  - intros _ u nbrs v w cu Hu. by apply not_elem_of_empty in Hu.
Qed.

Lemma initial_work : work_left g (initial_state (init g) start) = loop_bound g.
Proof. unfold work_left. simpl. apply unvisited_arcs_empty. Qed.

(** What [find_shortest_path] returns comes from a state that satisfies the
    invariant and has an empty queue. *)
Lemma find_shortest_path_Ok d p :
  find_shortest_path (init g) start = Ok (d, p) →
  ∃ st, Inv g start None st ∧ priority_queue st = [] ∧
        distances st = d ∧ previous st = p.
Proof.
  unfold find_shortest_path. intros H. apply bind_Ok in H as (st & Hloop & [= <- <-]).
  exists st. apply (main_loop_Inv g start Hwf) in Hloop as [? ?]; [done|].
  apply initial_Inv.
Qed.

(** [find_shortest_path] returns or raises [KeyError]. *)
Lemma find_shortest_path_outcome :
  (∃ d p, find_shortest_path (init g) start = Ok (d, p)) ∨
  (∃ k, find_shortest_path (init g) start = Raise (KeyError k)).
Proof.
  unfold find_shortest_path. cbn [graph init].
  destruct (main_loop _ _ _) as [st|e|] eqn:Hloop; simpl.
  - left. eauto.
  - right. apply main_loop_raise in Hloop as [k ->]. eauto.
  - exfalso. revert Hloop. apply main_loop_fuel. by rewrite initial_work.
Qed.

(** *** Neighbour-closed graphs: no lookup fails *)

Lemma relax_all_closed u k todo st :
  neighbor_closed g = true → Inv g start (Some (u, k, todo)) st →
  ∃ st', for_each (relax k u) st todo = Ok st'.
Proof.
  intros Hcl. revert st. induction todo as [|[v w] todo IH]; intros st HI;
    cbn [for_each]; [eauto|].
  assert (∃ st1, relax k u st (v, w) = Ok st1) as [st1 H1].
  { destruct (i_pend _ _ _ _ HI u k _ eq_refl) as (_ & _ & nbrs & Hn & Hsub).
    assert (is_Some (distances st !! v)) as [d Hd].
    { apply (i_dom _ _ _ _ HI). eapply closed_elem; [done..|]. apply Hsub. left. }
    unfold relax. destruct (decide _); [eauto|]. rewrite Hd.
    destruct (lt_dist _ _); eauto. }
  rewrite H1. simpl. apply IH. by eapply relax_Inv.
Qed.

Lemma loop_body_closed popped rest st :
  neighbor_closed g = true → Inv g start None st →
  heappop (priority_queue st) = Some (popped, rest) →
  ∃ st', loop_body (init g) popped rest st = Ok st'.
Proof.
  intros Hcl HI Hpop. destruct popped as [k u]. unfold loop_body.
  destruct (decide (u ∈ visited st)) as [Hu|Hu]; [eauto|].
  pose proof (visit_Inv g start Hwf k u rest st HI Hpop Hu) as HI1.
  cbn [graph init]. destruct (dict_get g u) as [nbrs|]; [|eauto].
  by eapply relax_all_closed.
Qed.

Lemma main_loop_closed fuel st :
  neighbor_closed g = true → Inv g start None st →
  (work_left g st ≤ fuel)%nat →
  ∃ st', main_loop fuel (init g) st = Ok st'.
Proof.
  intros Hcl. revert st. induction fuel as [|fuel IH]; intros st HI Hle;
    cbn [main_loop].
  - destruct (heappop (priority_queue st)) as [[popped rest]|] eqn:Hpop; [|eauto].
    apply heappop_perm, Permutation_length in Hpop. unfold work_left in *.
    simpl in Hpop. lia.
  - destruct (heappop (priority_queue st)) as [[popped rest]|] eqn:Hpop; [|eauto].
    destruct (loop_body_closed popped rest st Hcl HI Hpop) as [st1 Hbody].
    rewrite Hbody. simpl. apply IH.
    + by eapply loop_body_Inv.
    + apply loop_body_work in Hbody; [lia|done].
Qed.

Lemma find_shortest_path_closed :
  neighbor_closed g = true →
  ∃ d p, find_shortest_path (init g) start = Ok (d, p).
Proof.
  intros Hcl. unfold find_shortest_path.
  destruct (main_loop_closed (loop_bound g) (initial_state (init g) start) Hcl)
    as [st Hst]; [apply initial_Inv|by rewrite initial_work|].
  cbn [graph init]. rewrite Hst. simpl. eauto.
Qed.

(** *** The final state *)

Section final.
Context (st : state).
Hypothesis HI : Inv g start None st.
Hypothesis Hq : priority_queue st = [].

Lemma final_finite_visited v c :
  distances st !! v = Some (Finite c) → v ∈ visited st.
Proof.
  intros Hv. destruct (i_fin_q _ _ _ _ HI _ _ Hv) as [?|Hin]; [done|].
  rewrite Hq in Hin. inversion Hin.
Qed.

Lemma final_reachable_visited v : reachable g start v → v ∈ visited st.
Proof.
  intros [c Hw]. induction Hw as [|u v w c _ IH (nbrs & Hn & Hv)].
  - eapply final_finite_visited, (i_start _ _ _ _ HI).
  - apply dict_get_elem in Hv.
    destruct (i_closed _ _ _ _ HI _ _ _ _ IH Hn Hv) as [[c' Hc']|(? & ? & [=] & _)].
    by eapply final_finite_visited.
Qed.

Lemma final_visited_reachable v : v ∈ visited st → reachable g start v.
Proof.
  intros Hv. destruct (i_vis_fin _ _ _ _ HI _ Hv) as [c Hc].
  exists c. by eapply i_sound.
Qed.

Lemma final_unreachable v :
  is_Some (dict_get g v) → ¬ reachable g start v →
  distances st !! v = Some Infinity.
Proof.
  intros Hv Hnr. destruct (i_dom _ _ _ _ HI _ Hv) as [[c|] Hd]; [|done].
  exfalso. apply Hnr. exists c. by eapply i_sound.
Qed.

Lemma final_shortest v :
  nonneg_weights g = true → reachable g start v →
  ∃ c, distances st !! v = Some (Finite c) ∧ shortest g start v c.
Proof.
  intros Hnn Hv%final_reachable_visited.
  destruct (i_vis_fin _ _ _ _ HI _ Hv) as [c Hc]. exists c. split; [done|].
  split; [by eapply i_sound|]. intros c' Hw. by eapply (i_opt _ _ _ _ HI).
Qed.
End final.

(** *** Reconstructing a path from the final predecessors *)

Lemma path_cost_cons a b l :
  path_cost g (a :: b :: l)
  = match dict_get g a with
    | None => None
    | Some nbrs =>
        match dict_get nbrs b, path_cost g (b :: l) with
        | Some w, Some c => Some (w + c)
        | _, _ => None
        end
    end.
Proof. done. Qed.

Lemma path_cost_snoc p u v w c :
  path_cost g (p ++ [u]) = Some c → arc g u v w →
  path_cost g ((p ++ [u]) ++ [v]) = Some (c + w).
Proof.
  intros Hc (nbrs & Hn & Hv). revert c Hc.
  induction p as [|a p IH]; intros c.
  - simpl. intros [= <-]. rewrite Hn, Hv. f_equal. lia.
  - change ((a :: p) ++ [u]) with (a :: (p ++ [u])).
    destruct (p ++ [u]) as [|b q] eqn:Hq; [by destruct p|].
    change ((a :: b :: q) ++ [v]) with (a :: b :: (q ++ [v])).
    rewrite !path_cost_cons.
    destruct (dict_get g a) as [na|]; [|done].
    destruct (dict_get na b) as [wab|]; [|done].
    destruct (path_cost g (b :: q)) as [c'|] eqn:Hc'; [|done].
    intros [= <-]. change (b :: q ++ [v]) with ((b :: q) ++ [v]).
    rewrite (IH c' eq_refl). f_equal. lia.
Qed.

Lemma walk_back_None fuel prev path : walk_back fuel prev None path = Ok path.
Proof. by destruct fuel. Qed.

Lemma walk_back_chain prev v p fuel acc :
  chain prev start v p → prev !! start = Some None → (length p ≤ fuel)%nat →
  walk_back fuel prev (Some v) acc = Ok (p ++ acc).
Proof.
  intros Hch Hs. revert fuel acc.
  induction Hch as [|v u p Hv _ IH]; intros fuel acc Hlen.
  - destruct fuel as [|fuel]; [simpl in Hlen; lia|].
    cbn [walk_back]. by rewrite Hs, walk_back_None.
  - rewrite length_app in Hlen. destruct fuel as [|fuel]; [simpl in Hlen; lia|].
    cbn [walk_back]. rewrite Hv, IH by (simpl in Hlen; lia).
    by rewrite <- app_assoc.
Qed.

Lemma chain_length_le_size prev p v :
  chain prev start v p → NoDup p → (∀ x, x ∈ p → is_Some (prev !! x)) →
  (length p ≤ size prev)%nat.
Proof.
  intros _ Hnd Hsub.
  rewrite <- (size_dom (D := gset string)), <- (size_list_to_set (C := gset string) p Hnd).
  apply subseteq_size. intros x Hx%elem_of_list_to_set. by apply elem_of_dom, Hsub.
Qed.

Section final_paths.
Context (st : state).
Hypothesis HI : Inv g start None st.
Hypothesis Hq : priority_queue st = [].
Hypothesis Hstart : is_Some (dict_get g start).

Lemma final_previous_start : previous st !! start = Some None.
Proof.
  apply (i_pdom _ _ _ _ HI) in Hstart as [[u|] Hu]; [|done].
  by apply (i_pstart _ _ _ _ HI) in Hu.
Qed.

Lemma final_visited_key v : v ∈ visited st → is_Some (dict_get g v).
Proof.
  intros Hv. destruct (i_vis_fin _ _ _ _ HI _ Hv) as [c Hc].
  destruct (i_dom' _ _ _ _ HI v) as [?| ->]; eauto.
Qed.

Lemma final_chain_cost v p :
  chain (previous st) start v p →
  ∃ c, distances st !! v = Some (Finite c) ∧ path_cost g p = Some c.
Proof.
  induction 1 as [|v u p Hv Hch (c & Hc & Hp)].
  - exists 0. split; [apply (i_start _ _ _ _ HI)|done].
  - destruct (i_prev _ _ _ _ HI _ _ Hv) as (_ & w & cu & Harc & Hcu & Hcv).
    assert (cu = c) as -> by congruence.
    exists (c + w). split; [done|].
    destruct (chain_last _ _ _ _ Hch) as [p' ->]. by apply path_cost_snoc.
Qed.

(** A reachable destination: the path of its chain of predecessors. *)
Lemma final_reconstruct_reachable v :
  reachable g start v →
  ∃ p c, reconstruct_path (previous st) start v = Ok (Some p) ∧
         chain (previous st) start v p ∧
         path_cost g p = Some c ∧ distances st !! v = Some (Finite c).
Proof.
  intros Hv%(final_reachable_visited st HI Hq).
  destruct (i_chain _ _ _ _ HI _ Hv) as (p & Hch & Hnd & Hvis).
  destruct (final_chain_cost v p Hch) as (c & Hc & Hp).
  exists p, c. split_and!; [|done..].
  unfold reconstruct_path.
  rewrite (walk_back_chain _ v p); [|done|apply final_previous_start|].
  - simpl. rewrite app_nil_r. destruct (chain_first _ _ _ _ Hch) as [p' ->].
    by rewrite String.eqb_refl.
  - etrans; [eapply chain_length_le_size; [done..|]|lia].
    intros x Hx. by apply (i_pdom _ _ _ _ HI), final_visited_key, Hvis.
Qed.

(** An unreachable router: the walk stops on it at once. *)
Lemma final_reconstruct_unreachable v :
  is_Some (dict_get g v) → ¬ reachable g start v →
  reconstruct_path (previous st) start v = Ok None.
Proof.
  intros Hv Hnr.
  pose proof (final_unreachable st HI v Hv Hnr) as Hd.
  apply (i_prev_inf _ _ _ _ HI) in Hd. unfold reconstruct_path.
  cbn [walk_back]. rewrite Hd, walk_back_None. simpl. destruct (String.eqb_spec v start) as [->|]; [|done].
  exfalso. apply Hnr. exists 0. constructor.
Qed.

Lemma final_reconstruct_key v :
  is_Some (dict_get g v) →
  ∃ r, reconstruct_path (previous st) start v = Ok r.
Proof.
  intros Hv. destruct (decide (v ∈ visited st)) as [Hvis|Hvis].
  - apply (final_visited_reachable st HI) in Hvis.
    destruct (final_reconstruct_reachable v Hvis) as (p & c & -> & _). eauto.
  - rewrite final_reconstruct_unreachable; [eauto|done|].
    intros Hr. by apply Hvis, final_reachable_visited.
Qed.
End final_paths.
End results.

(** ** Paths as node sequences *)

Lemma path_cost_snoc_inv g p u v c :
  path_cost g ((p ++ [u]) ++ [v]) = Some c →
  ∃ c' w, path_cost g (p ++ [u]) = Some c' ∧ arc g u v w ∧ c = c' + w.
Proof.
  revert c. induction p as [|a p IH]; intros c.
  - simpl. destruct (dict_get g u) as [nbrs|] eqn:Hn; [|done].
    destruct (dict_get nbrs v) as [w|] eqn:Hv; [|done]. intros [= <-].
    exists 0, w. split_and!; [done|by exists nbrs|lia].
  - change ((a :: p) ++ [u]) with (a :: (p ++ [u])).
    destruct (p ++ [u]) as [|b q] eqn:Hq; [by destruct p|].
    change ((a :: b :: q) ++ [v]) with (a :: b :: (q ++ [v])).
    rewrite !path_cost_cons.
    destruct (dict_get g a) as [na|]; [|done].
    destruct (dict_get na b) as [wab|]; [|done].
    change (b :: q ++ [v]) with ((b :: q) ++ [v]).
    destruct (path_cost g ((b :: q) ++ [v])) as [c1|] eqn:Hc1; [|done].
    intros [= <-]. destruct (IH c1 eq_refl) as (c' & w & -> & Harc & ->).
    exists (wab + c'), w. split_and!; [done..|lia].
Qed.

(** The costs of the walks are the costs of the node sequences that go from
    [s] to [v] along arcs of the graph. *)
Lemma walk_path g s v c :
  walk g s v c ↔
  ∃ p, head p = Some s ∧ last p = Some v ∧ path_cost g p = Some c.
Proof.
  split.
  - induction 1 as [|u v w c _ (p & Hhd & Hlast & Hcost) Harc].
    + by exists [s].
    + apply last_Some in Hlast as [p' ->]. exists ((p' ++ [u]) ++ [v]).
      split_and!; [by destruct p'|apply last_snoc|by apply path_cost_snoc].
  - intros (p & Hhd & Hlast & Hcost). revert v c Hhd Hlast Hcost.
    induction p as [|x p IH] using rev_ind; intros v c Hhd Hlast Hcost; [done|].
    rewrite last_snoc in Hlast. injection Hlast as ->.
    destruct p as [|y p] using rev_ind.
    + simpl in *. injection Hhd as ->. injection Hcost as <-. constructor.
    + clear IHp. apply path_cost_snoc_inv in Hcost as (c' & w & Hc' & Harc & ->).
      apply walk_step with y; [|done]. apply IH; [|apply last_snoc|done].
      by destruct p.
Qed.

(** ** The claims on [find_shortest_path] and [reconstruct_path] *)

(** C1.  On a graph with non-negative weights and from a start node that is a
    key of the graph, the distances that [find_shortest_path] returns give
    every node reachable from the start its minimal path cost, and give
    [Infinity] to every node of the graph that is not reachable.  A call
    returns whenever every neighbour is a key of the graph. *)
Theorem find_shortest_path_correct (g : Graph) (start : string) :
  graph_wf g = true → nonneg_weights g = true → dict_mem g start = true →
  (neighbor_closed g = true →
   ∃ d p, find_shortest_path (init g) start = Ok (d, p)) ∧
  (∀ d p,
     find_shortest_path (init g) start = Ok (d, p) →
     (∀ v, reachable g start v →
           ∃ c, d !! v = Some (Finite c) ∧ shortest g start v c) ∧
     (∀ v, dict_mem g v = true → ¬ reachable g start v →
           d !! v = Some Infinity)).
Proof.
  intros Hwf Hnn Hstart. split; [by apply find_shortest_path_closed|].
  intros d p (st & HI & Hq & <- & <-)%find_shortest_path_Ok; [|done]. split.
  - intros v Hv. by eapply final_shortest.
  - intros v Hv%dict_mem_true Hnr. by eapply final_unreachable.
Qed.

Lemma find_shortest_path_correct_witness :
  (neighbor_closed test_graph = true →
   ∃ d p, find_shortest_path (init test_graph) "A" = Ok (d, p)) ∧
  (∀ d p,
     find_shortest_path (init test_graph) "A" = Ok (d, p) →
     (∀ v, reachable test_graph "A" v →
           ∃ c, d !! v = Some (Finite c) ∧ shortest test_graph "A" v c) ∧
     (∀ v, dict_mem test_graph v = true → ¬ reachable test_graph "A" v →
           d !! v = Some Infinity)).
Proof. apply (find_shortest_path_correct test_graph "A"); reflexivity. Defined.

(** C2.  For a destination reachable from the start, the path that
    [reconstruct_path] builds from the predecessors returned by
    [find_shortest_path] goes from the start to the destination, and its
    weight, summed hop by hop, is exactly the distance recorded for the
    destination.  (The weights need not be non-negative for this.) *)
Theorem reconstruct_path_cost (g : Graph) (start dest : string) :
  graph_wf g = true → dict_mem g start = true → reachable g start dest →
  (neighbor_closed g = true →
   ∃ d p, find_shortest_path (init g) start = Ok (d, p)) ∧
  (∀ d p,
     find_shortest_path (init g) start = Ok (d, p) →
     ∃ path c,
       reconstruct_path p start dest = Ok (Some path) ∧
       head path = Some start ∧ last path = Some dest ∧
       path_cost g path = Some c ∧ d !! dest = Some (Finite c)).
Proof.
  intros Hwf Hstart%dict_mem_true Hr. split; [by apply find_shortest_path_closed|].
  intros d p (st & HI & Hq & <- & <-)%find_shortest_path_Ok; [|done].
  destruct (final_reconstruct_reachable g start st HI Hq Hstart dest Hr)
    as (path & c & Hrec & Hch & Hcost & Hd).
  exists path, c. split_and!; [done| | |done..].
  - by destruct (chain_first _ _ _ _ Hch) as [p' ->].
  - destruct (chain_last _ _ _ _ Hch) as [p' ->]. apply last_snoc.
Qed.

Lemma reconstruct_path_cost_witness :
  (neighbor_closed test_graph = true →
   ∃ d p, find_shortest_path (init test_graph) "A" = Ok (d, p)) ∧
  (∀ d p,
     find_shortest_path (init test_graph) "A" = Ok (d, p) →
     ∃ path c,
       reconstruct_path p "A" "D" = Ok (Some path) ∧
       head path = Some "A" ∧ last path = Some "D" ∧
       path_cost test_graph path = Some c ∧ d !! "D" = Some (Finite c)).
Proof.
  apply (reconstruct_path_cost test_graph "A" "D"); [reflexivity..|].
  exists ((0 + 2) + 8). apply walk_step with "C"; [|by exists [("A", 2); ("B", 1); ("D", 8)]].
  apply walk_step with "A"; [constructor|by exists [("B", 4); ("C", 2)]].
Defined.

(** *** Missing keys *)

Section missing_keys.
Context (g : Graph) (start : string).
Hypothesis Hwf : graph_wf g = true.

(** A lookup [distances[neighbor]] fails only on a neighbour that is not a
    key of the graph. *)
Lemma relax_all_raise u k todo st e :
  Inv g start (Some (u, k, todo)) st →
  for_each (relax k u) st todo = Raise e →
  ∃ x, e = KeyError x ∧ dict_get g x = None.
Proof.
  revert st. induction todo as [|[v w] todo IH]; intros st HI; cbn [for_each]; [done|].
  destruct (relax k u st (v, w)) as [st1|e1|] eqn:H1; simpl.
  - apply IH. by eapply relax_Inv.
  - intros [= <-]. revert H1. unfold relax. destruct (decide _); [done|].
    destruct (distances st !! v) as [d|] eqn:Hd; [by destruct (lt_dist _ _)|].
    intros [= <-]. exists v. split; [done|].
    destruct (dict_get g v) eqn:Hv; [|done].
    destruct (i_dom _ _ _ _ HI v) as [? ?]; [by eexists|congruence].
  - done.
Qed.

Lemma main_loop_raise_key fuel st e :
  Inv g start None st → main_loop fuel (init g) st = Raise e →
  ∃ x, e = KeyError x ∧ dict_get g x = None.
Proof.
  revert st. induction fuel as [|fuel IH]; intros st HI; cbn [main_loop].
  - by destruct (heappop (priority_queue st)) as [[popped rest]|].
  - destruct (heappop (priority_queue st)) as [[[k u] rest]|] eqn:Hpop; [|done].
    destruct (loop_body (init g) (k, u) rest st) as [st1|e1|] eqn:Hbody; simpl.
    + apply IH. by eapply loop_body_Inv.
    + intros [= <-]. revert Hbody. unfold loop_body.
      destruct (decide (u ∈ visited st)) as [Hu|Hu]; [done|].
      pose proof (visit_Inv g start Hwf k u rest st HI Hpop Hu) as HI1.
      cbn [graph init]. destruct (dict_get g u) as [nbrs|]; [|done].
      by apply relax_all_raise.
    + done.
Qed.

(** An arc that leaves a reachable router for a node that is not a key makes
    the call fail. *)
Lemma find_shortest_path_dangling u v w :
  is_Some (dict_get g start) → reachable g start u → arc g u v w →
  dict_get g v = None →
  ∃ x, find_shortest_path (init g) start = Raise (KeyError x) ∧
       dict_get g x = None.
Proof.
  intros Hstart Hu Harc Hv.
  destruct (find_shortest_path (init g) start) as [[d p]|e|] eqn:Hfind.
  - exfalso. apply find_shortest_path_Ok in Hfind as (st & HI & Hq & _); [|done].
    apply (final_reachable_visited g start st HI Hq) in Hu.
    destruct Harc as (nbrs & Hn & Hvw%dict_get_elem).
    destruct (i_closed _ _ _ _ HI _ _ _ _ Hu Hn Hvw) as [[c Hc]|(? & ? & [=] & _)].
    destruct (i_dom' _ _ _ _ HI v) as [[? ?]| ->]; [by eexists|congruence|].
    destruct Hstart. congruence.
  - revert Hfind. unfold find_shortest_path.
    destruct (main_loop _ _ _) as [st|e1|] eqn:Hloop; simpl; [done| |done].
    intros [= <-]. apply main_loop_raise_key in Hloop as (x & -> & Hx); [eauto|].
    by apply initial_Inv.
  - exfalso. destruct (find_shortest_path_outcome g start) as [(? & ? & ?)|[? ?]];
      congruence.
Qed.
End missing_keys.

(** C9.  On a neighbour-closed graph, from a start node that is a key, every
    lookup of [find_shortest_path] finds its key: the call returns.  The lookup
    [distances[neighbor]] of a neighbour that is not a key of the graph fails;
    it is performed, and the call raises [KeyError], as soon as such an arc
    leaves a router reachable from the start. *)
Theorem find_shortest_path_lookups (g : Graph) (start : string) :
  graph_wf g = true → dict_mem g start = true →
  (neighbor_closed g = true →
   ∃ d p, find_shortest_path (init g) start = Ok (d, p)) ∧
  (∀ k u st neighbor cost,
     neighbor ∉ visited st → distances st !! neighbor = None →
     relax k u st (neighbor, cost) = Raise (KeyError neighbor)) ∧
  (∀ u neighbor cost,
     reachable g start u → arc g u neighbor cost → dict_mem g neighbor = false →
     ∃ x, find_shortest_path (init g) start = Raise (KeyError x) ∧
          dict_mem g x = false).
Proof.
  intros Hwf Hstart%dict_mem_true. split_and!.
  - by apply find_shortest_path_closed.
  - intros k u st v w Hv Hd. unfold relax. rewrite decide_False by done.
    by rewrite Hd.
  - intros u v w Hu Harc Hv.
    assert (∀ x, dict_mem g x = false ↔ dict_get g x = None) as Hmem.
    { intros x. unfold dict_mem. by destruct (dict_get g x). }
    destruct (find_shortest_path_dangling g start Hwf u v w) as (x & Hx & Hkey);
      [done..|by apply Hmem|].
    exists x. split; [done|by apply Hmem].
Qed.

Lemma find_shortest_path_lookups_witness :
  (neighbor_closed test_graph = true →
   ∃ d p, find_shortest_path (init test_graph) "A" = Ok (d, p)) ∧
  (∀ k u st neighbor cost,
     neighbor ∉ visited st → distances st !! neighbor = None →
     relax k u st (neighbor, cost) = Raise (KeyError neighbor)) ∧
  (∀ u neighbor cost,
     reachable test_graph "A" u → arc test_graph u neighbor cost →
     dict_mem test_graph neighbor = false →
     ∃ x, find_shortest_path (init test_graph) "A" = Raise (KeyError x) ∧
          dict_mem test_graph x = false).
Proof. apply (find_shortest_path_lookups test_graph "A"); reflexivity. Defined.

(** *** A start node that is not in the graph *)

Lemma find_shortest_path_absent_start (g : Graph) (start : string) :
  dict_mem g start = false →
  find_shortest_path (init g) start
  = Ok (<[start := Finite 0]> (dict_comprehension Infinity (dict_keys g)),
        dict_comprehension None (dict_keys g)).
Proof.
  intros Hs. unfold find_shortest_path, loop_bound. cbn [graph init main_loop].
  cbn [initial_state priority_queue heappop pop_min loop_body visited].
  rewrite decide_False by apply not_elem_of_empty. cbn [graph init].
  unfold dict_mem in Hs. destruct (dict_get g start); [done|]. simpl.
  by destruct (foldr _ _ _).
Qed.

Lemma reconstruct_path_absent_end (prev : gmap string (option string))
    (start dest : string) :
  prev !! dest = None → reconstruct_path prev start dest = Raise (KeyError dest).
Proof. intros H. unfold reconstruct_path. cbn [walk_back]. by rewrite H. Qed.

(** C3, as it is stated, fails: a source that is not in the topology is
    accepted, and comes back with distance zero. *)
Lemma absent_source_accepted :
  dict_mem test_graph "Z" = false ∧
  ∃ d p, find_shortest_path (init test_graph) "Z" = Ok (d, p) ∧
         d !! "Z" = Some (Finite 0).
Proof.
  split; [reflexivity|]. rewrite find_shortest_path_absent_start by reflexivity.
  do 2 eexists. split; [reflexivity|]. apply lookup_insert_eq.
Qed.

(** C3, amended.  A source that is not in the topology does not make
    [find_shortest_path] fail: the call returns the distances [Infinity] for
    every router and an added entry of distance zero for the source, and no
    predecessor.  A destination that is not in the topology is not a key of
    these predecessors, and [reconstruct_path] raises [KeyError] on a
    destination that is not a key of the predecessors it is given. *)
Theorem absent_nodes (g : Graph) :
  graph_wf g = true →
  (∀ start,
     dict_mem g start = false →
     find_shortest_path (init g) start
     = Ok (<[start := Finite 0]> (dict_comprehension Infinity (dict_keys g)),
           dict_comprehension None (dict_keys g))) ∧
  (∀ start dest d p,
     find_shortest_path (init g) start = Ok (d, p) →
     dict_mem g dest = false →
     reconstruct_path p start dest = Raise (KeyError dest)).
Proof.
  intros Hwf. split; [apply find_shortest_path_absent_start|].
  intros start dest d p (st & HI & _ & _ & <-)%find_shortest_path_Ok Hdest; [|done].
  apply reconstruct_path_absent_end.
  destruct (previous st !! dest) eqn:Hp; [|done].
  assert (is_Some (dict_get g dest)) as [? Hg].
  { apply (i_pdom _ _ _ _ HI). by eexists. }
  unfold dict_mem in Hdest. by rewrite Hg in Hdest.
Qed.

Lemma absent_nodes_witness :
  (∀ start,
     dict_mem test_graph start = false →
     find_shortest_path (init test_graph) start
     = Ok (<[start := Finite 0]>
             (dict_comprehension Infinity (dict_keys test_graph)),
           dict_comprehension None (dict_keys test_graph))) ∧
  (∀ start dest d p,
     find_shortest_path (init test_graph) start = Ok (d, p) →
     dict_mem test_graph dest = false →
     reconstruct_path p start dest = Raise (KeyError dest)).
Proof. apply (absent_nodes test_graph); reflexivity. Defined.

(** *** The scenario of [test_dijkstra] *)

(** C6.  On the topology of [test_dijkstra], from [A]: the distances are
    [A:0, B:3, C:2, D:8], and the path to [D] is [A, C, B, D], of cost 8. *)
Theorem test_dijkstra_scenario :
  ∃ d p,
    find_shortest_path (init test_graph) "A" = Ok (d, p) ∧
    d = list_to_map [("A", Finite 0); ("B", Finite 3); ("C", Finite 2);
                     ("D", Finite 8)] ∧
    reconstruct_path p "A" "D" = Ok (Some ["A"; "C"; "B"; "D"]) ∧
    path_cost test_graph ["A"; "C"; "B"; "D"] = Some 8.
Proof.
  destruct (find_shortest_path (init test_graph) "A") as [[d p]| |] eqn:H;
    [|vm_compute in H; discriminate..].
  exists d, p. split; [done|].
  vm_compute in H. injection H as <- <-. split_and!; by vm_compute.
Qed.

(** ** Dictionaries built in a loop *)

Lemma dict_get_set_eq {V} (d : dict V) k v : dict_get (dict_set d k v) k = Some v.
Proof.
  induction d as [|[k' v'] d IH]; simpl.
  - by rewrite String.eqb_refl.
  - destruct (String.eqb_spec k' k) as [->|Hne]; simpl.
    + by rewrite String.eqb_refl.
    + by destruct (String.eqb_spec k' k).
Qed.

Lemma dict_get_set_ne {V} (d : dict V) k k' v :
  k ≠ k' → dict_get (dict_set d k v) k' = dict_get d k'.
Proof.
  intros Hne. induction d as [|[k0 v0] d IH]; simpl.
  - by destruct (String.eqb_spec k k').
  - destruct (String.eqb_spec k0 k) as [->|Hne0]; simpl.
    + by destruct (String.eqb_spec k k').
    + by rewrite IH.
Qed.

Lemma dict_set_wf {V} (d : dict V) k v : dict_wf d = true → dict_wf (dict_set d k v) = true.
Proof.
  unfold dict_wf, dict_keys. rewrite !distinct_NoDup.
  induction d as [|[k' v'] d IH]; simpl; intros Hnd.
  - apply NoDup_singleton.
  - apply NoDup_cons in Hnd as [Hk' Hnd].
    destruct (String.eqb_spec k' k) as [->|Hne]; simpl; apply NoDup_cons; [done|].
    split; [|auto]. intros Hin. apply Hk'.
    change (k' ∈ dict_keys (dict_set d k v)) in Hin.
    apply dict_get_is_Some in Hin. rewrite dict_get_set_ne in Hin by done.
    by apply dict_get_is_Some in Hin.
Qed.

(** A loop that sets, or leaves alone, the entry of each key in turn: the
    entry of a key depends on that key only. *)
Lemma for_each_dict {V} (f : string → result (option V))
    (body : dict V → string → result (dict V)) :
  (∀ acc k,
     body acc k
     = (o ← f k; Ok (match o with Some v => dict_set acc k v | None => acc end))) →
  ∀ keys acc0 acc,
    for_each body acc0 keys = Ok acc →
    (∀ k, k ∈ keys →
          ∃ o, f k = Ok o ∧
               dict_get acc k
               = match o with Some v => Some v | None => dict_get acc0 k end) ∧
    (∀ k, k ∉ keys → dict_get acc k = dict_get acc0 k).
Proof.
  intros Hbody keys. induction keys as [|k0 keys IH]; intros acc0 acc; cbn [for_each].
  - intros [= <-]. split; [|done]. intros k Hk. inversion Hk.
  - intros H. apply bind_Ok in H as (acc1 & H1 & H2).
    rewrite Hbody in H1. apply bind_Ok in H1 as (o0 & Hf0 & [= <-]).
    destruct (IH _ _ H2) as [IHin IHout].
    assert (∀ k, k ≠ k0 →
              dict_get (match o0 with Some v => dict_set acc0 k0 v | None => acc0 end) k
              = dict_get acc0 k) as Hother.
    { intros k Hne. destruct o0; [|done]. by apply dict_get_set_ne. }
    split.
    + intros k Hk. destruct (decide (k ∈ keys)) as [Hin|Hnin].
      * destruct (IHin k Hin) as (o & Hf & Hget). exists o. split; [done|].
        rewrite Hget. destruct o as [v|]; [done|].
        destruct (decide (k = k0)) as [->|Hne]; [|by apply Hother].
        assert (o0 = None) as -> by congruence. done.
      * apply elem_of_cons in Hk as [->|?]; [|done].
        exists o0. split; [done|]. rewrite (IHout k0 Hnin).
        destruct o0; [apply dict_get_set_eq|done].
    + intros k Hk. apply not_elem_of_cons in Hk as [Hne Hnin].
      rewrite (IHout k Hnin). by apply Hother.
Qed.

(** ** [reconstruct_path] on any predecessors *)

Lemma walk_back_suffix fuel prev c acc path :
  walk_back fuel prev (Some c) acc = Ok path → ∃ pre, path = pre ++ c :: acc.
Proof.
  revert c acc. induction fuel as [|fuel IH]; intros c acc; cbn [walk_back]; [done|].
  destruct (prev !! c) as [[c'|]|]; [| |done].
  - intros (pre & ->)%IH. exists (pre ++ [c']). by rewrite <- app_assoc.
  - rewrite walk_back_None. intros [= <-]. by exists [].
Qed.

(** A path that [reconstruct_path] returns starts on the start node and ends
    on the destination. *)
Lemma reconstruct_path_ends prev start dest path :
  reconstruct_path prev start dest = Ok (Some path) →
  head path = Some start ∧ last path = Some dest.
Proof.
  unfold reconstruct_path. intros H. apply bind_Ok in H as (p & Hp & H).
  destruct p as [|first p]; [done|].
  destruct (String.eqb_spec first start) as [->|]; [|done]. injection H as <-.
  split; [done|]. apply walk_back_suffix in Hp as (pre & Hpre).
  rewrite Hpre. apply last_snoc.
Qed.

(** ** [calculate_all_paths] *)

Lemma calculate_all_paths_lookup self all_results :
  calculate_all_paths self = Ok all_results →
  (∀ router, router ∈ routers self →
             ∃ r, routes_from self router = Ok r ∧
                  dict_get all_results router = Some r) ∧
  (∀ router, router ∉ routers self → dict_get all_results router = None).
Proof.
  unfold calculate_all_paths. intros H.
  apply (for_each_dict (λ router, r ← routes_from self router; Ok (Some r))) in H.
  - destruct H as [Hin Hout]. split; [|done].
    intros router Hr. destruct (Hin router Hr) as (o & Ho & Hget).
    apply bind_Ok in Ho as (r & Hr' & [= <-]). eauto.
  - clear H. intros acc k. unfold routes_from.
    destruct (find_shortest_path self k) as [[d p]| |]; simpl; [|done..].
    by destruct (for_each _ _ _).
Qed.

Lemma routes_from_paths self router r :
  routes_from self router = Ok r →
  find_shortest_path self router = Ok (r_distances r, r_previous r) ∧
  (∀ dest, dest ∈ routers self → dest ≠ router →
           ∃ path, reconstruct_path (r_previous r) router dest = Ok path ∧
                   dict_get (r_paths r) dest = Some path) ∧
  (∀ dest path, dict_get (r_paths r) dest = Some path →
                dest ≠ router ∧
                reconstruct_path (r_previous r) router dest = Ok path).
Proof.
  unfold routes_from. intros H. apply bind_Ok in H as ([d p] & Hfind & H).
  apply bind_Ok in H as (paths & Hpaths & [= <-]). simpl.
  apply (for_each_dict
           (λ dest, if String.eqb dest router then Ok None
                    else path ← reconstruct_path p router dest; Ok (Some path)))
    in Hpaths.
  2:{ clear. intros acc k. destruct (String.eqb k router); [done|].
      by destruct (reconstruct_path p router k). }
  destruct Hpaths as [Hin Hout]. split_and!; [done| |].
  - intros dest Hd Hne. destruct (Hin dest Hd) as (o & Ho & Hget).
    destruct (String.eqb_spec dest router); [done|].
    apply bind_Ok in Ho as (path & Hpath & [= <-]). eauto.
  - intros dest path Hget. destruct (decide (dest ∈ routers self)) as [Hd|Hd].
    + destruct (Hin dest Hd) as (o & Ho & Hget').
      destruct (String.eqb_spec dest router) as [->|Hne].
      * injection Ho as <-. simpl in Hget'. congruence.
      * apply bind_Ok in Ho as (path' & Hpath & [= <-]). split; [done|congruence].
    + rewrite (Hout dest Hd) in Hget. done.
Qed.

Lemma for_each_Ok {A S} (body : S → A → result S) (l : list A) (s : S) :
  (∀ s x, x ∈ l → ∃ s', body s x = Ok s') → ∃ s', for_each body s l = Ok s'.
Proof.
  revert s. induction l as [|x l IH]; intros s Hbody; cbn [for_each]; [eauto|].
  destruct (Hbody s x) as [s1 ->]; [left|]. simpl.
  apply IH. intros s' y Hy. apply Hbody. by right.
Qed.

(** On a neighbour-closed graph [calculate_all_paths] returns. *)
Lemma calculate_all_paths_closed (g : Graph) :
  graph_wf g = true → neighbor_closed g = true →
  ∃ all_results, calculate_all_paths (init g) = Ok all_results.
Proof.
  intros Hwf Hcl. unfold calculate_all_paths. apply for_each_Ok.
  intros all_results router Hrouter%dict_get_is_Some.
  destruct (find_shortest_path_closed g router Hwf Hcl) as (d & p & Hfind).
  rewrite Hfind. simpl.
  apply find_shortest_path_Ok in Hfind as (st & HI & Hq & _ & <-); [|done].
  destruct (for_each_Ok
              (λ paths dest,
                 if String.eqb dest router then Ok paths
                 else path ← reconstruct_path (previous st) router dest;
                      Ok (dict_set paths dest path))
              (dict_keys g) []) as [paths ->]; [|simpl; eauto].
  intros paths dest Hdest%dict_get_is_Some.
  destruct (String.eqb dest router); [eauto|].
  destruct (final_reconstruct_key g router st HI Hq Hrouter dest Hdest) as [r ->].
  simpl. eauto.
Qed.

(** ** Python numbers: the model on known values *)

(** The largest integer that [float] converts, and the first that it refuses. *)
Example int_to_float_largest :
  int_to_float (float_overflow - 1) = Ok 0x1.fffffffffffffp+1023%float ∧
  binary_normalize prec emax float_overflow 0 false = S754_infinity false.
Proof. split; by vm_compute. Qed.

Example int_to_float_ties_to_even :
  int_to_float (2 ^ 53 + 1) = Ok 9007199254740992%float ∧
  int_to_float (2 ^ 53 + 3) = Ok 9007199254740996%float.
Proof. split; by vm_compute. Qed.

(** [round(2.675, 2) = 2.67], [round(0.125, 2) = 0.12], [round(0.375, 2) = 0.38]
    and [round(-0.001, 2) = -0.0]. *)
Example py_round_values :
  py_round 0x1.5666666666666p+1 2 = 0x1.55c28f5c28f5cp+1%float ∧
  py_round 0.125 2 = 0x1.eb851eb851eb8p-4%float ∧
  py_round 0.375 2 = 0x1.851eb851eb852p-2%float ∧
  py_round (-0x1.0624dd2f1a9fcp-10) 2 = (-0)%float.
Proof. split_and!; by vm_compute. Qed.

(** [min([10, 5.0, 5]) = 5.0]: the first of the least items. *)
Example py_min_first_least :
  py_min (PyInt 10) [PyFloat 5; PyInt 5] = PyFloat 5.
Proof. by vm_compute. Qed.

(** ** The graph of the costs *)

Lemma foldl_dict_set_wf {A V} (h : A → V) (k : A → string) (l : list A) (acc : dict V) :
  dict_wf acc = true →
  dict_wf (foldl (λ d a, dict_set d (k a) (h a)) acc l) = true.
Proof.
  revert acc. induction l as [|a l IH]; intros acc Hacc; simpl; [done|].
  by apply IH, dict_set_wf.
Qed.

Lemma foldl_dict_set_keys {A V} (h : A → V) (k : A → string) (l : list A)
    (acc : dict V) (x : string) :
  is_Some (dict_get (foldl (λ d a, dict_set d (k a) (h a)) acc l) x)
  ↔ is_Some (dict_get acc x) ∨ x ∈ map k l.
Proof.
  revert acc. induction l as [|a l IH]; intros acc; simpl.
  - split; [by left|]. intros [?|Hx]; [done|inversion Hx].
  - rewrite IH. destruct (decide (k a = x)) as [<-|Hne].
    + rewrite dict_get_set_eq. split; [intros _; right; left|eauto].
    + rewrite dict_get_set_ne by done. rewrite elem_of_cons. naive_solver.
Qed.

Lemma graph_wf_set (g : Graph) k (nbrs : dict Z) :
  graph_wf g = true → dict_wf nbrs = true → graph_wf (dict_set g k nbrs) = true.
Proof.
  unfold graph_wf. rewrite !andb_true_iff. intros [Hg Hall] Hn.
  split; [by apply dict_set_wf|]. clear Hg.
  induction g as [|[k' v'] g IH]; simpl in *.
  - by rewrite Hn.
  - apply andb_true_iff in Hall as [Hv' Hall].
    destruct (String.eqb k' k); simpl; rewrite ?Hn, ?Hv', ?Hall; auto.
Qed.

Lemma weights_graph_wf topology : graph_wf (weights_graph topology) = true.
Proof.
  unfold weights_graph. generalize ([] : Graph) (eq_refl : graph_wf [] = true).
  induction topology as [|e topology IH]; intros acc Hacc; simpl; [done|].
  apply IH, graph_wf_set; [done|].
  by apply (foldl_dict_set_wf (λ a : string * attrs, get_cost (snd a) 64) fst).
Qed.

Lemma weights_graph_keys topology x :
  is_Some (dict_get (weights_graph topology) x) ↔ is_Some (dict_get topology x).
Proof.
  unfold weights_graph.
  rewrite (foldl_dict_set_keys
             (λ e : string * dict attrs,
                foldl (λ (inner : dict Z) (a : string * attrs),
                         dict_set inner (fst a) (get_cost (snd a) 64)) [] (snd e))
             fst).
  rewrite (dict_get_is_Some topology). unfold dict_keys. simpl.
  split; [intros [[? [=]]|?]; done|by right].
Qed.

Lemma weights_graph_routers topology x :
  x ∈ routers (init (weights_graph topology)) ↔ x ∈ dict_keys topology.
Proof. simpl. by rewrite <- !dict_get_is_Some, weights_graph_keys. Qed.

(** ** The metrics of a path *)

Lemma hop_loop_fields topology packet_size_bytes l acc0 acc :
  for_each (hop_body topology packet_size_bytes) acc0 l = Ok acc →
  link_costs acc
  = link_costs acc0
    ++ map (λ ab, get_cost (hop_attrs topology (fst ab) (snd ab)) 64) l ∧
  path_bandwidths acc
  = path_bandwidths acc0
    ++ map (λ ab, get_bandwidth_mbps (hop_attrs topology (fst ab) (snd ab))
                    (PyInt 1000)) l.
Proof.
  revert acc0. induction l as [|ab l IH]; intros acc0; cbn [for_each].
  - intros [= <-]. by rewrite !app_nil_r.
  - intros H. apply bind_Ok in H as (acc1 & H1 & H2).
    unfold hop_body in H1. apply bind_Ok in H1 as (p & _ & H1).
    apply bind_Ok in H1 as (t & _ & [= <-]).
    apply IH in H2 as [-> ->]. simpl. by rewrite <- !app_assoc.
Qed.

Lemma consecutive_length path : length (consecutive path) = pred (length path).
Proof.
  unfold consecutive. rewrite length_zip.
  destruct path as [|a path]; cbn [tail length]; lia.
Qed.

Lemma path_metrics_fields topology packet_size_bytes path m :
  path_metrics topology packet_size_bytes path = Ok m →
  path_list m = path ∧
  hops m = Z.max (Z.of_nat (length path) - 1) 0 ∧
  ospf_cost m
  = foldl Z.add 0
      (map (λ ab, get_cost (hop_attrs topology (fst ab) (snd ab)) 64)
         (consecutive path)) ∧
  path_bandwidths_mbps m
  = map (λ ab, get_bandwidth_mbps (hop_attrs topology (fst ab) (snd ab))
                 (PyInt 1000)) (consecutive path).
Proof.
  unfold path_metrics. intros H. apply bind_Ok in H as (acc & Hacc & H).
  apply bind_Ok in H as (pr & _ & H). apply bind_Ok in H as (qu & _ & H).
  apply bind_Ok in H as (th & _ & [= <-]). simpl.
  apply hop_loop_fields in Hacc as [-> ->]. done.
Qed.

Lemma pair_body_entry topology all_routes packet_size_bytes src row dst :
  pair_body topology all_routes packet_size_bytes src row dst
  = (o ← pair_entry topology all_routes packet_size_bytes src dst;
     Ok (match o with Some m => dict_set row dst m | None => row end)).
Proof.
  unfold pair_body, pair_entry. destruct (String.eqb src dst); [done|].
  destruct (dict_item all_routes src) as [r| |]; simpl; [|done..].
  destruct (dict_get (r_paths r) dst) as [[[|first rest]|]|]; try done.
  by destruct (path_metrics _ _ _).
Qed.

(** What [calculate_network_metrics] returns, entry by entry. *)
Lemma calculate_network_metrics_lookup topology packet_size_bytes metrics :
  calculate_network_metrics topology packet_size_bytes = Ok metrics →
  ∃ all_routes,
    calculate_all_paths (init (weights_graph topology)) = Ok all_routes ∧
    (∀ src, src ∈ dict_keys topology →
       ∃ row, dict_get metrics src = Some row ∧
         (∀ dst, dst ∈ dict_keys topology →
            ∃ o, pair_entry topology all_routes packet_size_bytes src dst = Ok o ∧
                 dict_get row dst = o) ∧
         (∀ dst, dst ∉ dict_keys topology → dict_get row dst = None)) ∧
    (∀ src, src ∉ dict_keys topology → dict_get metrics src = None).
Proof.
  unfold calculate_network_metrics. intros H.
  apply bind_Ok in H as (all_routes & Hall & H). exists all_routes. split; [done|].
  apply (for_each_dict
           (λ src, row ← for_each
                           (pair_body topology all_routes packet_size_bytes src)
                           [] (dict_keys topology);
                   Ok (Some row))) in H.
  2:{ clear. intros acc k. by destruct (for_each _ _ _). }
  destruct H as [Hin Hout]. split; [|done].
  intros src Hsrc. destruct (Hin src Hsrc) as (o & Ho & Hget).
  apply bind_Ok in Ho as (row & Hrow & [= <-]). exists row. split; [done|].
  apply (for_each_dict (pair_entry topology all_routes packet_size_bytes src)) in Hrow.
  2:{ clear. intros acc k. apply pair_body_entry. }
  destruct Hrow as [Hrin Hrout]. split; [|done].
  intros dst Hdst. destruct (Hrin dst Hdst) as (o & Ho & Hgetr).
  exists o. split; [done|]. rewrite Hgetr. by destruct o.
Qed.

(** ** The claims on [calculate_network_metrics] *)

Lemma island_unreachable : ¬ reachable (weights_graph island_topology) "A" "C".
Proof.
  intros [c Hw].
  assert (∀ v c, walk (weights_graph island_topology) "A" v c → v = "A" ∨ v = "B")
    as Hclosed.
  { clear. intros v c. induction 1 as [|u v w c _ [-> | ->] (nbrs & Hn & Hv)]; [by left|..].
    - vm_compute in Hn. injection Hn as <-. cbn [dict_get] in Hv.
      destruct (String.eqb_spec "B" v) as [<-|]; [by right|done].
    - vm_compute in Hn. injection Hn as <-. cbn [dict_get] in Hv.
      destruct (String.eqb_spec "A" v) as [<-|]; [by left|done]. }
  by destruct (Hclosed _ _ Hw).
Qed.

(** C4, as it is stated, fails: the pair of a source and an unreachable
    destination has no entry at all in the metrics. *)
Lemma unreachable_pair_has_no_entry :
  "A" ≠ "C" ∧ ¬ reachable (weights_graph island_topology) "A" "C" ∧
  ∃ metrics row,
    calculate_network_metrics island_topology DEFAULT_PACKET_SIZE_BYTES = Ok metrics ∧
    dict_get metrics "A" = Some row ∧ dict_get row "C" = None.
Proof.
  split; [done|]. split; [apply island_unreachable|].
  vm_compute. do 2 eexists. split_and!; reflexivity.
Qed.

Section unreachable_pair.
Context (topology : Topology) (packet_size_bytes : Z) (src dst : string).
Hypothesis Hsrc : dict_mem topology src = true.
Hypothesis Hdst : dict_mem topology dst = true.
Hypothesis Hne : src ≠ dst.
Hypothesis Hunreachable : ¬ reachable (weights_graph topology) src dst.

Lemma unreachable_pair_entry all_routes :
  calculate_all_paths (init (weights_graph topology)) = Ok all_routes →
  pair_entry topology all_routes packet_size_bytes src dst = Ok None.
Proof.
  intros Hall. apply calculate_all_paths_lookup in Hall as [Hall _].
  apply dict_mem_true in Hsrc, Hdst.
  destruct (Hall src) as (r & Hr & Hget).
  { by apply weights_graph_routers, dict_get_is_Some. }
  apply routes_from_paths in Hr as (Hfind & Hpaths & _).
  destruct (Hpaths dst) as (path & Hpath & Hgetp); [|done|].
  { by apply weights_graph_routers, dict_get_is_Some. }
  apply find_shortest_path_Ok in Hfind as (st & HI & _ & _ & Hprev);
    [|apply weights_graph_wf].
  rewrite <- Hprev in Hpath.
  rewrite (final_reconstruct_unreachable _ _ st HI) in Hpath;
    [|by apply weights_graph_keys|done].
  injection Hpath as <-. unfold pair_entry, dict_item.
  destruct (String.eqb_spec src dst); [done|]. rewrite Hget. simpl. by rewrite Hgetp.
Qed.
End unreachable_pair.

(** C4, amended.  For a source and a destination of the topology, the
    destination being unreachable from the source: the routes are computed
    without an exception when every neighbour is a node of the topology; the
    iteration of [calculate_network_metrics] for this pair then raises nothing
    and leaves the row of the source as it is; and in the metrics that a call
    returns the row of the source has no entry for the destination.  The pair
    is omitted; there is no "unreachable" marker. *)
Theorem unreachable_pair_omitted (topology : Topology) (packet_size_bytes : Z)
    (src dst : string) :
  dict_mem topology src = true → dict_mem topology dst = true → src ≠ dst →
  ¬ reachable (weights_graph topology) src dst →
  (neighbor_closed (weights_graph topology) = true →
   ∃ all_routes,
     calculate_all_paths (init (weights_graph topology)) = Ok all_routes) ∧
  (∀ all_routes row,
     calculate_all_paths (init (weights_graph topology)) = Ok all_routes →
     pair_body topology all_routes packet_size_bytes src row dst = Ok row) ∧
  (∀ metrics,
     calculate_network_metrics topology packet_size_bytes = Ok metrics →
     ∃ row, dict_get metrics src = Some row ∧ dict_get row dst = None).
Proof.
  intros Hsrc Hdst Hne Hnr. split_and!.
  - apply calculate_all_paths_closed, weights_graph_wf.
  - intros all_routes row Hall. rewrite pair_body_entry.
    by rewrite (unreachable_pair_entry topology packet_size_bytes src dst).
  - intros metrics (all_routes & Hall & Hin & _)%calculate_network_metrics_lookup.
    destruct (Hin src) as (row & Hrow & Hentries & _).
    { by apply dict_get_is_Some, dict_mem_true. }
    exists row. split; [done|].
    destruct (Hentries dst) as (o & Ho & ->).
    { by apply dict_get_is_Some, dict_mem_true. }
    rewrite (unreachable_pair_entry topology packet_size_bytes src dst) in Ho by done.
    by injection Ho as <-.
Qed.

Lemma unreachable_pair_omitted_witness :
  (neighbor_closed (weights_graph island_topology) = true →
   ∃ all_routes,
     calculate_all_paths (init (weights_graph island_topology)) = Ok all_routes) ∧
  (∀ all_routes row,
     calculate_all_paths (init (weights_graph island_topology)) = Ok all_routes →
     pair_body island_topology all_routes DEFAULT_PACKET_SIZE_BYTES "A" row "C"
     = Ok row) ∧
  (∀ metrics,
     calculate_network_metrics island_topology DEFAULT_PACKET_SIZE_BYTES = Ok metrics →
     ∃ row, dict_get metrics "A" = Some row ∧ dict_get row "C" = None).
Proof.
  apply (unreachable_pair_omitted island_topology DEFAULT_PACKET_SIZE_BYTES "A" "C");
    [reflexivity|reflexivity|discriminate|apply island_unreachable].
Defined.

(** ** The attributes of a hop *)

Lemma get_arc_present topology a b at_ :
  topology_wf topology = true →
  get_arc topology a b = Some at_ ↔ present topology a b at_.
Proof.
  unfold topology_wf. rewrite andb_true_iff, forallb_forall. intros [Hwf Hall].
  unfold get_arc, present. split.
  - destruct (dict_get topology a) as [nbrs|] eqn:Ha; [|done].
    intros Hb. exists nbrs. split; by apply dict_get_elem.
  - intros (nbrs & Ha & Hb). rewrite (dict_elem_get _ _ _ Hwf Ha).
    apply dict_elem_get; [|done]. apply (Hall (a, nbrs)). by apply list_elem_of_In.
Qed.

Lemma get_arc_absent topology a b :
  topology_wf topology = true → get_arc topology a b = None → absent topology a b.
Proof.
  intros Hwf Hnone at_ Hp. apply get_arc_present in Hp; [congruence|done].
Qed.

Lemma present_attrs_wf topology a b at_ :
  attributes_wf topology = true → present topology a b at_ → attrs_wf at_ = true.
Proof.
  unfold attributes_wf. rewrite forallb_forall. intros Hall (nbrs & Ha & Hb).
  apply list_elem_of_In in Ha. apply Hall in Ha. cbn [snd] in Ha.
  rewrite forallb_forall in Ha. apply list_elem_of_In in Hb. by apply Ha in Hb.
Qed.

Lemma attr_name_elem (x : attr) (at_ : attrs) :
  x ∈ at_ → attr_name x ∈ map attr_name at_.
Proof. intros Hx. by apply list_elem_of_In, in_map, list_elem_of_In. Qed.

Lemma get_cost_elem at_ d x :
  attrs_wf at_ = true → cost x ∈ at_ → get_cost at_ d = x.
Proof.
  unfold attrs_wf. rewrite distinct_NoDup.
  induction at_ as [|y at_ IH]; intros Hnd Hin; [by inversion Hin|].
  cbn [map] in Hnd. apply NoDup_cons in Hnd as [Hy Hnd].
  apply elem_of_cons in Hin as [<-|Hin]; [done|].
  destruct y as [c| |]; cbn [get_cost]; [|by apply IH..].
  exfalso. apply Hy. by apply (attr_name_elem (cost x)).
Qed.

Lemma get_cost_absent at_ d : (∀ x, cost x ∉ at_) → get_cost at_ d = d.
Proof.
  induction at_ as [|y at_ IH]; intros Hno; [done|].
  assert (∀ x, cost x ∉ at_) as Hno' by (intros x Hx; apply (Hno x); by right).
  destruct y as [c| |]; cbn [get_cost]; [|by apply IH..].
  exfalso. apply (Hno c). left.
Qed.

Lemma get_distance_km_elem at_ d x :
  attrs_wf at_ = true → distance_km x ∈ at_ → get_distance_km at_ d = x.
Proof.
  unfold attrs_wf. rewrite distinct_NoDup.
  induction at_ as [|y at_ IH]; intros Hnd Hin; [by inversion Hin|].
  cbn [map] in Hnd. apply NoDup_cons in Hnd as [Hy Hnd].
  apply elem_of_cons in Hin as [<-|Hin]; [done|].
  destruct y as [|c|]; cbn [get_distance_km]; [by apply IH| |by apply IH].
  exfalso. apply Hy. by apply (attr_name_elem (distance_km x)).
Qed.

Lemma get_distance_km_absent at_ d :
  (∀ x, distance_km x ∉ at_) → get_distance_km at_ d = d.
Proof.
  induction at_ as [|y at_ IH]; intros Hno; [done|].
  assert (∀ x, distance_km x ∉ at_) as Hno'
    by (intros x Hx; apply (Hno x); by right).
  destruct y as [|c|]; cbn [get_distance_km]; [by apply IH| |by apply IH].
  exfalso. apply (Hno c). left.
Qed.

Lemma get_bandwidth_mbps_elem at_ d x :
  attrs_wf at_ = true → bandwidth_mbps x ∈ at_ → get_bandwidth_mbps at_ d = x.
Proof.
  unfold attrs_wf. rewrite distinct_NoDup.
  induction at_ as [|y at_ IH]; intros Hnd Hin; [by inversion Hin|].
  cbn [map] in Hnd. apply NoDup_cons in Hnd as [Hy Hnd].
  apply elem_of_cons in Hin as [<-|Hin]; [done|].
  destruct y as [| |c]; cbn [get_bandwidth_mbps]; [by apply IH..|].
  exfalso. apply Hy. by apply (attr_name_elem (bandwidth_mbps x)).
Qed.

Lemma get_bandwidth_mbps_absent at_ d :
  (∀ x, bandwidth_mbps x ∉ at_) → get_bandwidth_mbps at_ d = d.
Proof.
  induction at_ as [|y at_ IH]; intros Hno; [done|].
  assert (∀ x, bandwidth_mbps x ∉ at_) as Hno'
    by (intros x Hx; apply (Hno x); by right).
  destruct y as [| |c]; cbn [get_bandwidth_mbps]; [by apply IH..|].
  exfalso. apply (Hno c). left.
Qed.

Lemma resolves_resolved at_ : attrs_wf at_ = true → resolves at_ (resolved at_).
Proof.
  intros Hwf. unfold resolves, resolved. cbn [fst snd]. split_and!.
  - intros x Hx. by apply get_cost_elem.
  - apply get_cost_absent.
  - intros x Hx. by apply get_distance_km_elem.
  - apply get_distance_km_absent.
  - intros x Hx. by apply get_bandwidth_mbps_elem.
  - apply get_bandwidth_mbps_absent.
Qed.

(** The attributes in use for a hop are those that the chain selects; for a
    reverse arc that is an empty dictionary the code takes the default
    dictionary, which resolves to the same values. *)
Lemma hop_chain topology a b :
  topology_wf topology = true → attributes_wf topology = true →
  ∃ at_, chain_selects topology a b at_ ∧
         resolves at_ (resolved (hop_attrs topology a b)).
Proof.
  intros Hwf Hat. unfold hop_attrs.
  destruct (get_arc topology a b) as [forward|] eqn:Hf.
  - apply get_arc_present in Hf; [|done]. exists forward.
    split; [by constructor|]. apply resolves_resolved. by eapply present_attrs_wf.
  - pose proof (get_arc_absent _ _ _ Hwf Hf) as Habs. cbn [truthy].
    destruct (get_arc topology b a) as [[|x l]|] eqn:Hr.
    + apply get_arc_present in Hr; [|done]. exists [].
      split; [by apply select_reverse|].
      unfold resolves. split_and!; first [done | intros y Hy; inversion Hy].
    + apply get_arc_present in Hr; [|done]. exists (x :: l).
      split; [by apply select_reverse|].
      apply resolves_resolved. by eapply present_attrs_wf.
    + exists default_attrs.
      split; [apply select_default; [done|by apply get_arc_absent]|].
      by apply resolves_resolved.
Qed.

Lemma hop_body_step topology packet_size_bytes acc a b :
  hop_body topology packet_size_bytes acc (a, b)
  = hop_step (resolved (hop_attrs topology a b)) packet_size_bytes acc.
Proof. unfold hop_body, hop_step, resolved. done. Qed.

Lemma hop_loop_steps topology packet_size_bytes l acc0 :
  for_each (hop_body topology packet_size_bytes) acc0 l
  = for_each (λ acc r, hop_step r packet_size_bytes acc) acc0
      (map (λ ab, resolved (hop_attrs topology (fst ab) (snd ab))) l).
Proof.
  revert acc0. induction l as [|[a b] l IH]; intros acc0; cbn [for_each map];
    [done|].
  rewrite hop_body_step. cbn [fst snd].
  destruct (hop_step _ _ _) as [acc1| |]; simpl; [apply IH|done..].
Qed.

Lemma path_metrics_delay topology packet_size_bytes path m :
  path_metrics topology packet_size_bytes path = Ok m →
  ∃ acc, for_each (hop_body topology packet_size_bytes) no_hops (consecutive path)
         = Ok acc ∧
         ospf_cost m = foldl Z.add 0 (link_costs acc) ∧
         path_bandwidths_mbps m = path_bandwidths acc ∧
         propagation_ms (delay m) = py_round (prop_ms acc) 4 ∧
         transmission_ms (delay m) = py_round (trans_ms acc) 4.
Proof.
  unfold path_metrics. intros H. apply bind_Ok in H as (acc & Hacc & H).
  apply bind_Ok in H as (pr & _ & H). apply bind_Ok in H as (qu & _ & H).
  apply bind_Ok in H as (th & _ & [= <-]). by exists acc.
Qed.

(** An entry of the metrics comes from a run of [find_shortest_path] on the
    graph of the costs and from the path reconstructed for its pair. *)
Lemma metrics_entry_route topology packet_size_bytes metrics src dst row m :
  calculate_network_metrics topology packet_size_bytes = Ok metrics →
  dict_get metrics src = Some row → dict_get row dst = Some m →
  src ≠ dst ∧ is_Some (dict_get topology src) ∧ is_Some (dict_get topology dst) ∧
  ∃ st, Inv (weights_graph topology) src None st ∧ priority_queue st = [] ∧
        find_shortest_path (init (weights_graph topology)) src
        = Ok (distances st, previous st) ∧
        reconstruct_path (previous st) src dst = Ok (Some (path_list m)) ∧
        path_metrics topology packet_size_bytes (path_list m) = Ok m.
Proof.
  intros (all_routes & Hall & Hin & Hout)%calculate_network_metrics_lookup Hrow Hm.
  destruct (decide (src ∈ dict_keys topology)) as [Hsrc|Hsrc];
    [|by rewrite (Hout src Hsrc) in Hrow].
  destruct (Hin src Hsrc) as (row' & Hrow' & Hentries & Hnone).
  assert (row' = row) as -> by congruence.
  destruct (decide (dst ∈ dict_keys topology)) as [Hdst|Hdst];
    [|by rewrite (Hnone dst Hdst) in Hm].
  destruct (Hentries dst Hdst) as (o & Ho & Hget).
  assert (o = Some m) as -> by congruence.
  unfold pair_entry, dict_item in Ho.
  destruct (String.eqb_spec src dst) as [|Hne]; [done|].
  destruct (dict_get all_routes src) as [r|] eqn:Hr; [|done]. simpl in Ho.
  destruct (dict_get (r_paths r) dst) as [[[|first rest]|]|] eqn:Hpath; try done.
  apply bind_Ok in Ho as (m' & Hmetrics & [= ->]).
  pose proof (path_metrics_fields _ _ _ _ Hmetrics) as (Hlist & _).
  apply calculate_all_paths_lookup in Hall as [Hallin Hallout].
  destruct (decide (src ∈ routers (init (weights_graph topology)))) as [Hrs|Hrs];
    [|by rewrite (Hallout src Hrs) in Hr].
  destruct (Hallin src Hrs) as (r' & Hfrom & Hr').
  assert (r' = r) as -> by congruence.
  apply routes_from_paths in Hfrom as (Hfind & _ & Hrec).
  destruct (Hrec dst _ Hpath) as [_ Hrecd].
  destruct (find_shortest_path_Ok _ _ (weights_graph_wf topology) _ _ Hfind)
    as (st & HI & Hq & Hd & Hp).
  split_and!; [done|by apply dict_get_is_Some..|].
  exists st. rewrite Hd, Hp, Hlist. by split_and!.
Qed.

(** C5.  On a topology that is a dictionary of dictionaries of attribute
    dictionaries, for every pair [(a, b)] the body of the loop over the hops
    works on the cost, the distance and the bandwidth of the attributes that
    the fallback chain selects among the entries of the topology: those of
    [topology[a][b]] if it is present, otherwise those of [topology[b][a]] if
    it is present, otherwise 64, 50 and 1000, which are also the defaults of a
    key that the selected attributes miss.  Every entry of the metrics that
    [calculate_network_metrics] returns is computed from the values so
    resolved for the consecutive pairs of its path: its cost is their sum of
    costs, its bandwidths are theirs, and its propagation and transmission
    delays are the rounded sums of their delays.  On a topology with the one
    arc from A to B, of cost 5, 7 km and 9 Mbps, the hop from A to B and the
    hop from B to A both take 5, 7 and 9, and the hop from A to C takes 64, 50
    and 1000; with another arc from B to A, of cost 6, 8 km and 10 Mbps, the
    entry from A to B has the cost 5 and the bandwidth 9, and the entry from B
    to A the cost 6 and the bandwidth 10. *)
Theorem hop_attrs_fallback :
  (∀ topology : Topology,
     topology_wf topology = true → attributes_wf topology = true →
     (∀ a b, ∃ at_ r,
        chain_selects topology a b at_ ∧ resolves at_ r ∧
        ∀ packet_size_bytes acc,
          hop_body topology packet_size_bytes acc (a, b)
          = hop_step r packet_size_bytes acc) ∧
     (∀ packet_size_bytes metrics src dst row m,
        calculate_network_metrics topology packet_size_bytes = Ok metrics →
        dict_get metrics src = Some row → dict_get row dst = Some m →
        ∃ hops acc,
          Forall2 (λ ab r, ∃ at_, chain_selects topology (fst ab) (snd ab) at_ ∧
                                  resolves at_ r)
            (consecutive (path_list m)) hops ∧
          for_each (λ acc r, hop_step r packet_size_bytes acc) no_hops hops
          = Ok acc ∧
          ospf_cost m = foldl Z.add 0 (map (λ r, fst (fst r)) hops) ∧
          path_bandwidths_mbps m = map snd hops ∧
          propagation_ms (delay m) = py_round (prop_ms acc) 4 ∧
          transmission_ms (delay m) = py_round (trans_ms acc) 4)) ∧
  (∃ forward reverse default,
     hop_body one_way_topology 1500 no_hops ("A", "B") = Ok forward ∧
     hop_body one_way_topology 1500 no_hops ("B", "A") = Ok reverse ∧
     hop_body one_way_topology 1500 no_hops ("A", "C") = Ok default ∧
     link_costs forward = [5] ∧ path_bandwidths forward = [PyInt 9] ∧
     prop_ms forward = 0x1.1eb851eb851ebp-5%float ∧
     trans_ms forward = 0x1.5555555555555p+0%float ∧
     reverse = forward ∧
     link_costs default = [64] ∧ path_bandwidths default = [PyInt 1000] ∧
     prop_ms default = 0x1p-2%float ∧
     trans_ms default = 0x1.89374bc6a7efap-7%float) ∧
  (∃ metrics row_a row_b ab ba,
     calculate_network_metrics asymmetric_topology 1500 = Ok metrics ∧
     dict_get metrics "A" = Some row_a ∧ dict_get row_a "B" = Some ab ∧
     dict_get metrics "B" = Some row_b ∧ dict_get row_b "A" = Some ba ∧
     ospf_cost ab = 5 ∧ path_bandwidths_mbps ab = [PyInt 9] ∧
     ospf_cost ba = 6 ∧ path_bandwidths_mbps ba = [PyInt 10]).
Proof.
  split_and!.
  - intros topology Hwf Hat. split.
    + intros a b. destruct (hop_chain topology a b Hwf Hat) as (at_ & Hsel & Hres).
      exists at_, (resolved (hop_attrs topology a b)). split_and!; [done..|].
      intros packet_size_bytes acc. apply hop_body_step.
    + intros packet_size_bytes metrics src dst row m Hmetrics Hrow Hm.
      destruct (metrics_entry_route _ _ _ _ _ _ _ Hmetrics Hrow Hm)
        as (_ & _ & _ & st & _ & _ & _ & _ & Hpm).
      destruct (path_metrics_delay _ _ _ _ Hpm)
        as (acc & Hacc & Hcost & Hbw & Hprop & Htrans).
      pose proof (hop_loop_fields _ _ _ _ _ Hacc) as [Hlc Hpb].
      rewrite hop_loop_steps in Hacc.
      exists (map (λ ab, resolved (hop_attrs topology (fst ab) (snd ab)))
                (consecutive (path_list m))), acc.
      split_and!; [|done| | |done..].
      * apply Forall2_fmap_r, Forall_Forall2_diag, Forall_forall.
        intros [a b] _. by apply hop_chain.
      * rewrite Hcost, Hlc. cbn [link_costs no_hops app]. by rewrite map_map.
      * rewrite Hbw, Hpb. cbn [path_bandwidths no_hops app]. by rewrite map_map.
  - vm_compute. do 3 eexists. split_and!; reflexivity.
  - vm_compute. do 5 eexists. split_and!; reflexivity.
Qed.

Lemma hop_attrs_fallback_witness :
  (∀ a b, ∃ at_ r,
     chain_selects asymmetric_topology a b at_ ∧ resolves at_ r ∧
     ∀ packet_size_bytes acc,
       hop_body asymmetric_topology packet_size_bytes acc (a, b)
       = hop_step r packet_size_bytes acc) ∧
  (∀ packet_size_bytes metrics src dst row m,
     calculate_network_metrics asymmetric_topology packet_size_bytes = Ok metrics →
     dict_get metrics src = Some row → dict_get row dst = Some m →
     ∃ hops acc,
       Forall2 (λ ab r, ∃ at_, chain_selects asymmetric_topology (fst ab) (snd ab) at_ ∧
                               resolves at_ r)
         (consecutive (path_list m)) hops ∧
       for_each (λ acc r, hop_step r packet_size_bytes acc) no_hops hops
       = Ok acc ∧
       ospf_cost m = foldl Z.add 0 (map (λ r, fst (fst r)) hops) ∧
       path_bandwidths_mbps m = map snd hops ∧
       propagation_ms (delay m) = py_round (prop_ms acc) 4 ∧
       transmission_ms (delay m) = py_round (trans_ms acc) 4).
Proof.
  exact (proj1 hop_attrs_fallback asymmetric_topology eq_refl eq_refl).
Defined.



(** C10.  An entry [metrics[src][dst]] that [calculate_network_metrics]
    produces is for two different nodes; its path is not empty, starts on
    [src] and ends on [dst]; its number of hops is the length of the path
    less one, and it lists one bandwidth per hop. *)
Theorem metrics_entry_shape (topology : Topology) (packet_size_bytes : Z)
    (metrics : dict (dict RouteMetrics)) (src dst : string)
    (row : dict RouteMetrics) (m : RouteMetrics) :
  calculate_network_metrics topology packet_size_bytes = Ok metrics →
  dict_get metrics src = Some row → dict_get row dst = Some m →
  src ≠ dst ∧
  path_list m ≠ [] ∧
  head (path_list m) = Some src ∧ last (path_list m) = Some dst ∧
  hops m = Z.of_nat (length (path_list m)) - 1 ∧
  Z.of_nat (length (path_bandwidths_mbps m)) = hops m.
Proof.
  intros (all_routes & Hall & Hin & Hout)%calculate_network_metrics_lookup Hrow Hm.
  destruct (decide (src ∈ dict_keys topology)) as [Hsrc|Hsrc];
    [|by rewrite (Hout src Hsrc) in Hrow].
  destruct (Hin src Hsrc) as (row' & Hrow' & Hentries & Hnone).
  assert (row' = row) as -> by congruence.
  destruct (decide (dst ∈ dict_keys topology)) as [Hdst|Hdst];
    [|by rewrite (Hnone dst Hdst) in Hm].
  destruct (Hentries dst Hdst) as (o & Ho & Hget).
  assert (o = Some m) as -> by congruence.
  unfold pair_entry, dict_item in Ho.
  destruct (String.eqb_spec src dst) as [|Hne]; [done|].
  destruct (dict_get all_routes src) as [r|] eqn:Hr; [|done]. simpl in Ho.
  destruct (dict_get (r_paths r) dst) as [[[|first rest]|]|] eqn:Hpath; try done.
  apply bind_Ok in Ho as (m' & Hmetrics & [= ->]).
  apply path_metrics_fields in Hmetrics as (Hlist & Hhops & _ & Hbw).
  apply calculate_all_paths_lookup in Hall as [Hallin Hallout].
  destruct (decide (src ∈ routers (init (weights_graph topology)))) as [Hrs|Hrs];
    [|by rewrite (Hallout src Hrs) in Hr].
  destruct (Hallin src Hrs) as (r' & Hfrom & Hr').
  assert (r' = r) as -> by congruence.
  apply routes_from_paths in Hfrom as (_ & _ & Hrec).
  destruct (Hrec dst _ Hpath) as [_ [Hhead Hlast]%reconstruct_path_ends].
  rewrite Hlist, Hhops, Hbw, length_map, consecutive_length. simpl length.
  split_and!; [done..|lia|lia].
Qed.

Lemma metrics_entry_shape_witness :
  ∃ metrics row m,
    calculate_network_metrics island_topology DEFAULT_PACKET_SIZE_BYTES = Ok metrics ∧
    dict_get metrics "A" = Some row ∧ dict_get row "B" = Some m ∧
    ("A" ≠ "B" ∧
     path_list m ≠ [] ∧
     head (path_list m) = Some "A" ∧ last (path_list m) = Some "B" ∧
     hops m = Z.of_nat (length (path_list m)) - 1 ∧
     Z.of_nat (length (path_bandwidths_mbps m)) = hops m).
Proof.
  assert (∃ metrics row m,
            calculate_network_metrics island_topology DEFAULT_PACKET_SIZE_BYTES
            = Ok metrics ∧
            dict_get metrics "A" = Some row ∧ dict_get row "B" = Some m)
    as (metrics & row & m & H1 & H2 & H3).
  { vm_compute. do 3 eexists. split_and!; reflexivity. }
  exists metrics, row, m. do 3 (split; [assumption|]).
  exact (metrics_entry_shape _ _ _ _ _ _ _ H1 H2 H3).
Defined.

(** ** Two calls of [calculate_all_paths] *)

Lemma method_for_each_run {A S} (body : S → A → method S)
    (pure : S → A → result S) (self : DijkstraAlgorithm) (l : list A) :
  (∀ s x, body s x self = (pure s x, self)) →
  ∀ s, method_for_each body s l self = (for_each pure s l, self).
Proof.
  intros Hbody. induction l as [|x l IH]; intros s;
    cbn [method_for_each for_each]; [done|].
  unfold mbind, method_mbind, method_bind, result_mbind, result_bind.
  rewrite Hbody. destruct (pure s x); [apply IH|done..].
Qed.

Lemma init_method_run g self : init_method g self = (Ok tt, init g).
Proof. done. Qed.

Lemma loop_body_method_run popped rest st self :
  loop_body_method popped rest st self = (loop_body self popped rest st, self).
Proof.
  destruct popped as [current_distance current_router].
  unfold loop_body_method, loop_body.
  destruct (decide (current_router ∈ visited st)); [done|].
  unfold mbind, method_mbind, method_bind, get_graph, local, dict_mem, dict_item.
  change (@dict_get (list (string * Z))) with (@dict_get (dict Z)).
  destruct (dict_get (graph self) current_router) eqn:Hg; cbv beta iota;
    [by rewrite Hg|done].
Qed.

Lemma main_loop_method_run fuel st self :
  main_loop_method fuel st self = (main_loop fuel self st, self).
Proof.
  revert st. induction fuel as [|fuel IH]; intros st;
    cbn [main_loop_method main_loop];
    destruct (heappop (priority_queue st)) as [[popped rest]|]; try done.
  unfold mbind, method_mbind, method_bind, result_mbind, result_bind.
  rewrite loop_body_method_run.
  destruct (loop_body self popped rest st); [apply IH|done..].
Qed.

Lemma find_shortest_path_method_run start self :
  find_shortest_path_method start self = (find_shortest_path self start, self).
Proof.
  unfold find_shortest_path_method, find_shortest_path, initial_state.
  unfold mbind, method_mbind, method_bind, result_mbind, result_bind, get_routers,
    get_graph.
  rewrite main_loop_method_run. by destruct (main_loop _ _ _).
Qed.

(** A call of [calculate_all_paths] returns what the function of the instance
    gives, and leaves the instance as it was. *)
Lemma calculate_all_paths_method_run self :
  calculate_all_paths_method self = (calculate_all_paths self, self).
Proof.
  unfold calculate_all_paths_method, calculate_all_paths.
  unfold mbind at 1, method_mbind, method_bind, get_routers.
  apply method_for_each_run. intros all_results router.
  unfold mbind, method_mbind, method_bind, result_mbind, result_bind.
  rewrite find_shortest_path_method_run.
  destruct (find_shortest_path self router) as [[d p]| |]; [|done..].
  cbn [fst snd].
  rewrite (method_for_each_run _
             (λ paths dest,
                if String.eqb dest router then Ok paths
                else match reconstruct_path p router dest with
                     | Ok path => Ok (dict_set paths dest path)
                     | Raise e => Raise e
                     | OutOfFuel => OutOfFuel
                     end)).
  - by destruct (for_each _ _ _).
  - intros paths dest. destruct (String.eqb dest router); [done|].
    unfold reconstruct_path_method, local.
    by destruct (reconstruct_path p router dest).
Qed.

(** C8.  A call of [calculate_all_paths] leaves the fields of the instance as
    they were, so that a second call on the same instance runs on the same
    graph and the same routers: when the first call returns, the second one
    returns the same results, hence the same distance and the same path cost
    for every pair; when the first call raises, so does the sequence.  On the
    instance of the test graph both calls return, with the distance 8 and a
    path of cost 8 from A to D. *)
Theorem calculate_all_paths_twice (self : DijkstraAlgorithm) :
  snd (calculate_all_paths_method self) = self ∧
  snd (call_twice self) = self ∧
  (∀ first,
     fst (calculate_all_paths_method self) = Ok first →
     fst (call_twice self) = Ok (first, first)) ∧
  (∀ e,
     fst (calculate_all_paths_method self) = Raise e →
     fst (call_twice self) = Raise e) ∧
  (∀ first second,
     fst (call_twice self) = Ok (first, second) →
     ∀ src dst,
       distance_in first src dst = distance_in second src dst ∧
       path_cost_in (graph self) first src dst
       = path_cost_in (graph self) second src dst) ∧
  (∃ first second,
     fst (call_twice (init test_graph)) = Ok (first, second) ∧
     distance_in first "A" "D" = Some (Finite 8) ∧
     distance_in second "A" "D" = Some (Finite 8) ∧
     path_cost_in test_graph first "A" "D" = Some 8 ∧
     path_cost_in test_graph second "A" "D" = Some 8).
Proof.
  assert (∀ self, call_twice self
                  = (match calculate_all_paths self with
                     | Ok first => Ok (first, first)
                     | Raise e => Raise e
                     | OutOfFuel => OutOfFuel
                     end, self)) as Htwice.
  { intros self'. unfold call_twice, mbind, method_mbind, method_bind.
    rewrite calculate_all_paths_method_run.
    destruct (calculate_all_paths self') eqn:Hcall; [|done..].
    by rewrite calculate_all_paths_method_run, Hcall. }
  rewrite !Htwice, calculate_all_paths_method_run. cbn [fst snd].
  split_and!; [done|done|by intros first ->|by intros e ->| |].
  - intros first second H.
    destruct (calculate_all_paths self); [|done..]. by injection H as <- <-.
  - vm_compute. do 2 eexists. split_and!; reflexivity.
Qed.

(* ===================================================================== *)
(** * Further properties of the code *)

(** ** [find_shortest_path]: what a caller can rely on *)

(** Runs on concrete graphs, checked by evaluation. *)
Lemma run_distance g a b c :
  distance_is g a b c = true →
  ∃ d p, find_shortest_path (init g) a = Ok (d, p) ∧ d !! b = Some (Finite c).
Proof.
  unfold distance_is.
  destruct (find_shortest_path (init g) a) as [[d p]| |]; [|done..]. cbn [fst].
  destruct (d !! b) as [[c'|]|] eqn:Hb; [|done..]. intros ->%Z.eqb_eq. eauto.
Qed.

Lemma run_path g a b :
  path_found g a b = true →
  ∃ d p path, find_shortest_path (init g) a = Ok (d, p) ∧
              reconstruct_path p a b = Ok (Some path).
Proof.
  unfold path_found.
  destruct (find_shortest_path (init g) a) as [[d p]| |]; [|done..]. cbn [snd].
  destruct (reconstruct_path p a b) as [[path|]| |] eqn:Hrec; [|done..]. eauto.
Qed.

Lemma test_graph_path : path_found test_graph "A" "D" = true.
Proof. by vm_compute. Qed.

Lemma test_graph_A_C : distance_is test_graph "A" "C" 2 = true.
Proof. by vm_compute. Qed.

Lemma test_graph_C_D : distance_is test_graph "C" "D" 6 = true.
Proof. by vm_compute. Qed.

Lemma network_R0_R3 : distance_is NETWORK_TOPOLOGY "R0" "R3" 256 = true.
Proof. by vm_compute. Qed.

(** The run on the topology of [test_dijkstra], for the examples below. *)
Lemma test_graph_run :
  ∃ d p, find_shortest_path (init test_graph) "A" = Ok (d, p).
Proof. apply find_shortest_path_closed; reflexivity. Qed.

(** X1.  Whatever the graph and the weights, negative ones included, and
    whether the start node is a node of the graph or not: in the distances
    that [find_shortest_path] returns the start node is at distance 0. *)
Theorem start_distance_zero (g : Graph) (start : string)
    (d : gmap string dist) (p : gmap string (option string)) :
  graph_wf g = true →
  find_shortest_path (init g) start = Ok (d, p) →
  d !! start = Some (Finite 0).
Proof.
  intros Hwf (st & HI & _ & <- & _)%find_shortest_path_Ok; [|done].
  apply (i_start _ _ _ _ HI).
Qed.

Lemma start_distance_zero_witness :
  ∃ d p, find_shortest_path (init test_graph) "A" = Ok (d, p) ∧
         d !! "A" = Some (Finite 0).
Proof.
  destruct test_graph_run as (d & p & H). exists d, p. split; [exact H|].
  exact (start_distance_zero test_graph "A" d p eq_refl H).
Defined.

(** X2.  The dictionaries that [find_shortest_path] returns have the nodes of
    the graph as keys, and [distances] has the start node besides: a caller
    may index [distances] and [previous] by any node of the graph, and by no
    other name but, for [distances], the start. *)
Theorem returned_keys (g : Graph) (start : string)
    (d : gmap string dist) (p : gmap string (option string)) :
  graph_wf g = true →
  find_shortest_path (init g) start = Ok (d, p) →
  ∀ v, (is_Some (d !! v) ↔ dict_mem g v = true ∨ v = start) ∧
       (is_Some (p !! v) ↔ dict_mem g v = true).
Proof.
  intros Hwf (st & HI & _ & <- & <-)%find_shortest_path_Ok v; [|done].
  rewrite dict_mem_true. split; [split|apply (i_pdom _ _ _ _ HI)].
  - apply (i_dom' _ _ _ _ HI).
  - intros [Hv| ->]; [by apply (i_dom _ _ _ _ HI)|].
    rewrite (i_start _ _ _ _ HI). by eexists.
Qed.

Lemma returned_keys_witness :
  ∃ d p, find_shortest_path (init test_graph) "A" = Ok (d, p) ∧
    ∀ v, (is_Some (d !! v) ↔ dict_mem test_graph v = true ∨ v = "A") ∧
         (is_Some (p !! v) ↔ dict_mem test_graph v = true).
Proof.
  destruct test_graph_run as (d & p & H). exists d, p. split; [exact H|].
  exact (returned_keys test_graph "A" d p eq_refl H).
Defined.

(** X3.  The predecessors form a tree of the distances: a predecessor [u] of
    [v] has an arc to [v], and the distance of [v] is that of [u] plus the
    weight of this arc; the start node has no predecessor; and any other node
    of the graph has no predecessor exactly when its distance is infinite.
    The weights may be negative. *)
Theorem predecessor_tree (g : Graph) (start : string)
    (d : gmap string dist) (p : gmap string (option string)) :
  graph_wf g = true → dict_mem g start = true →
  find_shortest_path (init g) start = Ok (d, p) →
  p !! start = Some None ∧
  (∀ v u, p !! v = Some (Some u) →
          ∃ w cu, arc g u v w ∧ d !! u = Some (Finite cu) ∧
                  d !! v = Some (Finite (cu + w))) ∧
  (∀ v, v ≠ start → (p !! v = Some None ↔ d !! v = Some Infinity)).
Proof.
  intros Hwf Hstart%dict_mem_true (st & HI & Hq & <- & <-)%find_shortest_path_Ok;
    [|done].
  split_and!.
  - by apply (final_previous_start g start st).
  - intros v u Hv. by destruct (i_prev _ _ _ _ HI _ _ Hv) as [_ ?].
  - intros v Hne. split; [|apply (i_prev_inf _ _ _ _ HI)].
    intros Hp.
    assert (is_Some (distances st !! v)) as [[c|] Hd]; [|exfalso|done].
    { apply (i_dom _ _ _ _ HI), (i_pdom _ _ _ _ HI). by eexists. }
    destruct (i_prev_fin _ _ _ _ HI _ _ Hd Hne) as [u Hu]. congruence.
Qed.

Lemma predecessor_tree_witness :
  ∃ d p, find_shortest_path (init test_graph) "A" = Ok (d, p) ∧
    (p !! "A" = Some None ∧
     (∀ v u, p !! v = Some (Some u) →
             ∃ w cu, arc test_graph u v w ∧ d !! u = Some (Finite cu) ∧
                     d !! v = Some (Finite (cu + w))) ∧
     (∀ v, v ≠ "A" → (p !! v = Some None ↔ d !! v = Some Infinity))).
Proof.
  destruct test_graph_run as (d & p & H). exists d, p. split; [exact H|].
  exact (predecessor_tree test_graph "A" d p eq_refl eq_refl H).
Defined.

(** X4.  With non-negative weights no arc improves a returned distance: for
    every arc that leaves a node of finite distance, the distance of its head
    is finite and at most the distance of its tail plus its weight. *)
Theorem no_arc_improves (g : Graph) (start : string)
    (d : gmap string dist) (p : gmap string (option string)) :
  graph_wf g = true → nonneg_weights g = true →
  find_shortest_path (init g) start = Ok (d, p) →
  ∀ u v w cu,
    arc g u v w → d !! u = Some (Finite cu) →
    ∃ cv, d !! v = Some (Finite cv) ∧ cv ≤ cu + w.
Proof.
  intros Hwf Hnn (st & HI & Hq & <- & _)%find_shortest_path_Ok; [|done].
  intros u v w cu (nbrs & Hn & Hv%dict_get_elem) Hu.
  pose proof (final_finite_visited g start st HI Hq u cu Hu) as Hvis.
  by destruct (i_relaxed _ _ _ _ HI Hnn _ _ _ _ _ Hvis Hn Hv Hu)
    as [?|(? & ? & [=] & _)].
Qed.

Lemma no_arc_improves_witness :
  ∃ d p, find_shortest_path (init test_graph) "A" = Ok (d, p) ∧
    ∀ u v w cu,
      arc test_graph u v w → d !! u = Some (Finite cu) →
      ∃ cv, d !! v = Some (Finite cv) ∧ cv ≤ cu + w.
Proof.
  destruct test_graph_run as (d & p & H). exists d, p. split; [exact H|].
  exact (no_arc_improves test_graph "A" d p eq_refl eq_refl H).
Defined.

(** ** [reconstruct_path] on the predecessors of [find_shortest_path] *)

(** The path that is returned is the chain of predecessors of a visited
    node. *)
Lemma final_reconstruct_chain (g : Graph) (start : string) (st : state)
    (dest : string) (path : list string) :
  Inv g start None st → priority_queue st = [] →
  is_Some (dict_get g start) →
  reconstruct_path (previous st) start dest = Ok (Some path) →
  chain (previous st) start dest path ∧ NoDup path ∧
  ∀ x, x ∈ path → x ∈ visited st.
Proof.
  intros HI Hq Hstart Hrec.
  destruct (decide (dest ∈ visited st)) as [Hvis|Hvis].
  - destruct (i_chain _ _ _ _ HI _ Hvis) as (p & Hch & Hnd & Hsub).
    assert (reconstruct_path (previous st) start dest = Ok (Some p)) as Hp.
    { unfold reconstruct_path.
      rewrite (walk_back_chain start _ dest p);
        [|done|by apply (final_previous_start g)|].
      - simpl. rewrite app_nil_r. destruct (chain_first _ _ _ _ Hch) as [p' ->].
        by rewrite String.eqb_refl.
      - etrans; [eapply (chain_length_le_size start); [done..|]|lia].
        intros x Hx. apply (i_pdom _ _ _ _ HI).
        by apply (final_visited_key g start st), Hsub. }
    rewrite Hp in Hrec. by injection Hrec as <-.
  - exfalso. destruct (dict_get g dest) eqn:Hdest.
    + rewrite (final_reconstruct_unreachable g start st HI dest) in Hrec;
        [done|by eexists|].
      intros Hr. by apply Hvis, (final_reachable_visited g start st).
    + rewrite reconstruct_path_absent_end in Hrec; [done|].
      destruct (previous st !! dest) eqn:Hp; [|done].
      assert (is_Some (dict_get g dest)) as [? ?]; [|congruence].
      apply (i_pdom _ _ _ _ HI). by eexists.
Qed.

(** X5.  From a start node of the graph, and for any destination that is a
    node of the graph, [reconstruct_path] on the returned predecessors never
    raises: it returns a path when the destination is reachable, and [None]
    when it is not, which is exactly when the returned distance is infinite.
    The path to the start node itself is [[start]]. *)
Theorem reconstruct_path_outcome (g : Graph) (start : string)
    (d : gmap string dist) (p : gmap string (option string)) :
  graph_wf g = true → dict_mem g start = true →
  find_shortest_path (init g) start = Ok (d, p) →
  reconstruct_path p start start = Ok (Some [start]) ∧
  ∀ dest,
    dict_mem g dest = true →
    (reachable g start dest ∧ (∃ c, d !! dest = Some (Finite c)) ∧
     ∃ path, reconstruct_path p start dest = Ok (Some path)) ∨
    (¬ reachable g start dest ∧ d !! dest = Some Infinity ∧
     reconstruct_path p start dest = Ok None).
Proof.
  intros Hwf Hstart%dict_mem_true (st & HI & Hq & <- & <-)%find_shortest_path_Ok;
    [|done].
  split.
  - unfold reconstruct_path. cbn [walk_back].
    rewrite (final_previous_start g start st HI Hstart), walk_back_None. simpl.
    by rewrite String.eqb_refl.
  - intros dest Hdest%dict_mem_true.
    destruct (decide (dest ∈ visited st)) as [Hvis|Hvis].
    + left. pose proof (final_visited_reachable g start st HI dest Hvis) as Hr.
      split; [done|]. split; [by apply (i_vis_fin _ _ _ _ HI)|].
      destruct (final_reconstruct_reachable g start st HI Hq Hstart dest Hr)
        as (path & c & Hrec & _). eauto.
    + right.
      assert (¬ reachable g start dest) as Hnr.
      { intros Hr. by apply Hvis, (final_reachable_visited g start st). }
      split_and!; [done|by apply (final_unreachable g start st)|].
      by apply (final_reconstruct_unreachable g start st).
Qed.

Lemma reconstruct_path_outcome_witness :
  ∃ d p, find_shortest_path (init test_graph) "A" = Ok (d, p) ∧
    (reconstruct_path p "A" "A" = Ok (Some ["A"]) ∧
     ∀ dest,
       dict_mem test_graph dest = true →
       (reachable test_graph "A" dest ∧ (∃ c, d !! dest = Some (Finite c)) ∧
        ∃ path, reconstruct_path p "A" dest = Ok (Some path)) ∨
       (¬ reachable test_graph "A" dest ∧ d !! dest = Some Infinity ∧
        reconstruct_path p "A" dest = Ok None)).
Proof.
  destruct test_graph_run as (d & p & H). exists d, p. split; [exact H|].
  exact (reconstruct_path_outcome test_graph "A" d p eq_refl eq_refl H).
Defined.

(** X6.  A path that [reconstruct_path] returns on the returned predecessors
    visits no node twice; its nodes are nodes of the graph, so that it is no
    longer than the graph has nodes. *)
Theorem reconstructed_path_simple (g : Graph) (start dest : string)
    (d : gmap string dist) (p : gmap string (option string))
    (path : list string) :
  graph_wf g = true → dict_mem g start = true →
  find_shortest_path (init g) start = Ok (d, p) →
  reconstruct_path p start dest = Ok (Some path) →
  NoDup path ∧ (∀ x, x ∈ path → dict_mem g x = true) ∧
  (length path ≤ length g)%nat.
Proof.
  intros Hwf Hstart%dict_mem_true (st & HI & Hq & <- & <-)%find_shortest_path_Ok
    Hrec; [|done].
  destruct (final_reconstruct_chain g start st dest path HI Hq Hstart Hrec)
    as (_ & Hnd & Hvis).
  assert (∀ x, x ∈ path → x ∈ dict_keys g) as Hkeys.
  { intros x Hx. by apply dict_get_is_Some, (final_visited_key g start st), Hvis. }
  split_and!; [done| |].
  - intros x Hx. by apply dict_mem_true, dict_get_is_Some, Hkeys.
  - rewrite <- (length_map fst g). apply submseteq_length.
    by apply NoDup_submseteq.
Qed.

Lemma reconstructed_path_simple_witness :
  ∃ d p path,
    find_shortest_path (init test_graph) "A" = Ok (d, p) ∧
    reconstruct_path p "A" "D" = Ok (Some path) ∧
    (NoDup path ∧ (∀ x, x ∈ path → dict_mem test_graph x = true) ∧
     (length path ≤ length test_graph)%nat).
Proof.
  destruct (run_path test_graph "A" "D") as (d & p & path & H & Hrec);
    [exact test_graph_path|].
  exists d, p, path. do 2 (split; [assumption|]).
  exact (reconstructed_path_simple test_graph "A" "D" d p path
           eq_refl eq_refl H Hrec).
Defined.

(** ** [calculate_all_paths]: the shape of the result and the exceptions *)

Lemma for_each_outcome {A S} (P : exn → Prop) (body : S → A → result S)
    (l : list A) (s : S) :
  (∀ s x, x ∈ l →
          (∃ s', body s x = Ok s') ∨ (∃ e, body s x = Raise e ∧ P e)) →
  (∃ s', for_each body s l = Ok s') ∨ (∃ e, for_each body s l = Raise e ∧ P e).
Proof.
  revert s. induction l as [|x l IH]; intros s Hbody; cbn [for_each]; [eauto|].
  destruct (Hbody s x) as [[s1 ->]|(e & -> & He)]; [left| |by right; eauto].
  simpl. apply IH. intros s' y Hy. apply Hbody. by right.
Qed.

Lemma find_shortest_path_raise (g : Graph) (start : string) (e : exn) :
  graph_wf g = true →
  find_shortest_path (init g) start = Raise e →
  ∃ x, e = KeyError x ∧ dict_get g x = None.
Proof.
  intros Hwf. unfold find_shortest_path.
  destruct (main_loop _ _ _) as [st|e1|] eqn:Hloop; simpl; [done| |done].
  intros [= <-]. apply (main_loop_raise_key g start Hwf) in Hloop; [done|].
  by apply initial_Inv.
Qed.

(** [calculate_all_paths] returns, or raises [KeyError] on a name that is not
    a node of the graph. *)
Lemma calculate_all_paths_outcome (g : Graph) :
  graph_wf g = true →
  (∃ all_results, calculate_all_paths (init g) = Ok all_results) ∨
  (∃ e, calculate_all_paths (init g) = Raise e ∧
        ∃ x, e = KeyError x ∧ dict_get g x = None).
Proof.
  intros Hwf. unfold calculate_all_paths. apply for_each_outcome.
  intros all_results router Hrouter%dict_get_is_Some.
  destruct (find_shortest_path (init g) router) as [[d p]|e|] eqn:Hfind; simpl.
  - left. apply find_shortest_path_Ok in Hfind as (st & HI & Hq & _ & <-); [|done].
    destruct (for_each_Ok
                (λ paths dest,
                   if String.eqb dest router then Ok paths
                   else path ← reconstruct_path (previous st) router dest;
                        Ok (dict_set paths dest path))
                (dict_keys g) []) as [paths ->]; [|simpl; eauto].
    intros paths dest Hdest%dict_get_is_Some.
    destruct (String.eqb dest router); [eauto|].
    destruct (final_reconstruct_key g router st HI Hq Hrouter dest Hdest) as [r ->].
    simpl. eauto.
  - right. exists e. split; [done|]. by apply (find_shortest_path_raise g router).
  - exfalso. destruct (find_shortest_path_outcome g router) as [(? & ? & ?)|[? ?]];
      congruence.
Qed.

Lemma routes_from_paths_keys self router r dest :
  routes_from self router = Ok r →
  dest ∉ routers self ∨ dest = router → dict_get (r_paths r) dest = None.
Proof.
  unfold routes_from. intros H. apply bind_Ok in H as ([d p] & Hfind & H).
  apply bind_Ok in H as (paths & Hpaths & [= <-]). simpl.
  apply (for_each_dict
           (λ dest, if String.eqb dest router then Ok None
                    else path ← reconstruct_path p router dest; Ok (Some path)))
    in Hpaths.
  2:{ clear. intros acc k. destruct (String.eqb k router); [done|].
      by destruct (reconstruct_path p router k). }
  destruct Hpaths as [Hin Hout].
  destruct (decide (dest ∈ routers self)) as [Hd|Hd]; [|intros _; by apply Hout].
  intros [?| ->]; [done|].
  destruct (Hin router Hd) as (o & Ho & ->).
  rewrite String.eqb_refl in Ho. by injection Ho as <-.
Qed.

(** X7.  The result of [calculate_all_paths] has one entry per node of the
    graph and no other; the entry of a router holds the distances and the
    predecessors of [find_shortest_path] from this router, and a path entry,
    the result of [reconstruct_path], for every other node of the graph and
    for these only (none for the router itself). *)
Theorem all_paths_structure (g : Graph) (all_results : dict routes) :
  calculate_all_paths (init g) = Ok all_results →
  ∀ router,
    (dict_mem g router = false → dict_get all_results router = None) ∧
    (dict_mem g router = true →
     ∃ r, dict_get all_results router = Some r ∧
          find_shortest_path (init g) router = Ok (r_distances r, r_previous r) ∧
          ∀ dest,
            (dest = router ∨ dict_mem g dest = false →
             dict_get (r_paths r) dest = None) ∧
            (dest ≠ router → dict_mem g dest = true →
             ∃ path, dict_get (r_paths r) dest = Some path ∧
                     reconstruct_path (r_previous r) router dest = Ok path)).
Proof.
  intros [Hin Hout]%calculate_all_paths_lookup router.
  assert (∀ x, dict_mem g x = true ↔ x ∈ routers (init g)) as Hmem.
  { intros x. by rewrite dict_mem_true, dict_get_is_Some. }
  split.
  - intros Hr. apply Hout. rewrite <- Hmem. congruence.
  - intros Hr%Hmem. destruct (Hin router Hr) as (r & Hfrom & Hget).
    exists r. split; [done|].
    pose proof (routes_from_paths _ _ _ Hfrom) as (Hfind & Hpaths & _).
    split; [done|]. intros dest. split.
    + intros Hd. apply (routes_from_paths_keys _ _ _ _ Hfrom).
      destruct Hd as [->|Hd]; [by right|left]. rewrite <- Hmem. congruence.
    + intros Hne Hd%Hmem. destruct (Hpaths dest Hd Hne) as (path & ? & ?). eauto.
Qed.

Lemma test_graph_all_paths :
  ∃ all_results, calculate_all_paths (init test_graph) = Ok all_results.
Proof. apply calculate_all_paths_closed; reflexivity. Qed.

Lemma all_paths_structure_witness :
  ∃ all_results,
    calculate_all_paths (init test_graph) = Ok all_results ∧
    ∀ router,
      (dict_mem test_graph router = false → dict_get all_results router = None) ∧
      (dict_mem test_graph router = true →
       ∃ r, dict_get all_results router = Some r ∧
            find_shortest_path (init test_graph) router
            = Ok (r_distances r, r_previous r) ∧
            ∀ dest,
              (dest = router ∨ dict_mem test_graph dest = false →
               dict_get (r_paths r) dest = None) ∧
              (dest ≠ router → dict_mem test_graph dest = true →
               ∃ path, dict_get (r_paths r) dest = Some path ∧
                       reconstruct_path (r_previous r) router dest = Ok path)).
Proof.
  destruct test_graph_all_paths as (all_results & H). exists all_results.
  split; [exact H|]. exact (all_paths_structure test_graph all_results H).
Defined.

(** X8.  [calculate_all_paths] returns exactly on the neighbour-closed
    graphs.  On any other graph it raises [KeyError], on a name that is not a
    node of the graph: a single arc to a missing node, wherever it is, makes
    the whole computation fail. *)
Theorem all_paths_returns_iff_closed (g : Graph) :
  graph_wf g = true →
  (neighbor_closed g = true ∧
   ∃ all_results, calculate_all_paths (init g) = Ok all_results) ∨
  (neighbor_closed g = false ∧
   ∃ x, calculate_all_paths (init g) = Raise (KeyError x) ∧
        dict_mem g x = false).
Proof.
  intros Hwf. destruct (neighbor_closed g) eqn:Hcl.
  { left. split; [done|]. by apply calculate_all_paths_closed. }
  right. split; [done|].
  destruct (calculate_all_paths_outcome g Hwf)
    as [[all_results Hall]|(e & Hall & x & -> & Hx)].
  2:{ exists x. split; [done|]. unfold dict_mem. by rewrite Hx. }
  exfalso. apply calculate_all_paths_lookup in Hall as [Hin _].
  assert (neighbor_closed g = true) as Hcl'; [|congruence].
  unfold neighbor_closed. apply forallb_forall. intros [u nbrs] Hu%list_elem_of_In.
  apply forallb_forall. intros [v w] Hv%list_elem_of_In. simpl.
  destruct (dict_mem g v) eqn:Hmem; [done|exfalso].
  assert (arc g u v w) as Harc.
  { pose proof Hwf as Hwf'. unfold graph_wf in Hwf'.
    apply andb_true_iff in Hwf' as [Hg _].
    apply arc_elem with nbrs; [done|by apply dict_elem_get|done]. }
  destruct (Hin u) as (r & Hfrom & _).
  { change (u ∈ dict_keys g). apply list_elem_of_fmap. by exists (u, nbrs). }
  apply routes_from_paths in Hfrom as (Hfind & _).
  destruct (find_shortest_path_dangling g u Hwf u v w) as (x & Hx & _);
    [|exists 0; constructor|done| |congruence].
  - destruct Harc as (? & -> & _). by eexists.
  - unfold dict_mem in Hmem. by destruct (dict_get g v).
Qed.

Lemma all_paths_returns_iff_closed_witness :
  (neighbor_closed [("A", [("B", 1)])] = true ∧
   ∃ all_results,
     calculate_all_paths (init [("A", [("B", 1)])]) = Ok all_results) ∨
  (neighbor_closed [("A", [("B", 1)])] = false ∧
   ∃ x, calculate_all_paths (init [("A", [("B", 1)])]) = Raise (KeyError x) ∧
        dict_mem [("A", [("B", 1)])] x = false).
Proof. apply (all_paths_returns_iff_closed [("A", [("B", 1)])]). reflexivity. Defined.

(** ** Distances from several sources *)

Lemma walk_trans g s u v c1 c2 :
  walk g s u c1 → walk g u v c2 → walk g s v (c1 + c2).
Proof.
  intros H1. induction 1 as [|x y w c _ IH Harc].
  - by rewrite Z.add_0_r.
  - rewrite Z.add_assoc. by apply walk_step with x.
Qed.

Lemma symmetric_arc g u v w : symmetric g = true → arc g u v w → arc g v u w.
Proof.
  unfold symmetric. rewrite forallb_forall. intros Hsym (nbrs & Hu & Hv).
  apply dict_get_elem, list_elem_of_In in Hu, Hv.
  specialize (Hsym _ Hu). simpl in Hsym. rewrite forallb_forall in Hsym.
  specialize (Hsym _ Hv). simpl in Hsym.
  destruct (dict_get g v) as [back|] eqn:Hg; [|done].
  destruct (dict_get back u) as [w'|] eqn:Hback; [|done].
  apply Z.eqb_eq in Hsym as ->. by exists back.
Qed.

Lemma walk_reverse g s v c : symmetric g = true → walk g s v c → walk g v s c.
Proof.
  intros Hsym. induction 1 as [|u v w c _ IH Harc]; [constructor|].
  rewrite Z.add_comm. apply walk_trans with u; [|done].
  rewrite <- (Z.add_0_l w). apply walk_step with v; [constructor|].
  by apply symmetric_arc.
Qed.

(** The distance that is returned for a node of the graph, in terms of the
    paths of the graph. *)
Lemma returned_distance (g : Graph) (start v : string)
    (d : gmap string dist) (p : gmap string (option string)) :
  graph_wf g = true → nonneg_weights g = true → is_Some (dict_get g v) →
  find_shortest_path (init g) start = Ok (d, p) →
  (∃ c, d !! v = Some (Finite c) ∧ shortest g start v c) ∨
  (d !! v = Some Infinity ∧ ¬ reachable g start v).
Proof.
  intros Hwf Hnn Hv (st & HI & Hq & <- & _)%find_shortest_path_Ok; [|done].
  destruct (decide (v ∈ visited st)) as [Hvis|Hvis].
  - left. apply (final_shortest g start st HI Hq v Hnn).
    by apply (final_visited_reachable g start st).
  - right.
    assert (¬ reachable g start v) as Hnr.
    { intros Hr. by apply Hvis, (final_reachable_visited g start st). }
    split; [|done]. by apply (final_unreachable g start st).
Qed.

(** X9.  On a graph where every arc has a reverse arc of the same weight,
    non-negative, the distance from [a] to [b] that one call returns is the
    distance from [b] to [a] that the other call returns. *)
Theorem symmetric_distances (g : Graph) (a b : string)
    (da db : gmap string dist) (pa pb : gmap string (option string)) :
  graph_wf g = true → nonneg_weights g = true → symmetric g = true →
  dict_mem g a = true → dict_mem g b = true →
  find_shortest_path (init g) a = Ok (da, pa) →
  find_shortest_path (init g) b = Ok (db, pb) →
  da !! b = db !! a.
Proof.
  intros Hwf Hnn Hsym Ha%dict_mem_true Hb%dict_mem_true Hfa Hfb.
  destruct (returned_distance g a b da pa Hwf Hnn Hb Hfa)
    as [(c & -> & Hw & Hmin)|[-> Hnr]];
    destruct (returned_distance g b a db pb Hwf Hnn Ha Hfb)
      as [(c' & -> & Hw' & Hmin')|[-> Hnr']]; [|exfalso|exfalso|done].
  - do 2 f_equal. apply Z.le_antisymm.
    + by apply Hmin, walk_reverse.
    + by apply Hmin', walk_reverse.
  - apply Hnr'. exists c. by apply walk_reverse.
  - apply Hnr. exists c'. by apply walk_reverse.
Qed.

Lemma symmetric_distances_witness :
  ∃ da pa db pb,
    find_shortest_path (init test_graph) "A" = Ok (da, pa) ∧
    find_shortest_path (init test_graph) "D" = Ok (db, pb) ∧
    da !! "D" = db !! "A".
Proof.
  destruct (find_shortest_path_closed test_graph "A" eq_refl eq_refl)
    as (da & pa & Ha).
  destruct (find_shortest_path_closed test_graph "D" eq_refl eq_refl)
    as (db & pb & Hb).
  exists da, pa, db, pb. do 2 (split; [assumption|]).
  exact (symmetric_distances test_graph "A" "D" da db pa pb
           eq_refl eq_refl eq_refl eq_refl eq_refl Ha Hb).
Defined.

(** X10.  Triangle inequality, for non-negative weights: when [b] is at
    distance [x] from [a] and [c] at distance [y] from [b], the distance that
    is returned for [c] from [a] is finite and at most [x + y]. *)
Theorem triangle_inequality (g : Graph) (a b c : string)
    (da db : gmap string dist) (pa pb : gmap string (option string)) (x y : Z) :
  graph_wf g = true → nonneg_weights g = true →
  find_shortest_path (init g) a = Ok (da, pa) →
  find_shortest_path (init g) b = Ok (db, pb) →
  da !! b = Some (Finite x) → db !! c = Some (Finite y) →
  ∃ z, da !! c = Some (Finite z) ∧ z ≤ x + y.
Proof.
  intros Hwf Hnn (sa & HIa & Hqa & <- & _)%find_shortest_path_Ok
    (sb & HIb & Hqb & <- & _)%find_shortest_path_Ok Hx Hy; [|done..].
  apply (i_sound _ _ _ _ HIa) in Hx. apply (i_sound _ _ _ _ HIb) in Hy.
  pose proof (walk_trans _ _ _ _ _ _ Hx Hy) as Hxy.
  destruct (final_shortest g a sa HIa Hqa c Hnn) as (z & Hz & _ & Hmin);
    [by exists (x + y)|].
  exists z. split; [done|]. by apply Hmin.
Qed.

Lemma triangle_inequality_witness :
  ∃ da pa db pb,
    find_shortest_path (init test_graph) "A" = Ok (da, pa) ∧
    find_shortest_path (init test_graph) "C" = Ok (db, pb) ∧
    da !! "C" = Some (Finite 2) ∧ db !! "D" = Some (Finite 6) ∧
    ∃ z, da !! "D" = Some (Finite z) ∧ z ≤ 2 + 6.
Proof.
  destruct (run_distance test_graph "A" "C" 2) as (da & pa & Ha & Hx);
    [exact test_graph_A_C|].
  destruct (run_distance test_graph "C" "D" 6) as (db & pb & Hb & Hy);
    [exact test_graph_C_D|].
  exists da, pa, db, pb. do 4 (split; [assumption|]).
  exact (triangle_inequality test_graph "A" "C" "D" da db pa pb 2 6
           eq_refl eq_refl Ha Hb Hx Hy).
Defined.

Lemma walk_multiple_of g s v c k :
  0 < k → weights_multiple_of k g = true → walk g s v c → c mod k = 0.
Proof.
  intros Hk Hmul. unfold weights_multiple_of in Hmul. rewrite forallb_forall in Hmul.
  induction 1 as [|u v w c _ IH (nbrs & Hu & Hv)]; [by apply Z.mod_0_l; lia|].
  apply dict_get_elem, list_elem_of_In in Hu, Hv.
  specialize (Hmul _ Hu). simpl in Hmul. rewrite forallb_forall in Hmul.
  specialize (Hmul _ Hv). simpl in Hmul. apply Z.eqb_eq in Hmul.
  rewrite Z.add_mod, IH, Hmul by lia. by apply Z.mod_0_l; lia.
Qed.

(** X11.  When every weight of the graph is a multiple of [k], so is every
    finite distance that is returned (with the costs of the repository, all of
    64, every route cost is a multiple of 64). *)
Theorem distances_multiple_of (g : Graph) (start v : string) (k c : Z)
    (d : gmap string dist) (p : gmap string (option string)) :
  graph_wf g = true → 0 < k → weights_multiple_of k g = true →
  find_shortest_path (init g) start = Ok (d, p) →
  d !! v = Some (Finite c) → c mod k = 0.
Proof.
  intros Hwf Hk Hmul (st & HI & _ & <- & _)%find_shortest_path_Ok Hc; [|done].
  apply (walk_multiple_of g start v c k Hk Hmul). by apply (i_sound _ _ _ _ HI).
Qed.

Lemma distances_multiple_of_witness :
  ∃ d p,
    find_shortest_path (init NETWORK_TOPOLOGY) "R0" = Ok (d, p) ∧
    d !! "R3" = Some (Finite 256) ∧ 256 mod 64 = 0.
Proof.
  destruct (run_distance NETWORK_TOPOLOGY "R0" "R3" 256) as (d & p & H & Hd);
    [exact network_R0_R3|].
  exists d, p. do 2 (split; [assumption|]).
  exact (distances_multiple_of NETWORK_TOPOLOGY "R0" "R3" 64 256 d p
           eq_refl eq_refl eq_refl H Hd).
Defined.

(** ** Dictionaries copied entry by entry *)

Lemma dict_set_fresh {V} (d : dict V) k v :
  k ∉ dict_keys d → dict_set d k v = d ++ [(k, v)].
Proof.
  unfold dict_keys. induction d as [|[k' v'] d IH]; simpl; [done|].
  intros [Hne Hk]%not_elem_of_cons.
  destruct (String.eqb_spec k' k); [congruence|]. by rewrite IH.
Qed.

(** Copying a dictionary entry by entry, with the values transformed, keeps
    the entries in their order. *)
Lemma foldl_dict_set_map {A B} (h h' : A → B) (l : dict A) (acc : dict B) :
  NoDup (dict_keys acc ++ dict_keys l) →
  (∀ e, e ∈ l → h (snd e) = h' (snd e)) →
  foldl (λ d e, dict_set d (fst e) (h (snd e))) acc l
  = acc ++ map (λ e, (fst e, h' (snd e))) l.
Proof.
  revert acc. induction l as [|[k v] l IH]; intros acc Hnd Hext; simpl.
  - by rewrite app_nil_r.
  - unfold dict_keys in *. simpl in Hnd.
    rewrite dict_set_fresh.
    + rewrite IH.
      * pose proof (Hext (k, v) ltac:(left)) as Hkv. simpl in Hkv.
        rewrite Hkv. by rewrite <- app_assoc.
      * rewrite map_app. simpl. by rewrite <- app_assoc.
      * intros e He. apply Hext. by right.
    + apply NoDup_app in Hnd as (_ & Hdisj & _). intros Hk.
      apply (Hdisj k Hk). left.
Qed.

Lemma dict_get_map {A B} (h : A → B) (d : dict A) k :
  dict_get (map (λ e, (fst e, h (snd e))) d) k = h <$> dict_get d k.
Proof.
  induction d as [|[k' v] d IH]; simpl; [done|].
  by destruct (String.eqb k' k).
Qed.

Lemma dict_keys_map {A B} (h : A → B) (d : dict A) :
  dict_keys (map (λ e, (fst e, h (snd e))) d) = dict_keys d.
Proof. unfold dict_keys. rewrite map_map. by apply map_ext. Qed.

Lemma dict_wf_NoDup {V} (d : dict V) : dict_wf d = true ↔ NoDup (dict_keys d).
Proof. apply distinct_NoDup. Qed.

(** On a topology that is a dictionary of dictionaries, the graph of the
    costs has the arcs of the topology, in their order. *)
Lemma weights_graph_map topology :
  topology_wf topology = true →
  weights_graph topology
  = map (λ e, (fst e, map (λ a, (fst a, get_cost (snd a) 64)) (snd e))) topology.
Proof.
  unfold topology_wf. rewrite andb_true_iff, forallb_forall, dict_wf_NoDup.
  intros [Hnd Hall]. unfold weights_graph.
  apply (foldl_dict_set_map
           (λ nbrs : dict attrs,
              foldl (λ (inner : dict Z) (a : string * attrs),
                       dict_set inner (fst a) (get_cost (snd a) 64)) [] nbrs)
           (λ nbrs, map (λ a, (fst a, get_cost (snd a) 64)) nbrs)
           topology []); [done|].
  intros e He%list_elem_of_In%Hall. apply dict_wf_NoDup in He.
  by apply (foldl_dict_set_map (λ at_, get_cost at_ 64) (λ at_, get_cost at_ 64)
              (snd e) []).
Qed.

Lemma convert_simple_to_full_map (g : Graph) :
  graph_wf g = true →
  convert_simple_to_full g
  = map (λ e, (fst e,
               map (λ a, (fst a, [cost (snd a); distance_km (PyInt 50);
                                  bandwidth_mbps (PyFloat T1_MBPS)])) (snd e))) g.
Proof.
  unfold graph_wf. rewrite andb_true_iff, forallb_forall, dict_wf_NoDup.
  intros [Hnd Hall]. unfold convert_simple_to_full.
  apply (foldl_dict_set_map
           (λ nbrs : dict Z,
              foldl (λ (inner : dict attrs) (a : string * Z),
                       dict_set inner (fst a)
                         [cost (snd a); distance_km (PyInt 50);
                          bandwidth_mbps (PyFloat T1_MBPS)]) [] nbrs)
           (λ nbrs, map (λ a, (fst a, [cost (snd a); distance_km (PyInt 50);
                                       bandwidth_mbps (PyFloat T1_MBPS)])) nbrs)
           g []); [done|].
  intros e He%list_elem_of_In%Hall. apply dict_wf_NoDup in He.
  by apply (foldl_dict_set_map
              (λ c, [cost c; distance_km (PyInt 50); bandwidth_mbps (PyFloat T1_MBPS)])
              (λ c, [cost c; distance_km (PyInt 50); bandwidth_mbps (PyFloat T1_MBPS)])
              (snd e) []).
Qed.

Lemma convert_simple_to_full_wf (g : Graph) :
  graph_wf g = true → topology_wf (convert_simple_to_full g) = true.
Proof.
  intros Hwf. rewrite (convert_simple_to_full_map g Hwf).
  unfold graph_wf, topology_wf in *. apply andb_true_iff in Hwf as [Hg Hall].
  apply andb_true_iff. split.
  - unfold dict_wf in *. by rewrite dict_keys_map.
  - rewrite forallb_forall in *. intros e (e0 & <- & He0)%in_map_iff. simpl.
    specialize (Hall e0 He0). unfold dict_wf in *.
    by rewrite (dict_keys_map
                  (λ c, [cost c; distance_km (PyInt 50);
                         bandwidth_mbps (PyFloat T1_MBPS)])).
Qed.

(** X12.  Round trip: the graph of the costs of the full topology that
    [convert_simple_to_full] builds from a simple topology is this simple
    topology again, so that [calculate_network_metrics] routes over the costs
    it was given. *)
Theorem convert_then_weights (g : Graph) :
  graph_wf g = true → weights_graph (convert_simple_to_full g) = g.
Proof.
  intros Hwf. rewrite weights_graph_map by by apply convert_simple_to_full_wf.
  rewrite (convert_simple_to_full_map g Hwf), map_map. simpl.
  rewrite <- (map_id g) at 2. apply map_ext. intros [k nbrs]. simpl. f_equal.
  rewrite map_map. simpl. rewrite <- (map_id nbrs) at 2. apply map_ext.
  by intros [v w].
Qed.

Lemma convert_then_weights_witness :
  weights_graph (convert_simple_to_full NETWORK_TOPOLOGY) = NETWORK_TOPOLOGY.
Proof. apply (convert_then_weights NETWORK_TOPOLOGY). reflexivity. Defined.

(** ** The entries of the metrics and the routes *)

(** X13.  The metrics that [calculate_network_metrics] returns have one row
    per node of the topology and no other, and the row of a source has an
    entry for a destination exactly when the destination is another node of
    the topology that is reachable from the source along the arcs of the
    topology. *)
Theorem metrics_entries (topology : Topology) (packet_size_bytes : Z)
    (metrics : dict (dict RouteMetrics)) :
  calculate_network_metrics topology packet_size_bytes = Ok metrics →
  ∀ src,
    (dict_mem topology src = false → dict_get metrics src = None) ∧
    (dict_mem topology src = true →
     ∃ row, dict_get metrics src = Some row ∧
       ∀ dst, is_Some (dict_get row dst) ↔
              dst ≠ src ∧ dict_mem topology dst = true ∧
              reachable (weights_graph topology) src dst).
Proof.
  intros Hmetrics src.
  pose proof Hmetrics as (all_routes & Hall & Hin & Hout)%calculate_network_metrics_lookup.
  split.
  { intros Hsrc. apply Hout. rewrite <- dict_get_is_Some, <- dict_mem_true.
    congruence. }
  intros Hsrc%dict_mem_true.
  destruct (Hin src) as (row & Hrow & Hentries & Hnone); [by apply dict_get_is_Some|].
  exists row. split; [done|]. intros dst. split.
  - intros [m Hm].
    destruct (metrics_entry_route _ _ _ _ _ _ _ Hmetrics Hrow Hm)
      as (Hne & _ & Hdst & st & HI & Hq & _ & Hrec & _).
    split_and!; [done|by apply dict_mem_true|].
    apply (final_visited_reachable _ _ st HI).
    destruct (final_reconstruct_chain _ _ st dst (path_list m) HI Hq) as (Hch & _ & Hvis);
      [by apply weights_graph_keys|done|].
    apply Hvis. destruct (chain_last _ _ _ _ Hch) as [p' ->].
    apply elem_of_app. right. left.
  - intros (Hne & Hdst%dict_mem_true & Hreach).
    destruct (Hentries dst) as (o & Ho & ->); [by apply dict_get_is_Some|].
    apply calculate_all_paths_lookup in Hall as [Hallin _].
    destruct (Hallin src) as (r & Hfrom & Hr).
    { by apply weights_graph_routers, dict_get_is_Some. }
    apply routes_from_paths in Hfrom as (Hfind & Hpaths & _).
    destruct (Hpaths dst) as (path & Hpath & Hgetp); [|done|].
    { by apply weights_graph_routers, dict_get_is_Some. }
    apply find_shortest_path_Ok in Hfind as (st & HI & Hq & _ & Hprev);
      [|apply weights_graph_wf].
    rewrite <- Hprev in Hpath.
    destruct (final_reconstruct_reachable _ _ st HI Hq) with (v := dst)
      as (p & c & Hp & Hch & _); [by apply weights_graph_keys|done|].
    rewrite Hp in Hpath. injection Hpath as <-.
    destruct (chain_first _ _ _ _ Hch) as [p' ->].
    unfold pair_entry, dict_item in Ho.
    destruct (String.eqb_spec src dst); [congruence|].
    rewrite Hr in Ho. simpl in Ho. rewrite Hgetp in Ho.
    apply bind_Ok in Ho as (m & _ & [= <-]). by eexists.
Qed.

Lemma island_metrics :
  ∃ metrics,
    calculate_network_metrics island_topology DEFAULT_PACKET_SIZE_BYTES = Ok metrics.
Proof. vm_compute. by eexists. Qed.

Lemma metrics_entries_witness :
  ∃ metrics,
    calculate_network_metrics island_topology DEFAULT_PACKET_SIZE_BYTES = Ok metrics ∧
    ∀ src,
      (dict_mem island_topology src = false → dict_get metrics src = None) ∧
      (dict_mem island_topology src = true →
       ∃ row, dict_get metrics src = Some row ∧
         ∀ dst, is_Some (dict_get row dst) ↔
                dst ≠ src ∧ dict_mem island_topology dst = true ∧
                reachable (weights_graph island_topology) src dst).
Proof.
  destruct island_metrics as (metrics & H). exists metrics. split; [exact H|].
  exact (metrics_entries island_topology DEFAULT_PACKET_SIZE_BYTES metrics H).
Defined.

Lemma weights_graph_arc topology a b w :
  topology_wf topology = true →
  arc (weights_graph topology) a b w ↔
  ∃ at_, get_arc topology a b = Some at_ ∧ w = get_cost at_ 64.
Proof.
  intros Hwf. rewrite (weights_graph_map topology Hwf). unfold arc, get_arc.
  rewrite (dict_get_map (λ nbrs : dict attrs,
                           map (λ a, (fst a, get_cost (snd a) 64)) nbrs)).
  destruct (dict_get topology a) as [nbrs|]; simpl.
  - split.
    + intros (nbrs' & [= <-] & Hb).
      rewrite (dict_get_map (λ at_ : attrs, get_cost at_ 64)) in Hb.
      destruct (dict_get nbrs b) as [at_|]; [|done]. injection Hb as <-. eauto.
    + intros (at_ & Hb & ->). eexists. split; [done|].
      by rewrite (dict_get_map (λ at_ : attrs, get_cost at_ 64)), Hb.
  - split; [by intros (? & [=] & _)|by intros (? & [=] & _)].
Qed.

Lemma foldl_add_init (a : Z) (l : list Z) : foldl Z.add a l = a + foldl Z.add 0 l.
Proof.
  revert a. induction l as [|x l IH]; intros a; cbn [foldl]; [lia|].
  rewrite (IH (a + x)), (IH (0 + x)). lia.
Qed.

(** Along a path of the graph of the costs, every hop is an arc of the
    topology, and the costs of the hops add up to the cost of the path. *)
Lemma path_cost_hops topology path c :
  topology_wf topology = true →
  path_cost (weights_graph topology) path = Some c →
  foldl Z.add 0
    (map (λ ab, get_cost (hop_attrs topology (fst ab) (snd ab)) 64)
       (consecutive path)) = c ∧
  ∀ a b, (a, b) ∈ consecutive path →
         ∃ at_, get_arc topology a b = Some at_ ∧ hop_attrs topology a b = at_.
Proof.
  intros Hwf. revert c. induction path as [|a path IH]; intros c.
  { intros [= <-]. split; [done|]. intros a b Hab. inversion Hab. }
  destruct path as [|b path].
  { intros [= <-]. split; [done|]. intros a' b Hab. inversion Hab. }
  rewrite path_cost_cons.
  destruct (dict_get (weights_graph topology) a) as [nbrs|] eqn:Hn; [|done].
  destruct (dict_get nbrs b) as [w|] eqn:Hw; [|done].
  destruct (path_cost (weights_graph topology) (b :: path)) as [c'|]; [|done].
  intros [= <-]. destruct (IH c' eq_refl) as [IHsum IHarcs].
  assert (arc (weights_graph topology) a b w) as Harc by (by exists nbrs).
  apply weights_graph_arc in Harc as (at_ & Hat & ->); [|done].
  assert (hop_attrs topology a b = at_) as Hhop.
  { unfold hop_attrs. by rewrite Hat. }
  change (consecutive (a :: b :: path)) with ((a, b) :: consecutive (b :: path)).
  split.
  - cbn [map foldl fst snd]. rewrite foldl_add_init, IHsum, Hhop. lia.
  - intros a' b' [[= -> ->]|Hab]%elem_of_cons; [eauto|by apply IHarcs].
Qed.

(** X14.  On a topology that is a dictionary of dictionaries, the cost
    [ospf_cost] of an entry of the metrics, summed from the attributes of the
    hops, is the distance that [find_shortest_path] returns for the pair on
    the graph of the costs, and the cost of the path of the entry in this
    graph; with non-negative costs it is the least cost of a path from the
    source to the destination. *)
Theorem metrics_cost_is_distance (topology : Topology) (packet_size_bytes : Z)
    (metrics : dict (dict RouteMetrics)) (src dst : string)
    (row : dict RouteMetrics) (m : RouteMetrics) :
  topology_wf topology = true →
  calculate_network_metrics topology packet_size_bytes = Ok metrics →
  dict_get metrics src = Some row → dict_get row dst = Some m →
  (∃ d p, find_shortest_path (init (weights_graph topology)) src = Ok (d, p) ∧
          d !! dst = Some (Finite (ospf_cost m))) ∧
  path_cost (weights_graph topology) (path_list m) = Some (ospf_cost m) ∧
  (nonneg_weights (weights_graph topology) = true →
   shortest (weights_graph topology) src dst (ospf_cost m)).
Proof.
  intros Hwf Hmetrics Hrow Hm.
  destruct (metrics_entry_route _ _ _ _ _ _ _ Hmetrics Hrow Hm)
    as (Hne & Hsrc & Hdst & st & HI & Hq & Hfind & Hrec & Hpm).
  destruct (final_reconstruct_chain _ _ st dst (path_list m) HI Hq) as (Hch & _ & _);
    [by apply weights_graph_keys|done|].
  destruct (final_chain_cost _ _ st HI _ _ Hch)
    as (c & Hc & Hcost).
  apply path_metrics_fields in Hpm as (_ & _ & Hospf & _).
  destruct (path_cost_hops topology _ c Hwf Hcost) as [Hsum _].
  rewrite Hsum in Hospf. subst c. split_and!; [eauto|done|].
  intros Hnn. split; [by apply (i_sound _ _ _ _ HI)|].
  intros c' Hw. apply (i_opt _ _ _ _ HI Hnn dst); [|done..].
  by apply (final_finite_visited _ _ st HI Hq dst (ospf_cost m)).
Qed.

(** X15.  On a topology that is a dictionary of dictionaries, every hop of the
    path of an entry of the metrics is an arc of the topology: the attributes
    in use are those of this arc, forward, and the reverse arc and the
    default attributes are never used; the bandwidths listed in the entry are
    those of the arcs of the path. *)
Theorem metrics_hops_are_arcs (topology : Topology) (packet_size_bytes : Z)
    (metrics : dict (dict RouteMetrics)) (src dst : string)
    (row : dict RouteMetrics) (m : RouteMetrics) :
  topology_wf topology = true →
  calculate_network_metrics topology packet_size_bytes = Ok metrics →
  dict_get metrics src = Some row → dict_get row dst = Some m →
  (∀ a b, (a, b) ∈ consecutive (path_list m) →
          ∃ at_, get_arc topology a b = Some at_ ∧ hop_attrs topology a b = at_) ∧
  path_bandwidths_mbps m
  = map (λ ab, match get_arc topology (fst ab) (snd ab) with
               | Some at_ => get_bandwidth_mbps at_ (PyInt 1000)
               | None => PyInt 1000
               end) (consecutive (path_list m)).
Proof.
  intros Hwf Hmetrics Hrow Hm.
  destruct (metrics_entry_route _ _ _ _ _ _ _ Hmetrics Hrow Hm)
    as (Hne & Hsrc & Hdst & st & HI & Hq & Hfind & Hrec & Hpm).
  destruct (final_reconstruct_chain _ _ st dst (path_list m) HI Hq) as (Hch & _ & _);
    [by apply weights_graph_keys|done|].
  destruct (final_chain_cost _ _ st HI _ _ Hch)
    as (c & Hc & Hcost).
  destruct (path_cost_hops topology _ c Hwf Hcost) as [_ Harcs].
  split; [done|].
  apply path_metrics_fields in Hpm as (_ & _ & _ & ->).
  apply list_eq_Forall2, Forall2_fmap, Forall_Forall2_diag, Forall_forall.
  intros [a b] Hab. destruct (Harcs a b Hab) as (at_ & Hat & Hhop).
  cbn [fst snd]. by rewrite Hat, Hhop.
Qed.

Lemma network_metrics_entry :
  ∃ metrics row m,
    calculate_network_metrics (convert_simple_to_full NETWORK_TOPOLOGY)
      DEFAULT_PACKET_SIZE_BYTES = Ok metrics ∧
    dict_get metrics "R0" = Some row ∧ dict_get row "R3" = Some m.
Proof. vm_compute. do 3 eexists. split_and!; reflexivity. Qed.

Lemma metrics_cost_is_distance_witness :
  ∃ metrics row m,
    calculate_network_metrics (convert_simple_to_full NETWORK_TOPOLOGY)
      DEFAULT_PACKET_SIZE_BYTES = Ok metrics ∧
    dict_get metrics "R0" = Some row ∧ dict_get row "R3" = Some m ∧
    ((∃ d p, find_shortest_path
               (init (weights_graph (convert_simple_to_full NETWORK_TOPOLOGY))) "R0"
             = Ok (d, p) ∧
             d !! "R3" = Some (Finite (ospf_cost m))) ∧
     path_cost (weights_graph (convert_simple_to_full NETWORK_TOPOLOGY)) (path_list m)
     = Some (ospf_cost m) ∧
     (nonneg_weights (weights_graph (convert_simple_to_full NETWORK_TOPOLOGY)) = true →
      shortest (weights_graph (convert_simple_to_full NETWORK_TOPOLOGY))
        "R0" "R3" (ospf_cost m))).
Proof.
  destruct network_metrics_entry as (metrics & row & m & H1 & H2 & H3).
  exists metrics, row, m. do 3 (split; [assumption|]).
  exact (metrics_cost_is_distance (convert_simple_to_full NETWORK_TOPOLOGY)
           DEFAULT_PACKET_SIZE_BYTES metrics "R0" "R3" row m eq_refl H1 H2 H3).
Defined.

Lemma metrics_hops_are_arcs_witness :
  ∃ metrics row m,
    calculate_network_metrics (convert_simple_to_full NETWORK_TOPOLOGY)
      DEFAULT_PACKET_SIZE_BYTES = Ok metrics ∧
    dict_get metrics "R0" = Some row ∧ dict_get row "R3" = Some m ∧
    ((∀ a b, (a, b) ∈ consecutive (path_list m) →
             ∃ at_, get_arc (convert_simple_to_full NETWORK_TOPOLOGY) a b = Some at_ ∧
                    hop_attrs (convert_simple_to_full NETWORK_TOPOLOGY) a b = at_) ∧
     path_bandwidths_mbps m
     = map (λ ab, match get_arc (convert_simple_to_full NETWORK_TOPOLOGY)
                          (fst ab) (snd ab) with
                  | Some at_ => get_bandwidth_mbps at_ (PyInt 1000)
                  | None => PyInt 1000
                  end) (consecutive (path_list m))).
Proof.
  destruct network_metrics_entry as (metrics & row & m & H1 & H2 & H3).
  exists metrics, row, m. do 3 (split; [assumption|]).
  exact (metrics_hops_are_arcs (convert_simple_to_full NETWORK_TOPOLOGY)
           DEFAULT_PACKET_SIZE_BYTES metrics "R0" "R3" row m eq_refl H1 H2 H3).
Defined.

(** ** A bandwidth of zero *)

Lemma zero_bandwidth_bps bw :
  bw ∈ zero_bandwidths →
  ∃ z, mul_float bw 1e6 = Ok z ∧ (z =? 0)%float = true.
Proof.
  unfold zero_bandwidths. rewrite !elem_of_cons, elem_of_nil.
  intros [->|[->|[->|[]]]].
  - exists 0%float. split; by vm_compute.
  - exists 0%float. split; by vm_compute.
  - exists (-0)%float. split; by vm_compute.
Qed.

Lemma transmission_delay_zero packet_size_bytes bw :
  bw ∈ zero_bandwidths →
  transmission_delay_ms packet_size_bytes bw
  = (_ ← int_to_float (packet_size_bytes * 8); Raise ZeroDivisionError).
Proof.
  intros (z & Hz & Hzero)%zero_bandwidth_bps.
  unfold transmission_delay_ms. rewrite Hz.
  unfold mbind, result_mbind, result_bind, div_float. cbn [to_float].
  rewrite Hzero. by destruct (int_to_float (packet_size_bytes * 8)).
Qed.

Lemma hop_loop_transmission topology packet_size_bytes l acc0 acc :
  for_each (hop_body topology packet_size_bytes) acc0 l = Ok acc →
  ∀ ab, ab ∈ l →
    ∃ t, transmission_delay_ms packet_size_bytes
           (get_bandwidth_mbps (hop_attrs topology (fst ab) (snd ab)) (PyInt 1000))
         = Ok t.
Proof.
  revert acc0. induction l as [|ab' l IH]; intros acc0; cbn [for_each].
  - intros _ ab Hab. inversion Hab.
  - intros H. apply bind_Ok in H as (acc1 & H1 & H2).
    unfold hop_body in H1. apply bind_Ok in H1 as (p & _ & H1).
    apply bind_Ok in H1 as (t & Ht & _).
    intros ab [->|Hab]%elem_of_cons; [eauto|by apply (IH acc1)].
Qed.

(** X16.  A link whose bandwidth is zero ([0], [0.0] or [-0.0]):
    [transmission_delay_ms] raises [ZeroDivisionError] for it, for any packet
    size that [float] converts; nothing catches the exception, so that the
    metrics that [calculate_network_metrics] returns never list a bandwidth of
    zero on the path of an entry. *)
Theorem zero_bandwidth_raises (packet_size_bytes : Z) (bw : number) :
  bw ∈ zero_bandwidths →
  (in_float_range (PyInt (packet_size_bytes * 8)) = true →
   transmission_delay_ms packet_size_bytes bw = Raise ZeroDivisionError) ∧
  ∀ topology metrics src dst row m,
    calculate_network_metrics topology packet_size_bytes = Ok metrics →
    dict_get metrics src = Some row → dict_get row dst = Some m →
    bw ∉ path_bandwidths_mbps m.
Proof.
  intros Hbw. split.
  - intros Hrange. rewrite (transmission_delay_zero _ _ Hbw).
    unfold int_to_float. cbn [in_float_range] in Hrange. by rewrite Hrange.
  - intros topology metrics src dst row m Hmetrics Hrow Hm Hin.
    destruct (metrics_entry_route _ _ _ _ _ _ _ Hmetrics Hrow Hm)
      as (_ & _ & _ & st & _ & _ & _ & _ & Hpm).
    pose proof (path_metrics_fields _ _ _ _ Hpm) as (_ & _ & _ & Hbws).
    rewrite Hbws in Hin. apply list_elem_of_fmap in Hin as (ab & -> & Hab).
    unfold path_metrics in Hpm. apply bind_Ok in Hpm as (acc & Hacc & _).
    destruct (hop_loop_transmission _ _ _ _ _ Hacc ab Hab) as [t Ht].
    rewrite (transmission_delay_zero _ _ Hbw) in Ht.
    by destruct (int_to_float (packet_size_bytes * 8)).
Qed.

Lemma zero_bandwidth_raises_witness :
  (in_float_range (PyInt (DEFAULT_PACKET_SIZE_BYTES * 8)) = true →
   transmission_delay_ms DEFAULT_PACKET_SIZE_BYTES (PyFloat 0)
   = Raise ZeroDivisionError) ∧
  ∀ topology metrics src dst row m,
    calculate_network_metrics topology DEFAULT_PACKET_SIZE_BYTES = Ok metrics →
    dict_get metrics src = Some row → dict_get row dst = Some m →
    PyFloat 0 ∉ path_bandwidths_mbps m.
Proof.
  apply (zero_bandwidth_raises DEFAULT_PACKET_SIZE_BYTES (PyFloat 0)).
  unfold zero_bandwidths. apply list_elem_of_further, list_elem_of_here.
Defined.

(** ** The routing tables *)

Lemma routing_row_dest d ps dest row :
  routing_row d ps dest = Ok row → row_dest row = dest.
Proof.
  unfold routing_row. intros (c & _ & H)%bind_Ok.
  apply bind_Ok in H as (path & _ & H).
  destruct path as [[|first [|second rest]]|]; simpl in H; by injection H as <-.
Qed.

Lemma rows_loop r router l rows0 rows :
  for_each (row_body r router) rows0 l = Ok rows →
  ∃ new, rows = rows0 ++ new ∧
    Forall2 (λ dest row, routing_row (r_distances r) (r_paths r) dest = Ok row)
      (filter (λ dest, dest ≠ router) l) new.
Proof.
  revert rows0. induction l as [|x l IH]; intros rows0; cbn [for_each].
  - intros [= <-]. exists []. rewrite app_nil_r. split; [done|constructor].
  - intros (rows1 & H1 & H2)%bind_Ok. apply IH in H2 as (new & -> & HF).
    unfold row_body in H1. destruct (String.eqb_spec x router) as [->|Hne].
    + injection H1 as <-. exists new. split; [done|].
      rewrite filter_cons_False; [done|]. by intros [].
    + apply bind_Ok in H1 as (row & Hrow & [= <-]). exists (row :: new).
      rewrite <- app_assoc. split; [done|].
      rewrite filter_cons_True; [|done]. by constructor.
Qed.

Lemma rows_loop_returns r router l rows0 :
  (∀ dest, dest ∈ l → dest ≠ router →
           ∃ row, routing_row (r_distances r) (r_paths r) dest = Ok row) →
  ∃ rows, for_each (row_body r router) rows0 l = Ok rows.
Proof.
  revert rows0. induction l as [|x l IH]; intros rows0 H; cbn [for_each]; [eauto|].
  destruct (String.eqb_spec x router) as [->|Hne].
  - assert (row_body r router rows0 router = Ok rows0) as ->.
    { unfold row_body. by rewrite String.eqb_refl. }
    simpl. apply IH. intros dest Hdest. apply H. by right.
  - destruct (H x) as [row Hrow]; [by left|done|].
    assert (row_body r router rows0 x = Ok (rows0 ++ [row])) as ->.
    { unfold row_body. destruct (String.eqb_spec x router); [done|].
      by rewrite Hrow. }
    simpl. apply IH. intros dest Hdest. apply H. by right.
Qed.

Lemma tables_loop g all_routes l tables0 tables :
  for_each (table_body g all_routes) tables0 l = Ok tables →
  ∃ new, tables = tables0 ++ new ∧
    Forall2 (λ router table,
               fst table = router ∧
               ∃ r, dict_get all_routes router = Some r ∧
                    for_each (row_body r router) [] (dict_keys g) = Ok (snd table))
      l new.
Proof.
  revert tables0. induction l as [|x l IH]; intros tables0; cbn [for_each].
  - intros [= <-]. exists []. rewrite app_nil_r. split; [done|constructor].
  - intros (tables1 & H1 & H2)%bind_Ok. apply IH in H2 as (new & -> & HF).
    unfold table_body in H1. apply bind_Ok in H1 as (r & Hr & H1).
    apply bind_Ok in H1 as (rows & Hrows & [= <-]).
    exists ((x, rows) :: new). rewrite <- app_assoc. split; [done|].
    constructor; [|done]. split; [done|]. exists r. split; [|done].
    unfold dict_item in Hr. destruct (dict_get all_routes x); [|done].
    by injection Hr as ->.
Qed.

Lemma tables_loop_returns g all_routes l tables0 :
  (∀ router, router ∈ l →
     ∃ r rows, dict_get all_routes router = Some r ∧
               for_each (row_body r router) [] (dict_keys g) = Ok rows) →
  ∃ tables, for_each (table_body g all_routes) tables0 l = Ok tables.
Proof.
  revert tables0. induction l as [|x l IH]; intros tables0 H; cbn [for_each];
    [eauto|].
  destruct (H x) as (r & rows & Hr & Hrows); [by left|].
  assert (table_body g all_routes tables0 x = Ok (tables0 ++ [(x, rows)])) as ->.
  { unfold table_body, dict_item. rewrite Hr. simpl. by rewrite Hrows. }
  simpl. apply IH. intros router Hrouter. apply H. by right.
Qed.

(** The tables that [generate_routing_tables] prints, line by line. *)
Lemma routing_tables_lookup g tables all_routes :
  generate_routing_tables_in g = Ok (tables, all_routes) →
  calculate_all_paths (init g) = Ok all_routes ∧
  map fst tables = dict_keys g ∧
  ∀ router rows, (router, rows) ∈ tables →
    router ∈ dict_keys g ∧
    map row_dest rows = filter (λ dest, dest ≠ router) (dict_keys g) ∧
    ∃ r, dict_get all_routes router = Some r ∧
         ∀ row, row ∈ rows →
                row_dest row ∈ dict_keys g ∧ row_dest row ≠ router ∧
                routing_row (r_distances r) (r_paths r) (row_dest row) = Ok row.
Proof.
  unfold generate_routing_tables_in. intros (all & Hall & H)%bind_Ok.
  apply bind_Ok in H as (tables' & Htables & [= <- <-]). split; [done|].
  apply tables_loop in Htables as (new & -> & HF). rewrite app_nil_l.
  split.
  { clear -HF. induction HF as [|router table l new [Hfst _] _ IH]; [done|].
    simpl. by rewrite Hfst, IH. }
  intros router rows (i & Hi)%list_elem_of_lookup.
  destruct (Forall2_lookup_r _ _ _ _ _ HF Hi) as (router' & Hl & Hfst & r & Hr & Hrows).
  simpl in Hfst, Hrows. subst router'.
  split; [by eapply list_elem_of_lookup_2|].
  apply rows_loop in Hrows as (rows' & -> & HR). rewrite app_nil_l.
  split.
  { clear -HR. induction HR as [|dest row l new Hrow _ IH]; [done|].
    simpl. by rewrite (routing_row_dest _ _ _ _ Hrow), IH. }
  exists r. split; [done|]. intros row (j & Hj)%list_elem_of_lookup.
  destruct (Forall2_lookup_r _ _ _ _ _ HR Hj) as (dest & Hdest & Hrow).
  rewrite (routing_row_dest _ _ _ _ Hrow).
  apply list_elem_of_lookup_2, list_elem_of_filter in Hdest as [Hne Hdest].
  done.
Qed.

(** X17.  Once [calculate_all_paths] has returned, [generate_routing_tables]
    raises no [KeyError] on [all_routes[router]], [distances[dest]] and
    [paths[dest]]: it returns the routes of [calculate_all_paths], after it
    has printed one table per router, in the order of the topology, each with
    one line per other router, in the order of the topology. *)
Theorem routing_tables_returned (g : Graph) (all_routes : dict routes) :
  graph_wf g = true →
  calculate_all_paths (init g) = Ok all_routes →
  ∃ tables,
    generate_routing_tables_in g = Ok (tables, all_routes) ∧
    map fst tables = dict_keys g ∧
    ∀ router rows, (router, rows) ∈ tables →
      map row_dest rows = filter (λ dest, dest ≠ router) (dict_keys g).
Proof.
  intros Hwf Hall.
  assert (∃ tables, generate_routing_tables_in g = Ok (tables, all_routes))
    as [tables Htables].
  { unfold generate_routing_tables_in. rewrite Hall. simpl.
    destruct (tables_loop_returns g all_routes (dict_keys g) []) as [tables ->];
      [|by eexists].
    intros router Hrouter.
    apply calculate_all_paths_lookup in Hall as [Hin _].
    destruct (Hin router Hrouter) as (r & Hfrom & Hr).
    apply routes_from_paths in Hfrom as (Hfind & Hpaths & _).
    apply find_shortest_path_Ok in Hfind as (st & HI & _ & Hd & _); [|done].
    destruct (rows_loop_returns r router (dict_keys g) []) as [rows Hrows];
      [|by eauto].
    intros dest Hdest Hne. unfold routing_row, distances_item, dict_item.
    destruct (i_dom _ _ _ _ HI dest) as [c Hc]; [by apply dict_get_is_Some|].
    rewrite <- Hd, Hc. simpl.
    destruct (Hpaths dest Hdest Hne) as (path & _ & ->). simpl.
    destruct path as [[|first [|second rest]]|]; by eexists. }
  exists tables. split; [done|].
  apply routing_tables_lookup in Htables as (_ & Hkeys & Hrows).
  split; [done|]. intros router rows Hin. by destruct (Hrows router rows Hin) as (_ & ? & _).
Qed.

Lemma network_all_paths :
  ∃ all_routes, calculate_all_paths (init NETWORK_TOPOLOGY) = Ok all_routes.
Proof. apply calculate_all_paths_closed; reflexivity. Qed.

Lemma routing_tables_returned_witness :
  ∃ all_routes,
    calculate_all_paths (init NETWORK_TOPOLOGY) = Ok all_routes ∧
    ∃ tables,
      generate_routing_tables_in NETWORK_TOPOLOGY = Ok (tables, all_routes) ∧
      map fst tables = dict_keys NETWORK_TOPOLOGY ∧
      ∀ router rows, (router, rows) ∈ tables →
        map row_dest rows
        = filter (λ dest, dest ≠ router) (dict_keys NETWORK_TOPOLOGY).
Proof.
  destruct network_all_paths as (all_routes & H). exists all_routes.
  split; [exact H|].
  exact (routing_tables_returned NETWORK_TOPOLOGY all_routes eq_refl H).
Defined.

(** X18.  A line of a routing table is consistent with the graph.  A line
    with an infinite cost is that of a destination that is not reachable from
    the router, with the next hop ["N/A"] and the path ["Unreachable"].  A line
    with a finite cost [c] shows a path from the router to the destination
    whose second node, the next hop, is a neighbour of the router, and whose
    cost in the graph is [c]; with non-negative weights [c] is the least cost
    of a path to the destination. *)
Theorem routing_table_rows (g : Graph) (tables : list (string * list table_row))
    (all_routes : dict routes) (router : string) (rows : list table_row)
    (row : table_row) :
  graph_wf g = true →
  generate_routing_tables_in g = Ok (tables, all_routes) →
  (router, rows) ∈ tables → row ∈ rows →
  row_dest row ≠ router ∧
  match row_cost row with
  | Infinity =>
      ¬ reachable g router (row_dest row) ∧
      row_next_hop row = "N/A" ∧ row_path row = "Unreachable"
  | Finite c =>
      ∃ rest,
        row_path row = String.concat " → " (router :: row_next_hop row :: rest) ∧
        last (router :: row_next_hop row :: rest) = Some (row_dest row) ∧
        (∃ w, arc g router (row_next_hop row) w) ∧
        path_cost g (router :: row_next_hop row :: rest) = Some c ∧
        (nonneg_weights g = true → shortest g router (row_dest row) c)
  end.
Proof.
  intros Hwf (Hall & _ & Htables)%routing_tables_lookup Hin Hrow.
  destruct (Htables router rows Hin) as (Hrouter & _ & r & Hr & Hrows).
  destruct (Hrows row Hrow) as (Hdest & Hne & Hrr). split; [done|].
  apply calculate_all_paths_lookup in Hall as [Hallin _].
  destruct (Hallin router Hrouter) as (r' & Hfrom & Hr').
  assert (r' = r) as -> by congruence.
  apply routes_from_paths in Hfrom as (Hfind & _ & Hpaths).
  apply find_shortest_path_Ok in Hfind as (st & HI & Hq & Hd & Hp); [|done].
  assert (is_Some (dict_get g router)) as Hstart by (by apply dict_get_is_Some).
  assert (is_Some (dict_get g (row_dest row))) as Hkey
    by (by apply dict_get_is_Some).
  unfold routing_row, distances_item, dict_item in Hrr.
  rewrite <- Hd in Hrr.
  destruct (distances st !! row_dest row) as [c|] eqn:Hc; [|done]. simpl in Hrr.
  destruct (dict_get (r_paths r) (row_dest row)) as [path|] eqn:Hpath; [|done].
  simpl in Hrr. destruct (Hpaths _ _ Hpath) as [_ Hrec]. rewrite <- Hp in Hrec.
  destruct c as [c|].
  - pose proof (final_finite_visited _ _ st HI Hq _ _ Hc) as Hvis.
    pose proof (final_visited_reachable _ _ st HI _ Hvis) as Hreach.
    destruct (final_reconstruct_reachable _ _ st HI Hq Hstart _ Hreach)
      as (p & c' & Hrec' & Hch & Hcost & Hc').
    assert (c' = c) as -> by congruence.
    assert (path = Some p) as -> by congruence.
    destruct (chain_first _ _ _ _ Hch) as [p' ->].
    destruct p' as [|second rest].
    { destruct (chain_last _ _ _ _ Hch) as [p'' Hp''].
      destruct p'' as [|x [|y p'']]; [|done..].
      injection Hp'' as ->. done. }
    injection Hrr as <-. cbn [row_cost row_next_hop row_path row_dest] in *.
    exists rest. split_and!; [done| | |done|].
    + destruct (chain_last _ _ _ _ Hch) as [p'' ->]. by rewrite last_snoc.
    + rewrite path_cost_cons in Hcost.
      destruct (dict_get g router) as [nbrs|] eqn:Hn; [|done].
      destruct (dict_get nbrs second) as [w|] eqn:Hw; [|done].
      exists w, nbrs. done.
    + intros Hnn. split; [by apply (i_sound _ _ _ _ HI)|].
      intros c'' Hw. by apply (i_opt _ _ _ _ HI Hnn (row_dest row)).
  - assert (¬ reachable g router (row_dest row)) as Hnr.
    { intros Hreach%(final_reachable_visited _ _ st HI Hq).
      destruct (i_vis_fin _ _ _ _ HI _ Hreach) as [c' Hc']. congruence. }
    rewrite (final_reconstruct_unreachable _ _ st HI _ Hkey Hnr) in Hrec.
    injection Hrec as <-. injection Hrr as <-. done.
Qed.

Lemma network_tables_row :
  ∃ tables all_routes rows row,
    generate_routing_tables_in NETWORK_TOPOLOGY = Ok (tables, all_routes) ∧
    ("R0", rows) ∈ tables ∧ row ∈ rows.
Proof.
  vm_compute. do 4 eexists.
  split_and!; [reflexivity|apply list_elem_of_here..].
Qed.

Lemma routing_table_rows_witness :
  ∃ tables all_routes rows row,
    generate_routing_tables_in NETWORK_TOPOLOGY = Ok (tables, all_routes) ∧
    ("R0", rows) ∈ tables ∧ row ∈ rows ∧
    (row_dest row ≠ "R0" ∧
     match row_cost row with
     | Infinity =>
         ¬ reachable NETWORK_TOPOLOGY "R0" (row_dest row) ∧
         row_next_hop row = "N/A" ∧ row_path row = "Unreachable"
     | Finite c =>
         ∃ rest,
           row_path row = String.concat " → " ("R0" :: row_next_hop row :: rest) ∧
           last ("R0" :: row_next_hop row :: rest) = Some (row_dest row) ∧
           (∃ w, arc NETWORK_TOPOLOGY "R0" (row_next_hop row) w) ∧
           path_cost NETWORK_TOPOLOGY ("R0" :: row_next_hop row :: rest) = Some c ∧
           (nonneg_weights NETWORK_TOPOLOGY = true →
            shortest NETWORK_TOPOLOGY "R0" (row_dest row) c)
     end).
Proof.
  destruct network_tables_row as (tables & all_routes & rows & row & H1 & H2 & H3).
  exists tables, all_routes, rows, row. do 3 (split; [assumption|]).
  exact (routing_table_rows NETWORK_TOPOLOGY tables all_routes "R0" rows row
           eq_refl H1 H2 H3).
Defined.

(** ** The route between two PCs *)

Lemma int_to_float_Ok z :
  Z.abs z < float_overflow → ∃ f, int_to_float z = Ok f.
Proof.
  intros H%Z.ltb_lt. unfold int_to_float. rewrite H. by eexists.
Qed.

Lemma calculate_total_delay_returns hops :
  0 ≤ hops → 50000 * hops < float_overflow →
  ∃ delay, calculate_total_delay hops = Ok delay.
Proof.
  intros H0 Hlt.
  assert ((SPEED_OF_LIGHT_FIBER =? 0)%float = false) as Hspeed by (by vm_compute).
  assert (∃ k, int_to_float 1000 = Ok k) as [k Hk] by (vm_compute; by eexists).
  assert (∃ t, calculate_transmission_delay PACKET_SIZE_BYTES
                 (PyFloat BANDWIDTH_MBPS) = Ok t) as [t Ht]
    by (vm_compute; by eexists).
  destruct (int_to_float_Ok (DISTANCE_KM_PER_HOP * hops * 1000)) as [a Ha].
  { unfold DISTANCE_KM_PER_HOP. lia. }
  destruct (int_to_float_Ok hops) as [h Hh]; [lia|].
  unfold calculate_total_delay. rewrite Ht.
  unfold calculate_propagation_delay, mul_int, div_float, float_mul_int,
    mul_float, to_float, mbind, result_mbind, result_bind.
  rewrite Ha, Hspeed, Hk, Hh. by eexists.
Qed.

Lemma attached_router pc_to_router g pc r :
  attached pc_to_router g = true →
  dict_get pc_to_router pc = Some r → is_Some (dict_get g r).
Proof.
  intros Hat Hpc%dict_get_elem. unfold attached in Hat.
  rewrite forallb_forall in Hat. apply dict_mem_true.
  apply (Hat (pc, r)). by apply list_elem_of_In.
Qed.

(** X19.  What [find_pc_to_pc_path] answers, when it returns.  With a name
    that is not a PC, the message of the invalid names; with two PCs of one
    router, the message of the same network.  Otherwise the router of the
    source is a node of the topology, and either the router of the
    destination is reachable and the route that is printed has a path from
    the one router to the other, its number of hops, the cost of this path
    in the topology, which is the least one for non-negative weights, and
    the delay of [calculate_total_delay] for the hops; or the router of the
    destination is not reachable and the message is that no route is
    found. *)
Theorem find_pc_to_pc_path_answer (pc_to_router : dict string) (g : Graph)
    (src_pc dst_pc : string) (answer : pc_answer) :
  graph_wf g = true →
  find_pc_to_pc_path_in pc_to_router g src_pc dst_pc = Ok answer →
  match dict_get pc_to_router src_pc, dict_get pc_to_router dst_pc with
  | Some a, Some b =>
      if String.eqb a b then
        answer = Message (src_pc +:+ " and " +:+ dst_pc
                          +:+ " are in the same network (" +:+ a
                          +:+ "). No routing needed.")
      else
        is_Some (dict_get g a) ∧
        match answer with
        | Printed info =>
            reachable g a b ∧
            ri_src_pc info = src_pc ∧ ri_dst_pc info = dst_pc ∧
            ri_src_router info = a ∧ ri_dst_router info = b ∧
            head (ri_path info) = Some a ∧ last (ri_path info) = Some b ∧
            ri_hops info = Z.of_nat (length (ri_path info)) - 1 ∧
            calculate_total_delay (ri_hops info) = Ok (ri_delay info) ∧
            ∃ c, ri_cost info = Finite c ∧
                 path_cost g (ri_path info) = Some c ∧
                 (nonneg_weights g = true → shortest g a b c)
        | Message text =>
            ¬ reachable g a b ∧
            text = " No route found between " +:+ a +:+ " and " +:+ b
        end
  | _, _ =>
      answer = Message (" Invalid PC name(s). Valid PCs: "
                        +:+ String.concat ", " (dict_keys pc_to_router))
  end.
Proof.
  intros Hwf H. unfold find_pc_to_pc_path_in, dict_mem, dict_item in H.
  destruct (dict_get pc_to_router src_pc) as [a|];
    [|by injection H as <-].
  destruct (dict_get pc_to_router dst_pc) as [b|];
    [|by injection H as <-].
  cbn [negb orb] in H. unfold mbind, result_mbind, result_bind in H.
  destruct (String.eqb_spec a b) as [->|Hne]; [by injection H as <-|].
  destruct (calculate_all_paths (init g)) as [all_routes| |] eqn:Hall; [|done..].
  destruct (dict_get all_routes a) as [r|] eqn:Hr; [|done].
  apply calculate_all_paths_lookup in Hall as [Hallin Hallout].
  destruct (decide (a ∈ routers (init g))) as [Ha|Ha];
    [|by rewrite (Hallout a Ha) in Hr].
  destruct (Hallin a Ha) as (r' & Hfrom & Hr').
  assert (r' = r) as -> by congruence.
  apply routes_from_paths in Hfrom as (Hfind & Hpaths & Hrec).
  apply find_shortest_path_Ok in Hfind as (st & HI & Hq & Hd & Hp); [|done].
  assert (is_Some (dict_get g a)) as Hstart by (by apply dict_get_is_Some).
  split; [done|].
  destruct (dict_get (r_paths r) b) as [stored|] eqn:Hstored.
  - destruct (Hrec _ _ Hstored) as [_ Hrecb]. rewrite <- Hp in Hrecb.
    destruct stored as [[|first rest]|].
    + by apply reconstruct_path_ends in Hrecb as [[=] _].
    + destruct (calculate_total_delay _) as [delay| |] eqn:Hdelay; [|done..].
      injection H as <-. cbn [ri_src_pc ri_dst_pc ri_src_router ri_dst_router
                              ri_path ri_hops ri_cost ri_delay].
      destruct (final_reconstruct_chain _ _ st b _ HI Hq Hstart Hrecb)
        as (Hch & _ & Hvis).
      destruct (final_chain_cost _ _ st HI _ _ Hch) as (c & Hc & Hcost).
      pose proof (reconstruct_path_ends _ _ _ _ Hrecb) as [Hhead Hlast].
      assert (b ∈ visited st) as Hb.
      { apply Hvis. destruct (chain_last _ _ _ _ Hch) as [p' ->].
        apply elem_of_app. right. left. }
      split_and!; [by apply (final_visited_reachable _ _ st HI)|done..|].
      exists c. rewrite <- Hd, Hc. split_and!; [done..|].
      intros Hnn. split; [by apply (i_sound _ _ _ _ HI)|].
      intros c' Hw. by apply (i_opt _ _ _ _ HI Hnn b).
    + injection H as <-. split; [|done]. intros Hreach.
      destruct (final_reconstruct_reachable _ _ st HI Hq Hstart _ Hreach)
        as (p & c & Hp' & _). congruence.
  - injection H as <-. split; [|done]. intros Hreach.
    pose proof (final_reachable_visited _ _ st HI Hq _ Hreach) as Hb.
    assert (is_Some (dict_get g b)) as Hkey
      by (by apply (final_visited_key g a st)).
    apply dict_get_is_Some in Hkey.
    destruct (Hpaths b Hkey) as (path & _ & Hget); [congruence|congruence].
Qed.

Lemma network_pc_route :
  ∃ answer,
    find_pc_to_pc_path_in PC_TO_ROUTER NETWORK_TOPOLOGY "PC0" "PC10" = Ok answer.
Proof. vm_compute. by eexists. Qed.

Lemma find_pc_to_pc_path_answer_witness :
  ∃ answer,
    find_pc_to_pc_path_in PC_TO_ROUTER NETWORK_TOPOLOGY "PC0" "PC10" = Ok answer ∧
    match dict_get PC_TO_ROUTER "PC0", dict_get PC_TO_ROUTER "PC10" with
    | Some a, Some b =>
        if String.eqb a b then
          answer = Message ("PC0" +:+ " and " +:+ "PC10"
                            +:+ " are in the same network (" +:+ a
                            +:+ "). No routing needed.")
        else
          is_Some (dict_get NETWORK_TOPOLOGY a) ∧
          match answer with
          | Printed info =>
              reachable NETWORK_TOPOLOGY a b ∧
              ri_src_pc info = "PC0" ∧ ri_dst_pc info = "PC10" ∧
              ri_src_router info = a ∧ ri_dst_router info = b ∧
              head (ri_path info) = Some a ∧ last (ri_path info) = Some b ∧
              ri_hops info = Z.of_nat (length (ri_path info)) - 1 ∧
              calculate_total_delay (ri_hops info) = Ok (ri_delay info) ∧
              ∃ c, ri_cost info = Finite c ∧
                   path_cost NETWORK_TOPOLOGY (ri_path info) = Some c ∧
                   (nonneg_weights NETWORK_TOPOLOGY = true →
                    shortest NETWORK_TOPOLOGY a b c)
          | Message text =>
              ¬ reachable NETWORK_TOPOLOGY a b ∧
              text = " No route found between " +:+ a +:+ " and " +:+ b
          end
    | _, _ =>
        answer = Message (" Invalid PC name(s). Valid PCs: "
                          +:+ String.concat ", " (dict_keys PC_TO_ROUTER))
    end.
Proof.
  destruct network_pc_route as (answer & H). exists answer. split; [exact H|].
  exact (find_pc_to_pc_path_answer PC_TO_ROUTER NETWORK_TOPOLOGY "PC0" "PC10"
           answer eq_refl H).
Defined.

(** X20.  [find_pc_to_pc_path] raises nothing when every neighbour in the
    topology is a node of the topology, every PC is attached to a node of the
    topology, and the number of nodes is one that [float] converts after the
    multiplication by the metres of a hop: whatever the two names, it returns
    a message or prints a route. *)
Theorem find_pc_to_pc_path_returns (pc_to_router : dict string) (g : Graph)
    (src_pc dst_pc : string) :
  graph_wf g = true → neighbor_closed g = true →
  attached pc_to_router g = true →
  50000 * Z.of_nat (length g) < float_overflow →
  ∃ answer, find_pc_to_pc_path_in pc_to_router g src_pc dst_pc = Ok answer.
Proof.
  intros Hwf Hclosed Hat Hlen.
  unfold find_pc_to_pc_path_in, dict_mem, dict_item.
  destruct (dict_get pc_to_router src_pc) as [a|] eqn:Hsrc; [|by eexists].
  destruct (dict_get pc_to_router dst_pc) as [b|] eqn:Hdst; [|by eexists].
  cbn [negb orb]. unfold mbind, result_mbind, result_bind.
  destruct (String.eqb_spec a b) as [->|Hne]; [by eexists|].
  destruct (calculate_all_paths_closed g Hwf Hclosed) as [all_routes Hall].
  rewrite Hall.
  pose proof (attached_router _ _ _ _ Hat Hsrc) as Hstart.
  apply calculate_all_paths_lookup in Hall as [Hallin _].
  destruct (Hallin a) as (r & Hfrom & ->); [by apply dict_get_is_Some|].
  destruct (dict_get (r_paths r) b) as [[[|first rest]|]|] eqn:Hstored;
    [by eexists| |by eexists..].
  apply routes_from_paths in Hfrom as (Hfind & _ & Hrec).
  apply find_shortest_path_Ok in Hfind as (st & HI & Hq & _ & Hp); [|done].
  destruct (Hrec _ _ Hstored) as [_ Hrecb]. rewrite <- Hp in Hrecb.
  destruct (final_reconstruct_chain _ _ st b _ HI Hq Hstart Hrecb)
    as (_ & Hnd & Hvis).
  assert (length (first :: rest) ≤ length g)%nat as Hle.
  { rewrite <- (length_map fst g). apply submseteq_length, NoDup_submseteq; [done|].
    intros x Hx. by apply dict_get_is_Some, (final_visited_key g a st), Hvis. }
  destruct (calculate_total_delay_returns (Z.of_nat (length (first :: rest)) - 1))
    as [delay ->]; [cbn [length]; lia|lia|]. by eexists.
Qed.

Lemma find_pc_to_pc_path_returns_witness :
  ∃ answer, find_pc_to_pc_path_in PC_TO_ROUTER NETWORK_TOPOLOGY "PC3" "PC17"
            = Ok answer.
Proof.
  apply (find_pc_to_pc_path_returns PC_TO_ROUTER NETWORK_TOPOLOGY "PC3" "PC17");
    [reflexivity|reflexivity|reflexivity|by vm_compute].
Defined.

(** ** The metrics of a converted topology *)

Lemma converted_arc g a b at_ :
  graph_wf g = true →
  get_arc (convert_simple_to_full g) a b = Some at_ →
  ∃ c, at_ = [cost c; distance_km (PyInt 50); bandwidth_mbps (PyFloat T1_MBPS)].
Proof.
  intros Hwf. rewrite (convert_simple_to_full_map g Hwf). unfold get_arc.
  rewrite (dict_get_map
             (λ nbrs : dict Z,
                map (λ a, (fst a, [cost (snd a); distance_km (PyInt 50);
                                   bandwidth_mbps (PyFloat T1_MBPS)])) nbrs)).
  destruct (dict_get g a) as [nbrs|]; simpl; [|done].
  rewrite (dict_get_map (λ c : Z, [cost c; distance_km (PyInt 50);
                                   bandwidth_mbps (PyFloat T1_MBPS)])).
  destruct (dict_get nbrs b) as [c|]; simpl; [|done]. intros [= <-]. eauto.
Qed.

Lemma py_min_same x l :
  number_ltb x x = false → (∀ y, y ∈ l → y = x) → py_min x l = x.
Proof.
  intros Hx. induction l as [|y l IH]; intros H; simpl; [done|].
  assert (y = x) as -> by (apply H; left). rewrite Hx.
  apply IH. intros z Hz. apply H. by right.
Qed.

Lemma path_metrics_throughput topology packet_size_bytes path m :
  path_metrics topology packet_size_bytes path = Ok m →
  effective_throughput_mbps (path_bandwidths_mbps m)
    DEFAULT_PACKET_LOSS DEFAULT_UTILIZATION = Ok (throughput_mbps m).
Proof.
  unfold path_metrics. intros H. apply bind_Ok in H as (acc & Hacc & H).
  apply bind_Ok in H as (pr & _ & H). apply bind_Ok in H as (qu & _ & H).
  by apply bind_Ok in H as (th & Hth & [= <-]).
Qed.

(** X21.  On a topology that [convert_simple_to_full] builds from a graph,
    every link on the path of an entry of the metrics has the bandwidth
    [1.544], there is at least one, and the throughput of every entry is the
    same float, [1.22]: [round(1.544 * (1 - 0.01) * 0.8, 2)]. *)
Theorem converted_metrics_throughput (g : Graph) (packet_size_bytes : Z)
    (metrics : dict (dict RouteMetrics)) (src dst : string)
    (row : dict RouteMetrics) (m : RouteMetrics) :
  graph_wf g = true →
  calculate_network_metrics (convert_simple_to_full g) packet_size_bytes
  = Ok metrics →
  dict_get metrics src = Some row → dict_get row dst = Some m →
  path_bandwidths_mbps m ≠ [] ∧
  (∀ bw, bw ∈ path_bandwidths_mbps m → bw = PyFloat T1_MBPS) ∧
  throughput_mbps m = 0x1.3851eb851eb85p+0%float.
Proof.
  intros Hwf Hmetrics Hrow Hm.
  pose proof (convert_simple_to_full_wf g Hwf) as Htwf.
  destruct (metrics_entry_route _ _ _ _ _ _ _ Hmetrics Hrow Hm)
    as (Hne & Hsrc & Hdst & st & HI & Hq & Hfind & Hrec & Hpm).
  destruct (final_reconstruct_chain _ _ st dst (path_list m) HI Hq)
    as (Hch & _ & _); [by apply weights_graph_keys|done|].
  destruct (final_chain_cost _ _ st HI _ _ Hch) as (c & Hc & Hcost).
  destruct (path_cost_hops _ _ c Htwf Hcost) as [_ Harcs].
  pose proof (path_metrics_fields _ _ _ _ Hpm) as (_ & _ & _ & Hbws).
  assert (∀ bw, bw ∈ path_bandwidths_mbps m → bw = PyFloat T1_MBPS) as Hall.
  { intros bw Hbw. rewrite Hbws in Hbw.
    apply list_elem_of_fmap in Hbw as ([a b] & -> & Hab).
    destruct (Harcs a b Hab) as (at_ & Hat & Hhop). cbn [fst snd].
    rewrite Hhop. by apply (converted_arc g) in Hat as [c' ->]. }
  assert (path_bandwidths_mbps m ≠ []) as Hnil.
  { rewrite Hbws. pose proof (reconstruct_path_ends _ _ _ _ Hrec) as [Hhead Hlast].
    destruct (path_list m) as [|x [|y p]]; [done| |done].
    simpl in Hhead, Hlast. congruence. }
  split_and!; [done..|].
  apply path_metrics_throughput in Hpm.
  destruct (path_bandwidths_mbps m) as [|first rest]; [done|].
  unfold effective_throughput_mbps in Hpm.
  assert (first = PyFloat T1_MBPS) as -> by (apply Hall; left).
  rewrite py_min_same in Hpm; [|by vm_compute|].
  - assert (effective_throughput_mbps [PyFloat T1_MBPS]
              DEFAULT_PACKET_LOSS DEFAULT_UTILIZATION
            = Ok 0x1.3851eb851eb85p+0%float) as Hval by (by vm_compute).
    unfold effective_throughput_mbps in Hval. cbn [py_min] in Hval. congruence.
  - intros y Hy. apply Hall. by right.
Qed.

Lemma converted_metrics_throughput_witness :
  ∃ metrics row m,
    calculate_network_metrics (convert_simple_to_full NETWORK_TOPOLOGY)
      DEFAULT_PACKET_SIZE_BYTES = Ok metrics ∧
    dict_get metrics "R0" = Some row ∧ dict_get row "R3" = Some m ∧
    (path_bandwidths_mbps m ≠ [] ∧
     (∀ bw, bw ∈ path_bandwidths_mbps m → bw = PyFloat T1_MBPS) ∧
     throughput_mbps m = 0x1.3851eb851eb85p+0%float).
Proof.
  destruct network_metrics_entry as (metrics & row & m & H1 & H2 & H3).
  exists metrics, row, m. do 3 (split; [assumption|]).
  exact (converted_metrics_throughput NETWORK_TOPOLOGY DEFAULT_PACKET_SIZE_BYTES
           metrics "R0" "R3" row m eq_refl H1 H2 H3).
Defined.
